(** * bootchat: a shallow embedding of the REST server and of the chat client

    The server part follows the Express server of the repository (the
    JavaScript source that comes after the text of
    [PERFORMANCE_OPTIMIZATIONS.md], called [server.js] below) together with
    [database_schema.sql]; the client part follows the message batching and
    the generation call of [script.js].

    Conventions of the model.
    - A JavaScript string is a Rocq [string]; one character is one unit both
      for [String.length] in JavaScript and for the [VARCHAR(n)] width of
      Postgres.
    - A UUID is a natural number; [uuid_generate_v4()] draws from a counter
      kept in the database state.
    - A request body is a record of optional fields; the fields the handlers
      read are strings (or, for the bulk route, an array of objects).
    - Every [await pool.query(..)] is one [Query] node of a handler program,
      so that a handler can be run to completion or interleaved with others
      at exactly the points where the event loop may switch.
    - A path parameter [:id] is a well-formed UUID, and the database is
      reachable: a statement fails only by a constraint of the schema.
    - The tables [api_keys] and [sessions], which no handler touches, are
      left out. *)

From Stdlib Require Import List String Ascii Bool Arith ZArith Lia.
From Stdlib Require Import Sorting.Permutation Sorting.Sorted DecimalString.
Import ListNotations.
Open Scope string_scope.
Open Scope list_scope.
Open Scope nat_scope.

Set Implicit Arguments.

(** ** Strings as JavaScript uses them *)

Module Str.

Fixpoint starts_with (p s : string) : bool :=
  match p, s with
  | EmptyString, _ => true
  | String a p', String b s' => Ascii.eqb a b && starts_with p' s'
  | String _ _, EmptyString => false
  end.

(** [s.includes(p)] *)
Fixpoint includes (p s : string) : bool :=
  starts_with p s ||
  match s with
  | EmptyString => false
  | String _ s' => includes p s'
  end.

(** [s.split(sep)] for a one-character separator: the result is never
    empty, and consecutive separators give empty fields. *)
Fixpoint split (sep : ascii) (s : string) : list string :=
  match s with
  | EmptyString => [EmptyString]
  | String c s' =>
      if Ascii.eqb c sep then EmptyString :: split sep s'
      else match split sep s' with
           | [] => [String c EmptyString]
           | f :: fs => String c f :: fs
           end
  end.

(** [xs.join(sep)] *)
Fixpoint join (sep : string) (xs : list string) : string :=
  match xs with
  | [] => EmptyString
  | [x] => x
  | x :: rest => (x ++ sep ++ join sep rest)%string
  end.

Definition is_space (c : ascii) : bool :=
  let n := nat_of_ascii c in
  (n =? 32) || ((9 <=? n) && (n <=? 13)).

Fixpoint trim_start (s : string) : string :=
  match s with
  | EmptyString => EmptyString
  | String c s' => if is_space c then trim_start s' else s
  end.

Fixpoint all_spaces (s : string) : bool :=
  match s with
  | EmptyString => true
  | String c s' => is_space c && all_spaces s'
  end.

Fixpoint trim_end (s : string) : string :=
  match s with
  | EmptyString => EmptyString
  | String c s' => if all_spaces s then EmptyString else String c (trim_end s')
  end.

(** [s.trim()] *)
Definition trim (s : string) : string := trim_end (trim_start s).

Fixpoint only_blanks (s : string) : bool :=
  match s with
  | EmptyString => true
  | String c s' => Ascii.eqb c " "%char && only_blanks s'
  end.

Fixpoint skip (n : nat) (s : string) : string :=
  match n, s with
  | O, _ => s
  | S n', String _ s' => skip n' s'
  | S _, EmptyString => EmptyString
  end.

Fixpoint replicate (n : nat) (c : ascii) : string :=
  match n with
  | O => EmptyString
  | S n' => String c (replicate n' c)
  end.

End Str.

(** A value used in a JavaScript condition: [undefined] and the empty string
    are falsy. *)
Definition truthy (o : option string) : bool :=
  match o with
  | Some s => negb (s =? "")%string
  | None => false
  end.

Definition text (o : option string) : string :=
  match o with
  | Some s => s
  | None => ""
  end.

(** * The server *)

Module Server.

(** ** The relational store ([database_schema.sql]) *)

Definition uuid := nat.
Definition timestamp := nat.

Record User := {
  u_id : uuid;
  u_email : string;
  u_password_hash : string;
  u_name : string;
  u_created_at : timestamp;
  u_updated_at : timestamp;
  u_last_login : option timestamp;
  u_is_active : bool
}.

Record Conversation := {
  c_id : uuid;
  c_user_id : uuid;
  c_title : string;
  c_created_at : timestamp;
  c_updated_at : timestamp;
  c_is_archived : bool
}.

Record Message := {
  m_id : uuid;
  m_conversation_id : uuid;
  m_role : string;
  m_content : string;
  m_created_at : timestamp;
  m_message_order : Z
}.

Record Settings := {
  s_id : uuid;
  s_user_id : uuid;
  s_preferred_model : string;
  s_use_builtin_key : bool;
  s_created_at : timestamp;
  s_updated_at : timestamp
}.

(** Tables keep their rows in insertion order. *)
Record DB := {
  users : list User;
  conversations : list Conversation;
  messages : list Message;
  user_settings : list Settings;
  next_uuid : uuid
}.

Definition empty_db : DB :=
  {| users := []; conversations := []; messages := [];
     user_settings := []; next_uuid := 0 |}.

(** What a statement sees of its environment: the value of [NOW()]. *)
Record Env := { now : timestamp; salt : string }.

(** *** Column types and constraints *)

(** [VARCHAR(n)]: a longer value is an error, unless the excess is made of
    spaces only, in which case it is cut to [n] characters. *)
Definition varchar (n : nat) (s : string) : option string :=
  if String.length s <=? n then Some s
  else if Str.only_blanks (Str.skip n s) then Some (substring 0 n s)
  else None.

Definition INT4_MAX : Z := 2147483647.
Definition INT4_MIN : Z := -2147483648.

Definition int4 (z : Z) : bool := (INT4_MIN <=? z)%Z && (z <=? INT4_MAX)%Z.

(** [CHECK (role IN ('user', 'ai', 'system'))] *)
Definition role_check (r : string) : bool :=
  ((r =? "user") || (r =? "ai") || (r =? "system"))%string.

Definition too_long (width : string) : string :=
  ("value too long for type character varying(" ++ width ++ ")")%string.

(** *** Queries over the tables *)

Definition messages_of (db : DB) (cid : uuid) : list Message :=
  filter (fun m => m_conversation_id m =? cid) (messages db).

Definition orders_of (db : DB) (cid : uuid) : list Z :=
  map m_message_order (messages_of db cid).

(** [MAX(..)] over a column: NULL on no rows. *)
Fixpoint sql_max (zs : list Z) : option Z :=
  match zs with
  | [] => None
  | z :: rest =>
      match sql_max rest with
      | None => Some z
      | Some m => Some (Z.max z m)
      end
  end.

(** [COALESCE(MAX(message_order), 0)] *)
Definition max_order (db : DB) (cid : uuid) : Z :=
  match sql_max (orders_of db cid) with
  | Some m => m
  | None => 0%Z
  end.

(** [ORDER BY key], as a stable insertion sort; [le a b] says that [a] may
    come before [b]. *)
Section OrderBy.
Variable A : Type.
Variable le : A -> A -> bool.

Fixpoint insert_row (x : A) (rows : list A) : list A :=
  match rows with
  | [] => [x]
  | y :: rest => if le x y then x :: rows else y :: insert_row x rest
  end.

Fixpoint order_by (rows : list A) : list A :=
  match rows with
  | [] => []
  | x :: rest => insert_row x (order_by rest)
  end.
End OrderBy.

Definition conversation_exists (db : DB) (cid : uuid) : bool :=
  existsb (fun c => c_id c =? cid) (conversations db).

Definition user_exists (db : DB) (uid : uuid) : bool :=
  existsb (fun u => u_id u =? uid) (users db).

Definition email_taken (db : DB) (email : string) : bool :=
  existsb (fun u => (u_email u =? email)%string) (users db).

(** A row of the conversation list: the conversation and [COUNT(m.id)]. *)
Record ConvRow := {
  cr_conversation : Conversation;
  cr_message_count : nat
}.

(** *** The statements the handlers send to the pool

    One constructor per SQL text of [server.js]; the index is the type of
    the rows (or of the scalar) the handler reads from the result. *)
Inductive Stmt : Type -> Type :=
| SelectNow : Stmt timestamp
| SelectUserIdByEmail (email : string) : Stmt (list uuid)
| InsertUser (name email hash : string) : Stmt User
| SelectActiveUserByEmail (email : string) : Stmt (list User)
| UpdateLastLogin (id : uuid) : Stmt unit
| SelectConversationList (uid : uuid) : Stmt (list ConvRow)
| InsertConversation (uid : uuid) (title : string) : Stmt Conversation
| SelectConversationOwned (id uid : uuid) : Stmt (list uuid)
| SelectConversation (id : uuid) : Stmt (list Conversation)
| SelectMessages (cid : uuid) : Stmt (list Message)
| UpdateConversationTitle (title : string) (id : uuid) : Stmt (list Conversation)
| DeleteConversation (id : uuid) : Stmt unit
| SelectNextOrder (cid : uuid) : Stmt Z
| SelectMaxOrder (cid : uuid) : Stmt Z
| InsertMessage (cid : uuid) (role content : option string) (order : Z) : Stmt Message
| TouchConversation (id : uuid) : Stmt unit
| RetitleIfNewChat (preview : string) (id : uuid) : Stmt unit
| SelectSettings (uid : uuid) : Stmt (list Settings)
| UpsertSettings (uid : uuid) (model : string) (builtin : bool) : Stmt Settings.

Definition is_insert_message {R : Type} (s : Stmt R) : bool :=
  match s with
  | InsertMessage _ _ _ _ => true
  | _ => false
  end.

(** The outcome of a statement: the rejection message of the database, or
    the result. *)
Definition Outcome (R : Type) : Type := (string + R)%type.

Definition set_users (db : DB) (us : list User) : DB :=
  {| users := us; conversations := conversations db; messages := messages db;
     user_settings := user_settings db; next_uuid := next_uuid db |}.

Definition set_conversations (db : DB) (cs : list Conversation) : DB :=
  {| users := users db; conversations := cs; messages := messages db;
     user_settings := user_settings db; next_uuid := next_uuid db |}.

Definition set_messages (db : DB) (ms : list Message) : DB :=
  {| users := users db; conversations := conversations db; messages := ms;
     user_settings := user_settings db; next_uuid := next_uuid db |}.

Definition set_user_settings (db : DB) (ss : list Settings) : DB :=
  {| users := users db; conversations := conversations db; messages := messages db;
     user_settings := ss; next_uuid := next_uuid db |}.

Definition bump_uuid (db : DB) : DB :=
  {| users := users db; conversations := conversations db; messages := messages db;
     user_settings := user_settings db; next_uuid := S (next_uuid db) |}.

(** The [BEFORE UPDATE] trigger stamps [updated_at] on every updated row. *)
Definition touch (t : timestamp) (c : Conversation) : Conversation :=
  {| c_id := c_id c; c_user_id := c_user_id c; c_title := c_title c;
     c_created_at := c_created_at c; c_updated_at := t;
     c_is_archived := c_is_archived c |}.

Definition retitle (t : timestamp) (title : string) (c : Conversation) : Conversation :=
  {| c_id := c_id c; c_user_id := c_user_id c; c_title := title;
     c_created_at := c_created_at c; c_updated_at := t;
     c_is_archived := c_is_archived c |}.

Definition logged_in (t : timestamp) (u : User) : User :=
  {| u_id := u_id u; u_email := u_email u; u_password_hash := u_password_hash u;
     u_name := u_name u; u_created_at := u_created_at u; u_updated_at := t;
     u_last_login := Some t; u_is_active := u_is_active u |}.

Definition update_where {A : Type} (p : A -> bool) (f : A -> A) (rows : list A) : list A :=
  map (fun r => if p r then f r else r) rows.

(** [SET title = CASE WHEN title = 'New Chat' THEN preview ELSE title END] on
    the rows with the given id; the new title has to fit the column. *)
Fixpoint retitle_new_chats (t : timestamp) (preview : string) (id : uuid)
    (rows : list Conversation) : option (list Conversation) :=
  match rows with
  | [] => Some []
  | c :: rest =>
      match retitle_new_chats t preview id rest with
      | None => None
      | Some rest' =>
          if c_id c =? id then
            match varchar 255 (if (c_title c =? "New Chat")%string
                               then preview else c_title c) with
            | Some title => Some (retitle t title c :: rest')
            | None => None
            end
          else Some (c :: rest')
      end
  end.

Definition by_updated_at_desc (a b : ConvRow) : bool :=
  c_updated_at (cr_conversation b) <=? c_updated_at (cr_conversation a).

Definition by_message_order (a b : Message) : bool :=
  (m_message_order a <=? m_message_order b)%Z.

Definition conversation_list (db : DB) (uid : uuid) : list ConvRow :=
  order_by by_updated_at_desc
    (map (fun c => {| cr_conversation := c;
                      cr_message_count := List.length (messages_of db (c_id c)) |})
         (filter (fun c => (c_user_id c =? uid) && negb (c_is_archived c))
                 (conversations db))).

Definition insert_user (e : Env) (name email hash : string) (db : DB)
    : DB * Outcome User :=
  match varchar 255 email, varchar 255 hash, varchar 255 name with
  | Some email', Some hash', Some name' =>
      if email_taken db email' then
        (db, inl "duplicate key value violates unique constraint users_email_key")
      else
        let u := {| u_id := next_uuid db; u_email := email';
                    u_password_hash := hash'; u_name := name';
                    u_created_at := now e; u_updated_at := now e;
                    u_last_login := None; u_is_active := true |} in
        (bump_uuid (set_users db (users db ++ [u])), inr u)
  | _, _, _ => (db, inl (too_long "255"))
  end.

Definition insert_conversation (e : Env) (uid : uuid) (title : string) (db : DB)
    : DB * Outcome Conversation :=
  match varchar 255 title with
  | None => (db, inl (too_long "255"))
  | Some title' =>
      if user_exists db uid then
        let c := {| c_id := next_uuid db; c_user_id := uid; c_title := title';
                    c_created_at := now e; c_updated_at := now e;
                    c_is_archived := false |} in
        (bump_uuid (set_conversations db (conversations db ++ [c])), inr c)
      else
        (db, inl "insert or update on table conversations violates foreign key constraint conversations_user_id_fkey")
  end.

Definition insert_message (e : Env) (cid : uuid) (role content : option string)
    (order : Z) (db : DB) : DB * Outcome Message :=
  if negb (int4 order) then (db, inl "integer out of range")
  else
    match role, content with
    | None, _ => (db, inl "null value in column role violates not-null constraint")
    | Some _, None =>
        (db, inl "null value in column content violates not-null constraint")
    | Some r, Some c =>
        match varchar 20 r with
        | None => (db, inl (too_long "20"))
        | Some r' =>
            if negb (role_check r') then
              (db, inl "new row for relation messages violates check constraint messages_role_check")
            else if negb (conversation_exists db cid) then
              (db, inl "insert or update on table messages violates foreign key constraint messages_conversation_id_fkey")
            else
              let m := {| m_id := next_uuid db; m_conversation_id := cid;
                          m_role := r'; m_content := c; m_created_at := now e;
                          m_message_order := order |} in
              (bump_uuid (set_messages db (messages db ++ [m])), inr m)
        end
    end.

(** [DELETE FROM conversations WHERE id = $1]; the foreign key of [messages]
    is [ON DELETE CASCADE]. *)
Definition delete_conversation (id : uuid) (db : DB) : DB :=
  set_messages
    (set_conversations db (filter (fun c => negb (c_id c =? id)) (conversations db)))
    (filter (fun m => negb (m_conversation_id m =? id)) (messages db)).

Definition upsert_settings (e : Env) (uid : uuid) (model : string) (builtin : bool)
    (db : DB) : DB * Outcome Settings :=
  match varchar 100 model with
  | None => (db, inl (too_long "100"))
  | Some model' =>
      if negb (user_exists db uid) then
        (db, inl "insert or update on table user_settings violates foreign key constraint user_settings_user_id_fkey")
      else
        match find (fun s => s_user_id s =? uid) (user_settings db) with
        | Some old =>
            let s := {| s_id := s_id old; s_user_id := uid;
                        s_preferred_model := model'; s_use_builtin_key := builtin;
                        s_created_at := s_created_at old; s_updated_at := now e |} in
            (set_user_settings db
               (update_where (fun x => s_user_id x =? uid) (fun _ => s) (user_settings db)),
             inr s)
        | None =>
            let s := {| s_id := next_uuid db; s_user_id := uid;
                        s_preferred_model := model'; s_use_builtin_key := builtin;
                        s_created_at := now e; s_updated_at := now e |} in
            (bump_uuid (set_user_settings db (user_settings db ++ [s])), inr s)
        end
  end.

(** The effect of one statement. *)
Definition exec (e : Env) {R : Type} (s : Stmt R) (db : DB) : DB * Outcome R :=
  match s in Stmt R return DB * Outcome R with
  | SelectNow => (db, inr (now e))
  | SelectUserIdByEmail email =>
      (db, inr (map u_id (filter (fun u => (u_email u =? email)%string) (users db))))
  | InsertUser name email hash => insert_user e name email hash db
  | SelectActiveUserByEmail email =>
      (db, inr (filter (fun u => (u_email u =? email)%string && u_is_active u) (users db)))
  | UpdateLastLogin id =>
      (set_users db (update_where (fun u => u_id u =? id) (logged_in (now e)) (users db)),
       inr tt)
  | SelectConversationList uid => (db, inr (conversation_list db uid))
  | InsertConversation uid title => insert_conversation e uid title db
  | SelectConversationOwned id uid =>
      (db, inr (map c_id (filter (fun c => (c_id c =? id) && (c_user_id c =? uid))
                                 (conversations db))))
  | SelectConversation id =>
      (db, inr (filter (fun c => c_id c =? id) (conversations db)))
  | SelectMessages cid =>
      (db, inr (order_by by_message_order (messages_of db cid)))
  | UpdateConversationTitle title id =>
      if conversation_exists db id then
        match varchar 255 title with
        | None => (db, inl (too_long "255"))
        | Some title' =>
            let cs := update_where (fun c => c_id c =? id) (retitle (now e) title')
                                   (conversations db) in
            (set_conversations db cs, inr (filter (fun c => c_id c =? id) cs))
        end
      else (db, inr [])
  | DeleteConversation id => (delete_conversation id db, inr tt)
  | SelectNextOrder cid =>
      if int4 (max_order db cid + 1) then (db, inr (max_order db cid + 1)%Z)
      else (db, inl "integer out of range")
  | SelectMaxOrder cid => (db, inr (max_order db cid))
  | InsertMessage cid role content order => insert_message e cid role content order db
  | TouchConversation id =>
      (set_conversations db
         (update_where (fun c => c_id c =? id) (touch (now e)) (conversations db)),
       inr tt)
  | RetitleIfNewChat preview id =>
      match retitle_new_chats (now e) preview id (conversations db) with
      | Some cs => (set_conversations db cs, inr tt)
      | None => (db, inl (too_long "255"))
      end
  | SelectSettings uid =>
      (db, inr (filter (fun s => s_user_id s =? uid) (user_settings db)))
  | UpsertSettings uid model builtin => upsert_settings e uid model builtin db
  end.

(** ** Handler programs

    A handler is a tree of statements: [Query s k] sends [s] to the pool and
    continues with [k] on its outcome, which is where [await] gives control
    back to the event loop. *)
Inductive Prog (A : Type) : Type :=
| Ret (a : A)
| Query {R : Type} (s : Stmt R) (k : Outcome R -> Prog A).

Arguments Ret {A} a.
Arguments Query {A R} s k.

(** Code inside [try { .. }]: the left summand is a thrown error's message. *)
Definition Try (A : Type) : Type := Prog (string + A).

Definition ok {A : Type} (a : A) : Try A := Ret (inr a).
Definition throw {A : Type} (msg : string) : Try A := Ret (inl msg).

(** [await pool.query(..)]: a rejected statement throws. *)
Definition query {R : Type} (s : Stmt R) : Try R := Query s (fun r => Ret r).

Fixpoint bind {A B : Type} (p : Try A) (k : A -> Try B) : Try B :=
  match p with
  | Ret (inl msg) => Ret (inl msg)
  | Ret (inr a) => k a
  | Query s c => Query s (fun r => bind (c r) k)
  end.

Notation "x <- p ;; k" := (bind p (fun x => k))
  (at level 61, p at next level, right associativity).
Notation "p ;;; k" := (bind p (fun _ => k))
  (at level 61, right associativity).

(** Running a program to completion against the store, every statement
    seeing the same clock. *)
Fixpoint run (e : Env) {A : Type} (p : Prog A) (db : DB) : DB * A :=
  match p with
  | Ret a => (db, a)
  | Query s k => let (db', r) := exec e s db in run e (k r) db'
  end.

(** The number of statements a program sends on its way to a result. *)
Fixpoint statements (e : Env) {A : Type} (p : Prog A) (db : DB) : nat :=
  match p with
  | Ret _ => 0
  | Query s k => let (db', r) := exec e s db in S (statements e (k r) db')
  end.

(** ** Requests and responses *)

(** The payload of a token: [{ id, email, iat, exp }]. *)
Record Claims := {
  tk_id : uuid;
  tk_email : string;
  tk_iat : timestamp;
  tk_exp : timestamp
}.

(** The two libraries the server relies on: [bcrypt] and [jsonwebtoken]
    (with the server's secret and the seven-day expiry fixed). *)
Class Libs := {
  bcrypt_hash : string -> string -> string;
  bcrypt_compare : string -> string -> bool;
  bcrypt_hash_length : forall s p, String.length (bcrypt_hash s p) = 60;
  jwt_sign : uuid -> string -> timestamp -> string;
  jwt_verify : string -> timestamp -> option Claims
}.

Record BulkMsg := {
  bm_role : option string;
  bm_content : option string;
  bm_message_order : option Z
}.

(** [req.body]: the fields some handler reads, and [message_order], which a
    client may send along. *)
Record Body := {
  b_name : option string;
  b_email : option string;
  b_password : option string;
  b_title : option string;
  b_role : option string;
  b_content : option string;
  b_message_order : option Z;
  b_messages : option (list BulkMsg);
  b_preferredModel : option string;
  b_useBuiltinKey : option bool
}.

Definition no_body : Body :=
  {| b_name := None; b_email := None; b_password := None; b_title := None;
     b_role := None; b_content := None; b_message_order := None;
     b_messages := None; b_preferredModel := None; b_useBuiltinKey := None |}.

Inductive Route :=
| GetHealth
| PostSignup
| PostLogin
| GetVerify
| GetConversations
| PostConversation
| GetConversation (id : uuid)
| PutConversation (id : uuid)
| DeleteConversationR (id : uuid)
| PostMessage (id : uuid)
| GetMessages (id : uuid)
| PostMessagesBulk (id : uuid)
| GetSettings
| PutSettings
| Unrouted.

Record Request := {
  route : Route;
  authorization : option string;
  body : Body
}.

Record MsgView := {
  mv_id : option uuid;
  mv_role : string;
  mv_content : string;
  mv_created_at : timestamp;
  mv_message_order : option Z
}.

Record ConvSummary := {
  cs_id : uuid;
  cs_title : string;
  cs_created_at : timestamp;
  cs_updated_at : timestamp;
  cs_message_count : nat
}.

(** The JSON documents the server answers with. *)
Inductive Json :=
| JError (error : string)
| JFailure (error message : string)
| JHealthy (t : timestamp)
| JUnhealthy (message : string)
| JSignedUp (id : uuid) (name email : string) (createdAt : timestamp) (token : string)
| JLoggedIn (id : uuid) (name email : string) (token : string)
| JVerified (user : Claims)
| JConversations (rows : list ConvSummary)
| JCreated (id : uuid) (title : string) (createdAt updatedAt : timestamp)
| JConversation (id : uuid) (title : string) (createdAt updatedAt : timestamp)
                (msgs : list MsgView)
| JUpdated (id : uuid) (title : string) (updatedAt : timestamp)
| JSuccess
| JMessage (m : MsgView)
| JMessages (msgs : list MsgView)
| JBulk (msgs : list MsgView)
| JSettings (preferredModel : string) (useBuiltinKey : bool).

Record Response := {
  status : nat;
  json : Json
}.

Definition respond (code : nat) (j : Json) : Response :=
  {| status := code; json := j |}.

Definition error (code : nat) (msg : string) : Response :=
  respond code (JError msg).

(** [try { .. } catch (error) { res.status(500).json({ error: prefix +
    error.message }) }] *)
Fixpoint catching (prefix : string) (p : Try Response) : Prog Response :=
  match p with
  | Ret (inl msg) => Ret (error 500 (prefix ++ msg)%string)
  | Ret (inr r) => Ret r
  | Query s k => Query s (fun r => catching prefix (k r))
  end.

(** [rows[0]] followed by a field access, which throws on no row. *)
Definition first_row {A : Type} (rows : list A) : Try A :=
  match rows with
  | r :: _ => ok r
  | [] => throw "Cannot read properties of undefined"
  end.

(** ** The routes ([server.js]) *)

Section Handlers.
Context {libs : Libs}.

(** [authHeader && authHeader.split(' ')[1]] *)
Definition token_of (authHeader : option string) : option string :=
  match authHeader with
  | None => None
  | Some h => if (h =? "")%string then Some h
              else nth_error (Str.split " "%char h) 1
  end.

Definition authenticateToken (e : Env) (req : Request)
    (next : Claims -> Prog Response) : Prog Response :=
  let token := token_of (authorization req) in
  if negb (truthy token) then Ret (error 401 "Access token required")
  else
    match jwt_verify (text token) (now e) with
    | None => Ret (error 403 "Invalid or expired token")
    | Some user => next user
    end.

Definition health : Prog Response :=
  Query SelectNow (fun r =>
    match r with
    | inr t => Ret (respond 200 (JHealthy t))
    | inl msg => Ret (respond 500 (JUnhealthy msg))
    end).

Definition signup (e : Env) (b : Body) : Prog Response :=
  let name := b_name b in
  let email := b_email b in
  let password := b_password b in
  if negb (truthy name) || negb (truthy email) || negb (truthy password) then
    Ret (error 400 "Name, email, and password are required")
  else if String.length (text password) <? 6 then
    Ret (error 400 "Password must be at least 6 characters")
  else
    catching "Failed to create user: " (
      existingUser <- query (SelectUserIdByEmail (text email)) ;;
      if 0 <? List.length existingUser then
        ok (error 400 "User with this email already exists")
      else
        let hashedPassword := bcrypt_hash (salt e) (text password) in
        user <- query (InsertUser (text name) (text email) hashedPassword) ;;
        let token := jwt_sign (u_id user) (u_email user) (now e) in
        ok (respond 201 (JSignedUp (u_id user) (u_name user) (u_email user)
                                   (u_created_at user) token))).

Definition login (e : Env) (b : Body) : Prog Response :=
  let email := b_email b in
  let password := b_password b in
  if negb (truthy email) || negb (truthy password) then
    Ret (error 400 "Email and password are required")
  else
    catching "Login failed: " (
      result <- query (SelectActiveUserByEmail (text email)) ;;
      match result with
      | [] => ok (error 401 "Invalid email or password")
      | user :: _ =>
          let validPassword := bcrypt_compare (text password) (u_password_hash user) in
          if negb validPassword then ok (error 401 "Invalid email or password")
          else
            query (UpdateLastLogin (u_id user)) ;;;
            let token := jwt_sign (u_id user) (u_email user) (now e) in
            ok (respond 200 (JLoggedIn (u_id user) (u_name user) (u_email user) token))
      end).

Definition verify (user : Claims) : Prog Response :=
  Ret (respond 200 (JVerified user)).

Definition summary (row : ConvRow) : ConvSummary :=
  let c := cr_conversation row in
  {| cs_id := c_id c; cs_title := c_title c; cs_created_at := c_created_at c;
     cs_updated_at := c_updated_at c; cs_message_count := cr_message_count row |}.

Definition listConversations (user : Claims) : Prog Response :=
  let userId := tk_id user in
  catching "Failed to fetch conversations: " (
    result <- query (SelectConversationList userId) ;;
    ok (respond 200 (JConversations (map summary result)))).

Definition createConversation (b : Body) (user : Claims) : Prog Response :=
  let userId := tk_id user in
  let title := b_title b in
  catching "Failed to create conversation: " (
    conversation <- query (InsertConversation userId
                             (if truthy title then text title else "New Chat")) ;;
    ok (respond 201 (JCreated (c_id conversation) (c_title conversation)
                              (c_created_at conversation) (c_updated_at conversation)))).

(** The ownership test every conversation route starts with. *)
Definition owned (id userId : uuid) (k : Try Response) : Try Response :=
  convCheck <- query (SelectConversationOwned id userId) ;;
  if List.length convCheck =? 0 then ok (error 404 "Conversation not found")
  else k.

Definition getConversation (id : uuid) (user : Claims) : Prog Response :=
  let userId := tk_id user in
  catching "Failed to fetch conversation: " (
    owned id userId (
      convResult <- query (SelectConversation id) ;;
      messagesResult <- query (SelectMessages id) ;;
      conversation <- first_row convResult ;;
      ok (respond 200
            (JConversation (c_id conversation) (c_title conversation)
               (c_created_at conversation) (c_updated_at conversation)
               (map (fun msg => {| mv_id := None; mv_role := m_role msg;
                                   mv_content := m_content msg;
                                   mv_created_at := m_created_at msg;
                                   mv_message_order := None |})
                    messagesResult))))).

Definition updateConversation (id : uuid) (b : Body) (user : Claims) : Prog Response :=
  let userId := tk_id user in
  let title := b_title b in
  if negb (truthy title) then Ret (error 400 "Title is required")
  else
    catching "Failed to update conversation: " (
      owned id userId (
        result <- query (UpdateConversationTitle (text title) id) ;;
        conversation <- first_row result ;;
        ok (respond 200 (JUpdated (c_id conversation) (c_title conversation)
                                  (c_updated_at conversation))))).

Definition deleteConversation (id : uuid) (user : Claims) : Prog Response :=
  let userId := tk_id user in
  catching "Failed to delete conversation: " (
    owned id userId (
      query (DeleteConversation id) ;;;
      ok (respond 200 JSuccess))).

(** [content.substring(0, 50) + (content.length > 50 ? '...' : '')] *)
Definition titlePreview (content : string) : string :=
  String.append (substring 0 50 content)
                (if 50 <? String.length content then "..." else "").

Definition is_user (role : option string) : bool :=
  match role with
  | Some r => (r =? "user")%string
  | None => false
  end.

Definition addMessage (id : uuid) (b : Body) (user : Claims) : Prog Response :=
  let userId := tk_id user in
  let role := b_role b in
  let content := b_content b in
  if negb (truthy role) || negb (truthy content) then
    Ret (error 400 "Role and content are required")
  else if negb (existsb (String.eqb (text role)) ["user"; "ai"; "system"]) then
    Ret (error 400 "Role must be user, ai, or system")
  else
    catching "Failed to add message: " (
      owned id userId (
        messageOrder <- query (SelectNextOrder id) ;;
        message <- query (InsertMessage id role content messageOrder) ;;
        query (TouchConversation id) ;;;
        (if is_user role && (messageOrder =? 1)%Z
         then query (RetitleIfNewChat (titlePreview (text content)) id)
         else ok tt) ;;;
        ok (respond 201
              (JMessage {| mv_id := Some (m_id message); mv_role := m_role message;
                           mv_content := m_content message;
                           mv_created_at := m_created_at message;
                           mv_message_order := Some (m_message_order message) |})))).

Definition getMessages (id : uuid) (user : Claims) : Prog Response :=
  let userId := tk_id user in
  catching "Failed to fetch messages: " (
    owned id userId (
      result <- query (SelectMessages id) ;;
      ok (respond 200
            (JMessages (map (fun msg => {| mv_id := Some (m_id msg);
                                           mv_role := m_role msg;
                                           mv_content := m_content msg;
                                           mv_created_at := m_created_at msg;
                                           mv_message_order := None |})
                            result))))).

(** The body of [for (const msg of messages)], [messageOrder] being the
    counter before the increment. *)
Fixpoint insertAll (id : uuid) (msgs : list BulkMsg) (messageOrder : Z)
    (insertedMessages : list MsgView) : Try (list MsgView) :=
  match msgs with
  | [] => ok insertedMessages
  | msg :: rest =>
      let messageOrder := (messageOrder + 1)%Z in
      row <- query (InsertMessage id (bm_role msg) (bm_content msg) messageOrder) ;;
      let insertedMessages :=
        insertedMessages ++ [{| mv_id := Some (m_id row); mv_role := m_role row;
                                mv_content := m_content row;
                                mv_created_at := m_created_at row;
                                mv_message_order := None |}] in
      (if is_user (bm_role msg) && (messageOrder =? 1)%Z
       then query (RetitleIfNewChat (titlePreview (text (bm_content msg))) id)
       else ok tt) ;;;
      insertAll id rest messageOrder insertedMessages
  end.

Definition addMessagesBulk (id : uuid) (b : Body) (user : Claims) : Prog Response :=
  let userId := tk_id user in
  match b_messages b with
  | None | Some [] => Ret (error 400 "Messages array is required")
  | Some msgs =>
      catching "Failed to add messages: " (
        owned id userId (
          messageOrder <- query (SelectMaxOrder id) ;;
          insertedMessages <- insertAll id msgs messageOrder [] ;;
          query (TouchConversation id) ;;;
          ok (respond 201 (JBulk insertedMessages))))
  end.

Definition getSettings (user : Claims) : Prog Response :=
  let userId := tk_id user in
  catching "Failed to fetch settings: " (
    result <- query (SelectSettings userId) ;;
    match result with
    | [] => ok (respond 200 (JSettings "gemini-pro" true))
    | settings :: _ =>
        ok (respond 200 (JSettings (s_preferred_model settings)
                                   (s_use_builtin_key settings)))
    end).

Definition putSettings (b : Body) (user : Claims) : Prog Response :=
  let userId := tk_id user in
  let preferredModel := b_preferredModel b in
  let useBuiltinKey := b_useBuiltinKey b in
  catching "Failed to update settings: " (
    settings <- query (UpsertSettings userId
                         (if truthy preferredModel then text preferredModel
                          else "gemini-pro")
                         (match useBuiltinKey with Some v => v | None => true end)) ;;
    ok (respond 200 (JSettings (s_preferred_model settings)
                               (s_use_builtin_key settings)))).

(** The routes that are registered behind [authenticateToken], each with
    its handler. *)
Definition protected_handler (req : Request) : option (Claims -> Prog Response) :=
  match route req with
  | GetVerify => Some verify
  | GetConversations => Some listConversations
  | PostConversation => Some (createConversation (body req))
  | GetConversation id => Some (getConversation id)
  | PutConversation id => Some (updateConversation id (body req))
  | DeleteConversationR id => Some (deleteConversation id)
  | PostMessage id => Some (addMessage id (body req))
  | GetMessages id => Some (getMessages id)
  | PostMessagesBulk id => Some (addMessagesBulk id (body req))
  | GetSettings => Some getSettings
  | PutSettings => Some (putSettings (body req))
  | GetHealth | PostSignup | PostLogin | Unrouted => None
  end.

(** What Express does with a request. *)
Definition serve (e : Env) (req : Request) : Prog Response :=
  match protected_handler req with
  | Some handler => authenticateToken e req handler
  | None =>
      match route req with
      | GetHealth => health
      | PostSignup => signup e (body req)
      | PostLogin => login e (body req)
      | _ => Ret (error 404 "Endpoint not found")
      end
  end.

(** One request handled from start to end. *)
Definition handle (e : Env) (req : Request) (db : DB) : DB * Response :=
  run e (serve e req) db.

(** Requests handled one after the other. *)
Fixpoint handle_all (reqs : list (Env * Request)) (db : DB) : DB :=
  match reqs with
  | [] => db
  | (e, req) :: rest => handle_all rest (fst (handle e req db))
  end.

(** *** Requests in flight together

    The pool of handlers that have been started and not yet answered; the
    event loop resumes one of them for a single statement at a time. *)
Inductive Action :=
| Arrive (e : Env) (req : Request)
| Resume (e : Env) (i : nat).

Record Node := {
  store : DB;
  in_flight : list (Prog Response);
  answered : list Response
}.

Definition boot : Node :=
  {| store := empty_db; in_flight := []; answered := [] |}.

Fixpoint replace_nth {A : Type} (i : nat) (x : A) (xs : list A) : list A :=
  match i, xs with
  | _, [] => []
  | O, _ :: rest => x :: rest
  | S j, y :: rest => y :: replace_nth j x rest
  end.

Fixpoint remove_nth {A : Type} (i : nat) (xs : list A) : list A :=
  match i, xs with
  | _, [] => []
  | O, _ :: rest => rest
  | S j, y :: rest => y :: remove_nth j rest
  end.

Definition act (a : Action) (n : Node) : Node :=
  match a with
  | Arrive e req =>
      {| store := store n; in_flight := in_flight n ++ [serve e req];
         answered := answered n |}
  | Resume e i =>
      match nth_error (in_flight n) i with
      | None => n
      | Some (Ret r) =>
          {| store := store n; in_flight := remove_nth i (in_flight n);
             answered := answered n ++ [r] |}
      | Some (Query s k) =>
          let (db', r) := exec e s (store n) in
          {| store := db'; in_flight := replace_nth i (k r) (in_flight n);
             answered := answered n |}
      end
  end.

Definition schedule (acts : list Action) (n : Node) : Node :=
  fold_left (fun n a => act a n) acts n.

End Handlers.

End Server.

(** * The client ([script.js]) *)

Module Client.

(** ** Values *)

(** A JavaScript error object. *)
Record Err := { name : string; message : string }.

Definition Error (msg : string) : Err := {| name := "Error"; message := msg |}.
Definition TypeError (msg : string) : Err := {| name := "TypeError"; message := msg |}.
Definition SyntaxError (msg : string) : Err := {| name := "SyntaxError"; message := msg |}.
Definition AbortError : Err :=
  {| name := "AbortError"; message := "The user aborted a request." |}.

Inductive Speaker := user | assistant.

Record Turn := { role : Speaker; content : string }.

(** What [appendUser] and [appendAI] add to the messages area. *)
Inductive Bubble :=
| UserBubble (text : string)
| AIBubble (text : string).

Record ApiKey := { key : string; active : bool }.

(** What the script reads while it answers: the keys [getUserApiKeys()]
    returns (the embedded keys merged with the stored ones, the first
    active by default), two entries of [localStorage], the constant
    [DEFAULT_BUILTIN_API_KEY] and the system prompt. The one write, of
    ['true'] to [use_builtin_key] when it is unset, is left out: the script
    only ever compares the entry with ['false']. *)
Record Storage := {
  userApiKeys : list ApiKey;
  gemini_api_key : option string;
  use_builtin_key : option string;
  DEFAULT_BUILTIN_API_KEY : string;
  systemPrompt : string
}.

Record ModelConfig := { model : string; apiVersion : string }.

(** A [fetch] of [..:generateContent] with its abort signal. *)
Record Call := {
  call_config : ModelConfig;
  call_key : string;
  call_prompt : string;
  call_signal : nat
}.

(** The body of an answer that is [response.ok]: JSON with
    [candidates[0].content.parts[0]] and its [text] (if any), JSON of another
    structure, or something [response.json()] rejects. *)
Inductive OkBody :=
| Candidates (text : option string)
| Malformed
| Unparsable.

(** The body of an answer that is not: JSON with its [error.message] (if
    any) and its [JSON.stringify], or something [response.json()] rejects. *)
Inductive ErrorBody :=
| JsonBody (errorMessage : option string) (stringified : string)
| NotJson (raw : string).

Inductive FetchAnswer :=
| Responded (b : OkBody)
| Failed (status : nat) (b : ErrorBody)
| Rejected (e : Err).

Record ModelInfo := {
  mi_name : option string;
  mi_supportedGenerationMethods : option (list string)
}.

(** The answer to the ListModels request of [checkAvailableModels]:
    [data.models] of an ok response when it is an array, or anything else. *)
Inductive ListAnswer :=
| Listed (models : list ModelInfo)
| NotListed.

(** ** The page: the script's variables and what it touches of the browser *)

(** The first five fields are the script's global variables, a timer and a
    controller being named by a number. Of the browser: [timers] are the
    armed timers with their delays, [controllers] the [aborted] flag of
    every AbortController made so far, [window] the [models_checked_..]
    properties that are set, [input_value] the text of the input box,
    [send_enabled] the last argument of [setInputEnabled] (the button reads
    Stop and the tip buttons are disabled when it is [false]), [bubbles]
    the messages area. [calls] lists the calls of [generateAIResponse]
    made so far, each with its two arguments. *)
Record Page := {
  conversationHistory : list Turn;
  pendingMessages : list string;
  batchTimeout : option nat;
  isGeneratingResponse : bool;
  abortController : option nat;
  timers : list (nat * nat);
  next_timer : nat;
  controllers : list bool;
  window : list string;
  input_value : string;
  send_enabled : bool;
  bubbles : list Bubble;
  calls : list (string * list string);
  storage : Storage
}.

Definition set_conversationHistory (v : list Turn) (p : Page) : Page :=
  {| conversationHistory := v; pendingMessages := pendingMessages p;
     batchTimeout := batchTimeout p; isGeneratingResponse := isGeneratingResponse p;
     abortController := abortController p; timers := timers p;
     next_timer := next_timer p; controllers := controllers p; window := window p;
     input_value := input_value p; send_enabled := send_enabled p;
     bubbles := bubbles p; calls := calls p; storage := storage p |}.

Definition set_pendingMessages (v : list string) (p : Page) : Page :=
  {| conversationHistory := conversationHistory p; pendingMessages := v;
     batchTimeout := batchTimeout p; isGeneratingResponse := isGeneratingResponse p;
     abortController := abortController p; timers := timers p;
     next_timer := next_timer p; controllers := controllers p; window := window p;
     input_value := input_value p; send_enabled := send_enabled p;
     bubbles := bubbles p; calls := calls p; storage := storage p |}.

Definition set_batchTimeout (v : option nat) (p : Page) : Page :=
  {| conversationHistory := conversationHistory p;
     pendingMessages := pendingMessages p; batchTimeout := v;
     isGeneratingResponse := isGeneratingResponse p;
     abortController := abortController p; timers := timers p;
     next_timer := next_timer p; controllers := controllers p; window := window p;
     input_value := input_value p; send_enabled := send_enabled p;
     bubbles := bubbles p; calls := calls p; storage := storage p |}.

Definition set_isGeneratingResponse (v : bool) (p : Page) : Page :=
  {| conversationHistory := conversationHistory p;
     pendingMessages := pendingMessages p; batchTimeout := batchTimeout p;
     isGeneratingResponse := v; abortController := abortController p;
     timers := timers p; next_timer := next_timer p; controllers := controllers p;
     window := window p; input_value := input_value p;
     send_enabled := send_enabled p; bubbles := bubbles p; calls := calls p;
     storage := storage p |}.

Definition set_abortController (v : option nat) (p : Page) : Page :=
  {| conversationHistory := conversationHistory p;
     pendingMessages := pendingMessages p; batchTimeout := batchTimeout p;
     isGeneratingResponse := isGeneratingResponse p; abortController := v;
     timers := timers p; next_timer := next_timer p; controllers := controllers p;
     window := window p; input_value := input_value p;
     send_enabled := send_enabled p; bubbles := bubbles p; calls := calls p;
     storage := storage p |}.

Definition set_timers (v : list (nat * nat)) (p : Page) : Page :=
  {| conversationHistory := conversationHistory p;
     pendingMessages := pendingMessages p; batchTimeout := batchTimeout p;
     isGeneratingResponse := isGeneratingResponse p;
     abortController := abortController p; timers := v; next_timer := next_timer p;
     controllers := controllers p; window := window p; input_value := input_value p;
     send_enabled := send_enabled p; bubbles := bubbles p; calls := calls p;
     storage := storage p |}.

Definition set_next_timer (v : nat) (p : Page) : Page :=
  {| conversationHistory := conversationHistory p;
     pendingMessages := pendingMessages p; batchTimeout := batchTimeout p;
     isGeneratingResponse := isGeneratingResponse p;
     abortController := abortController p; timers := timers p; next_timer := v;
     controllers := controllers p; window := window p; input_value := input_value p;
     send_enabled := send_enabled p; bubbles := bubbles p; calls := calls p;
     storage := storage p |}.

Definition set_controllers (v : list bool) (p : Page) : Page :=
  {| conversationHistory := conversationHistory p;
     pendingMessages := pendingMessages p; batchTimeout := batchTimeout p;
     isGeneratingResponse := isGeneratingResponse p;
     abortController := abortController p; timers := timers p;
     next_timer := next_timer p; controllers := v; window := window p;
     input_value := input_value p; send_enabled := send_enabled p;
     bubbles := bubbles p; calls := calls p; storage := storage p |}.

Definition set_window (v : list string) (p : Page) : Page :=
  {| conversationHistory := conversationHistory p;
     pendingMessages := pendingMessages p; batchTimeout := batchTimeout p;
     isGeneratingResponse := isGeneratingResponse p;
     abortController := abortController p; timers := timers p;
     next_timer := next_timer p; controllers := controllers p; window := v;
     input_value := input_value p; send_enabled := send_enabled p;
     bubbles := bubbles p; calls := calls p; storage := storage p |}.

Definition set_input_value (v : string) (p : Page) : Page :=
  {| conversationHistory := conversationHistory p;
     pendingMessages := pendingMessages p; batchTimeout := batchTimeout p;
     isGeneratingResponse := isGeneratingResponse p;
     abortController := abortController p; timers := timers p;
     next_timer := next_timer p; controllers := controllers p; window := window p;
     input_value := v; send_enabled := send_enabled p; bubbles := bubbles p;
     calls := calls p; storage := storage p |}.

Definition set_send_enabled (v : bool) (p : Page) : Page :=
  {| conversationHistory := conversationHistory p;
     pendingMessages := pendingMessages p; batchTimeout := batchTimeout p;
     isGeneratingResponse := isGeneratingResponse p;
     abortController := abortController p; timers := timers p;
     next_timer := next_timer p; controllers := controllers p; window := window p;
     input_value := input_value p; send_enabled := v; bubbles := bubbles p;
     calls := calls p; storage := storage p |}.

Definition set_bubbles (v : list Bubble) (p : Page) : Page :=
  {| conversationHistory := conversationHistory p;
     pendingMessages := pendingMessages p; batchTimeout := batchTimeout p;
     isGeneratingResponse := isGeneratingResponse p;
     abortController := abortController p; timers := timers p;
     next_timer := next_timer p; controllers := controllers p; window := window p;
     input_value := input_value p; send_enabled := send_enabled p; bubbles := v;
     calls := calls p; storage := storage p |}.

Definition set_calls (v : list (string * list string)) (p : Page) : Page :=
  {| conversationHistory := conversationHistory p;
     pendingMessages := pendingMessages p; batchTimeout := batchTimeout p;
     isGeneratingResponse := isGeneratingResponse p;
     abortController := abortController p; timers := timers p;
     next_timer := next_timer p; controllers := controllers p; window := window p;
     input_value := input_value p; send_enabled := send_enabled p;
     bubbles := bubbles p; calls := v; storage := storage p |}.
Definition aborted (signal : nat) (p : Page) : bool :=
  nth signal (controllers p) false.

Definition BATCH_DELAY : nat := 500.

(** The page as it is loaded. *)
Definition load (st : Storage) : Page :=
  {| conversationHistory := []; pendingMessages := []; batchTimeout := None;
     isGeneratingResponse := false; abortController := None; timers := [];
     next_timer := 1; controllers := []; window := []; input_value := "";
     send_enabled := true; bubbles := []; calls := []; storage := st |}.

(** ** Asynchronous functions

    An [async] function runs on the page until it returns, throws, or
    reaches an [await] on the network; there it keeps what remains to be
    done, which is resumed later on the page as it will be then. *)
Inductive Step (A : Type) : Type :=
| Finished (p : Page) (r : Err + A)
| AwaitModels (p : Page) (apiKey : string) (k : ListAnswer -> Page -> Step A)
| AwaitFetch (p : Page) (c : Call) (k : FetchAnswer -> Page -> Step A).

Arguments Finished {A} p r.
Arguments AwaitModels {A} p apiKey k.
Arguments AwaitFetch {A} p c k.

Definition Async (A : Type) : Type := Page -> Step A.

Definition ret {A : Type} (a : A) : Async A := fun p => Finished p (inr a).
Definition throw {A : Type} (e : Err) : Async A := fun p => Finished p (inl e).
Definition get : Async Page := fun p => Finished p (inr p).
Definition modify (f : Page -> Page) : Async unit := fun p => Finished (f p) (inr tt).

Fixpoint then_ {A B : Type} (s : Step A) (f : A -> Async B) : Step B :=
  match s with
  | Finished p (inr a) => f a p
  | Finished p (inl e) => Finished p (inl e)
  | AwaitModels p apiKey k => AwaitModels p apiKey (fun a p' => then_ (k a p') f)
  | AwaitFetch p c k => AwaitFetch p c (fun a p' => then_ (k a p') f)
  end.

Definition bind {A B : Type} (t : Async A) (f : A -> Async B) : Async B :=
  fun p => then_ (t p) f.

Fixpoint rescue {A : Type} (s : Step A) (h : Err -> Async A) : Step A :=
  match s with
  | Finished p (inr a) => Finished p (inr a)
  | Finished p (inl e) => h e p
  | AwaitModels p apiKey k => AwaitModels p apiKey (fun a p' => rescue (k a p') h)
  | AwaitFetch p c k => AwaitFetch p c (fun a p' => rescue (k a p') h)
  end.

(** [try { t } catch (e) { h e }] *)
Definition try_catch {A : Type} (t : Async A) (h : Err -> Async A) : Async A :=
  fun p => rescue (t p) h.

Notation "x <- t ;; k" := (bind t (fun x => k))
  (at level 61, t at next level, right associativity).
Notation "t ;;; k" := (bind t (fun _ => k))
  (at level 61, right associativity).

(** [await fetch(url, { signal })] together with the reading of the body. *)
Definition fetch (c : Call) : Async FetchAnswer :=
  fun p => AwaitFetch p c (fun a p' => Finished p' (inr a)).

Definition listModels (apiKey : string) : Async ListAnswer :=
  fun p => AwaitModels p apiKey (fun a p' => Finished p' (inr a)).

(** ** Keys *)

Definition getUserApiKeys (p : Page) : list ApiKey := userApiKeys (storage p).

Definition getActiveApiKey (p : Page) : option string :=
  let keys := getUserApiKeys p in
  match keys with
  | first :: _ =>
      Some (key (match find active keys with
                 | Some activeKey => activeKey
                 | None => last keys first
                 end))
  | [] =>
      if truthy (gemini_api_key (storage p)) then gemini_api_key (storage p)
      else if negb (DEFAULT_BUILTIN_API_KEY (storage p) =? "")%string then
        match use_builtin_key (storage p) with
        | Some "false" => None
        | _ => Some (DEFAULT_BUILTIN_API_KEY (storage p))
        end
      else None
  end.

(** ** The model list of a key *)

(** [fullName.replace(/^models\//, '')] *)
Definition cleanName (fullName : string) : string :=
  if Str.starts_with "models/" fullName then Str.skip 7 fullName else fullName.

Definition supportedModels (models : list ModelInfo) : list string :=
  map (fun m => cleanName (text (mi_name m)))
      (filter (fun m =>
                 Str.includes "gemini" (text (mi_name m)) &&
                 existsb (String.eqb "generateContent")
                         (match mi_supportedGenerationMethods m with
                          | Some l => l
                          | None => []
                          end))
              models).

(** [checkAvailableModels]: the supported models of an ok answer, and
    [null] in every other case; it never throws. *)
Definition checkAvailableModels (apiKey : string) : Async (option (list string)) :=
  a <- listModels apiKey ;;
  match a with
  | Listed models => ret (Some (supportedModels models))
  | NotListed => ret None
  end.

Definition modelConfigs : list ModelConfig :=
  [ {| model := "gemini-1.5-flash"; apiVersion := "v1beta" |};
    {| model := "gemini-1.5-pro"; apiVersion := "v1beta" |};
    {| model := "gemini-2.0-flash-exp"; apiVersion := "v1beta" |};
    {| model := "gemini-1.5-flash-002"; apiVersion := "v1beta" |};
    {| model := "gemini-1.5-pro-002"; apiVersion := "v1beta" |};
    {| model := "gemini-1.5-flash-001"; apiVersion := "v1beta" |};
    {| model := "gemini-1.5-pro-001"; apiVersion := "v1beta" |};
    {| model := "gemini-1.5-flash-latest"; apiVersion := "v1beta" |};
    {| model := "gemini-1.5-pro-latest"; apiVersion := "v1beta" |} ].

(** The list [tryGenerateWithKey] walks: the models of the key that are not
    in the default list come first. *)
Definition withAvailable (availableModels : option (list string)) : list ModelConfig :=
  match availableModels with
  | Some (_ :: _ as names) =>
      filter (fun c => negb (existsb (fun d => (model d =? model c)%string) modelConfigs))
             (map (fun modelName => {| model := modelName; apiVersion := "v1beta" |})
                  names)
      ++ modelConfigs
  | _ => modelConfigs
  end.

(** ** One generation over the configurations of a key *)

Definition nl : string := String "010"%char EmptyString.

Definition status_text (n : nat) : string := NilZero.string_of_uint (Nat.to_uint n).

Definition cancelled : Err := Error "Request cancelled by user".

(** A second read of a body ([response.text()] after [response.json()],
    which has used the body up whether or not it could parse it) rejects. *)
Definition readAgain : Async string :=
  throw (TypeError "Failed to execute 'text' on 'Response': body stream already read").

Definition or_else (a b : string) : string :=
  if (a =? "")%string then b else a.

(** The inner [try] block on an answer that is not ok; its value is the
    new [lastError]. *)
Definition explain (config : ModelConfig) (status : nat) (b : ErrorBody) : Async Err :=
  match b with
  | NotJson _ => throw (SyntaxError "Unexpected token in JSON")
  | JsonBody msg errorText =>
      let errorMessage := or_else (text msg) "" in
      if (status =? 404) && Str.includes "not found" errorMessage then
        ret (Error ("Model " ++ model config ++ " not found for API version "
                    ++ apiVersion config)%string)
      else if (status =? 401) || (status =? 403) then
        throw (Error ("API key authentication failed: "
                      ++ or_else errorMessage "API key is invalid or expired")%string)
      else
        ret (Error ("AI API error: " ++ status_text status ++ " - "
                    ++ or_else errorMessage errorText)%string)
  end.

(** How one turn of the loop over the configurations ends. *)
Inductive Turnout :=
| Return (aiResponse : string)
| Continue (lastError : option Err).

Definition push (who : Speaker) (what : string) (p : Page) : Page :=
  set_conversationHistory
    (conversationHistory p ++ [{| role := who; content := what |}]) p.

(** The body of [for (const config of modelConfigs)] after the abort test:
    the outer [try], with its [catch (fetchError)]. *)
Definition attempt (c : Call) (lastError : option Err) : Async Turnout :=
  try_catch
    (a <- fetch c ;;
     match a with
     | Rejected e => throw e
     | Responded Unparsable => throw (SyntaxError "Unexpected token in JSON")
     | Responded Malformed => throw (Error "Invalid API response structure")
     | Responded (Candidates None) =>
         throw (TypeError "Cannot read properties of undefined (reading 'trim')")
     | Responded (Candidates (Some t)) =>
         let aiResponse := Str.trim t in
         modify (push assistant aiResponse) ;;;
         ret (Return aiResponse)
     | Failed status b =>
         e <- try_catch (explain (call_config c) status b)
                (fun _ =>
                   errorText <- readAgain ;;
                   ret (Error ("AI API error: " ++ status_text status ++ " - "
                               ++ substring 0 200 errorText)%string)) ;;
         ret (Continue (Some e))
     end)
    (fun fetchError =>
       p <- get ;;
       if (name fetchError =? "AbortError")%string || aborted (call_signal c) p
       then throw cancelled
       else
         ret (Continue
                (match lastError with
                 | None => Some fetchError
                 | Some l =>
                     if Str.includes "All API model configurations failed" (message l)
                     then Some fetchError else lastError
                 end))).

(** After the loop. *)
Definition allFailed (lastError : option Err) : Async string :=
  let errorMsg := match lastError with
                  | Some e => message e
                  | None => "Unknown error"
                  end in
  if Str.includes "404" errorMsg || Str.includes "not found" errorMsg then
    throw (Error "All API model configurations failed - None of the tried models are available for this API key. Please check your API key has access to Gemini models, or try a different API key.")
  else
    throw (match lastError with
           | Some e => e
           | None => Error "All API model configurations failed. Please check your API key and internet connection."
           end).

Fixpoint tryConfigs (apiKey prompt : string) (signal : nat)
    (configs : list ModelConfig) (lastError : option Err) : Async string :=
  match configs with
  | [] => allFailed lastError
  | config :: rest =>
      p <- get ;;
      if aborted signal p then throw cancelled
      else
        r <- attempt {| call_config := config; call_key := apiKey;
                        call_prompt := prompt; call_signal := signal |} lastError ;;
        match r with
        | Return aiResponse => ret aiResponse
        | Continue lastError' => tryConfigs apiKey prompt signal rest lastError'
        end
  end.

Definition render (m : Turn) : string :=
  match role m with
  | user => ("User: " ++ content m)%string
  | assistant => ("Assistant: " ++ content m)%string
  end.

(** [xs.slice(-n)] *)
Definition slice_last {A : Type} (n : nat) (xs : list A) : list A :=
  skipn (List.length xs - n) xs.

(** [abortController = new AbortController()] *)
Definition newAbortController : Async nat :=
  fun p =>
    let id := List.length (controllers p) in
    Finished (set_abortController (Some id) (set_controllers (controllers p ++ [false]) p))
             (inr id).

Definition tryGenerateWithKey (apiKey combinedMessage : string) : Async string :=
  p <- get ;;
  let context := Str.join nl (map render (slice_last 10 (conversationHistory p))) in
  let prompt := (systemPrompt (storage p) ++ nl ++ nl ++ "Conversation history:" ++ nl
                 ++ context ++ nl ++ nl ++ "User: " ++ combinedMessage ++ nl
                 ++ "Assistant:")%string in
  let cacheKey := ("models_checked_" ++ substring 0 10 apiKey)%string in
  configs <- (if existsb (String.eqb cacheKey) (window p) then ret modelConfigs
              else
                modify (fun p => set_window (cacheKey :: window p) p) ;;;
                availableModels <- checkAvailableModels apiKey ;;
                ret (withAvailable availableModels)) ;;
  signal <- newAbortController ;;
  tryConfigs apiKey prompt signal configs None.

(** ** Key rotation *)

(** [for (const keyObj of keys)] in the [catch] of [generateAIResponse]:
    the response of the first other key that gives one. *)
Fixpoint tryOtherKeys (apiKey combinedMessage : string) (keys : list ApiKey)
    : Async (option string) :=
  match keys with
  | [] => ret None
  | keyObj :: rest =>
      if negb (key keyObj =? apiKey)%string then
        r <- try_catch
               (response <- tryGenerateWithKey (key keyObj) combinedMessage ;;
                ret (Some response))
               (fun _ => ret None) ;;
        match r with
        | Some response => ret (Some response)
        | None => tryOtherKeys apiKey combinedMessage rest
        end
      else tryOtherKeys apiKey combinedMessage rest
  end.

Definition builtin_allowed (p : Page) : bool :=
  match use_builtin_key (storage p) with
  | Some v => negb (v =? "false")%string
  | None => true
  end.

(** The body of [generateAIResponse]. *)
Definition generateAIResponse_body (combinedMessage : string)
    (originalMessages : list string) : Async string :=
  modify (fun p =>
            match originalMessages with
            | _ :: _ => fold_left (fun q msg => push user msg q) originalMessages p
            | [] => push user combinedMessage p
            end) ;;;
  p <- get ;;
  let builtin := DEFAULT_BUILTIN_API_KEY (storage p) in
  let apiKey := getActiveApiKey p in
  let apiKey := if truthy apiKey then apiKey else gemini_api_key (storage p) in
  let apiKey := if negb (truthy apiKey) && negb (builtin =? "")%string
                then Some builtin else apiKey in
  if negb (truthy apiKey) then
    throw (Error "No API key configured. Please configure an API key to use the AI assistant.")
  else
    let apiKey := text apiKey in
    try_catch (tryGenerateWithKey apiKey combinedMessage)
      (fun error =>
         p <- get ;;
         r <- tryOtherKeys apiKey combinedMessage (getUserApiKeys p) ;;
         match r with
         | Some response => ret response
         | None =>
             if negb (builtin =? "")%string && negb (apiKey =? builtin)%string
                && builtin_allowed p
             then try_catch (tryGenerateWithKey builtin combinedMessage)
                            (fun _ => throw error)
             else throw error
         end).

(** A call of [generateAIResponse]; the call is recorded in [calls], which
    is no variable of the script but the list of the calls made so far. *)
Definition generateAIResponse (combinedMessage : string) (originalMessages : list string)
    : Async string :=
  modify (fun p => set_calls (calls p ++ [(combinedMessage, originalMessages)]) p) ;;;
  generateAIResponse_body combinedMessage originalMessages.


(** ** Batching *)

Definition setInputEnabled (enabled : bool) (p : Page) : Page :=
  set_send_enabled enabled p.

Definition appendUser (msg : string) (p : Page) : Page :=
  set_bubbles (bubbles p ++ [UserBubble msg]) p.

Definition appendAI (msg : string) (p : Page) : Page :=
  set_bubbles (bubbles p ++ [AIBubble msg]) p.

Definition clearTimeout (id : nat) (p : Page) : Page :=
  set_timers (filter (fun t => negb (fst t =? id)) (timers p)) p.

(** [batchTimeout = setTimeout(() => { processBatchedMessages(); },
    BATCH_DELAY)] *)
Definition scheduleBatch (p : Page) : Page :=
  let id := next_timer p in
  set_batchTimeout (Some id)
    (set_next_timer (S id) (set_timers (timers p ++ [(id, BATCH_DELAY)]) p)).

Definition abort (signal : nat) (p : Page) : Page :=
  set_controllers (Server.replace_nth signal true (controllers p)) p.

Definition stopAIResponse (p : Page) : Page :=
  let p := match abortController p with
           | Some c => abort c p
           | None => p
           end in
  let p := match batchTimeout p with
           | Some id => set_batchTimeout None (clearTimeout id p)
           | None => p
           end in
  setInputEnabled true
    (set_abortController None
       (set_pendingMessages [] (set_isGeneratingResponse false p))).

Definition sendMessage (msg : option string) (p : Page) : Page :=
  if isGeneratingResponse p then p
  else
    let msg := if truthy msg then text msg else Str.trim (input_value p) in
    if (msg =? "")%string then p
    else
      let p := set_input_value "" p in
      let p := appendUser msg p in
      let p := set_pendingMessages (pendingMessages p ++ [msg]) p in
      let p := match batchTimeout p with
               | Some id => clearTimeout id p
               | None => p
               end in
      scheduleBatch p.

(** The text shown for a failed generation: the opening line and the
    headline of the category the error's message falls in. *)
Definition errorMessage (error : Err) : string :=
  let errorMsg := message error in
  let has s := Str.includes s errorMsg in
  ("I'm having trouble connecting right now." ++ nl ++ nl ++
   (if has "401" || has "API key" || has "authentication" || has "authentication failed"
    then "Connection Issue: Unable to authenticate with the AI service."
    else if has "403"
    then "Access Denied: Unable to connect to the AI service."
    else if has "429" || has "rate limit"
    then "Too Many Requests: The service is temporarily busy."
    else if has "400"
    then "Connection Error: Unable to process the request."
    else if has "not found" || has "404"
    then "Service Temporarily Unavailable: The AI service is having issues."
    else if has "All API model configurations failed" || has "All models"
    then "Connection Failed: Unable to reach the AI service."
    else if has "fetch" || has "network" || has "Failed to fetch"
    then "Network Error: Cannot connect to the internet."
    else if has "is not defined"
    then "Service Error: An unexpected error occurred."
    else "Connection Error: Unable to reach the AI service."))%string.

Definition stopped (p : Page) : bool :=
  match abortController p with
  | Some c => aborted c p
  | None => false
  end.

(** The end of [processBatchedMessages], from "Reset flag after
    processing" on. *)
Definition finish : Async unit :=
  modify (fun p => setInputEnabled true
                     (set_abortController None (set_isGeneratingResponse false p))) ;;;
  p <- get ;;
  if (0 <? List.length (pendingMessages p))
     && match abortController p with Some _ => false | None => true end
  then modify scheduleBatch
  else ret tt.

(** What [processBatchedMessages] does once [await generateAIResponse(..)]
    has returned ([inr]) or thrown ([inl]): the rest of the [try] block or
    the [catch] block, and then the end of the function unless it returned
    early. *)
Definition afterGeneration (r : Err + string) : Async unit :=
  p <- get ;;
  match r with
  | inr response =>
      if stopped p then ret tt
      else modify (appendAI response) ;;; finish
  | inl error =>
      if (message error =? "Request cancelled by user")%string || stopped p then ret tt
      else modify (appendAI (errorMessage error)) ;;; finish
  end.

Definition processBatchedMessages : Async unit :=
  p <- get ;;
  if isGeneratingResponse p || (List.length (pendingMessages p) =? 0) then ret tt
  else
    let messagesToProcess := pendingMessages p in
    modify (fun p => set_pendingMessages []
                       (setInputEnabled false (set_isGeneratingResponse true p))) ;;;
    let combinedMessage := Str.join (nl ++ nl)%string messagesToProcess in
    r <- try_catch
           (response <- generateAIResponse combinedMessage messagesToProcess ;;
            ret (inr response))
           (fun error => ret (inl error)) ;;
    afterGeneration r.

(** ** The event loop

    The page and the asynchronous activations that wait for the network. *)
Record World := {
  page : Page;
  tasks : list (Step unit)
}.

Definition open (st : Storage) : World := {| page := load st; tasks := [] |}.

Inductive Event :=
| Typing (s : string)
| PressEnter
| ClickSend
| ClickTip (text : string)
| TimerFires (id : nat)
| ModelsArrive (i : nat) (a : ListAnswer)
| FetchSettles (i : nat) (a : FetchAnswer).

Definition page_of {A : Type} (s : Step A) : Page :=
  match s with
  | Finished p _ => p
  | AwaitModels p _ _ => p
  | AwaitFetch p _ _ => p
  end.

Definition waiting {A : Type} (s : Step A) : bool :=
  match s with
  | Finished _ _ => false
  | _ => true
  end.

(** A new activation ran up to [s]. *)
Definition started (s : Step unit) (w : World) : World :=
  {| page := page_of s;
     tasks := if waiting s then tasks w ++ [s] else tasks w |}.

(** The activation at [i] was resumed and ran up to [s]. *)
Definition resumed (i : nat) (s : Step unit) (w : World) : World :=
  {| page := page_of s;
     tasks := if waiting s then Server.replace_nth i s (tasks w)
              else Server.remove_nth i (tasks w) |}.

Definition on_page (f : Page -> Page) (w : World) : World :=
  {| page := f (page w); tasks := tasks w |}.

(** One turn of the event loop; [None] when the event cannot happen in
    this state. A [fetch] whose signal is aborted rejects with an
    [AbortError], whatever the network would have answered. *)
Definition step (ev : Event) (w : World) : option World :=
  let p := page w in
  match ev with
  | Typing s => Some (on_page (set_input_value s) w)
  | PressEnter =>
      if isGeneratingResponse p then Some (on_page stopAIResponse w)
      else Some (on_page (sendMessage None) w)
  | ClickSend =>
      if send_enabled p then Some (on_page (sendMessage None) w)
      else Some (on_page stopAIResponse w)
  | ClickTip t =>
      if send_enabled p then Some (on_page (sendMessage (Some t)) w) else None
  | TimerFires id =>
      if existsb (fun t => fst t =? id) (timers p) then
        Some (started (processBatchedMessages (clearTimeout id p)) w)
      else None
  | ModelsArrive i a =>
      match nth_error (tasks w) i with
      | Some (AwaitModels _ _ k) => Some (resumed i (k a p) w)
      | _ => None
      end
  | FetchSettles i a =>
      match nth_error (tasks w) i with
      | Some (AwaitFetch _ c k) =>
          let a := if aborted (call_signal c) p then Rejected AbortError else a in
          Some (resumed i (k a p) w)
      | _ => None
      end
  end.

Fixpoint steps (evs : list Event) (w : World) : option World :=
  match evs with
  | [] => Some w
  | ev :: rest =>
      match step ev w with
      | Some w' => steps rest w'
      | None => None
      end
  end.

(** The generation requests that are on the network and not aborted. *)
Definition in_flight (w : World) : list Call :=
  flat_map (fun s => match s with
                     | AwaitFetch _ c _ =>
                         if aborted (call_signal c) (page w) then [] else [c]
                     | _ => []
                     end)
           (tasks w).

(** ** A generation run against a scripted network

    [complete] answers every request of an asynchronous function at once,
    and returns the requests it made along with the outcome. *)
Record Network := {
  models_of : string -> ListAnswer;
  answer_of : Call -> FetchAnswer
}.

Fixpoint complete {A : Type} (net : Network) (s : Step A) : list Call * Page * (Err + A) :=
  match s with
  | Finished p r => ([], p, r)
  | AwaitModels _ apiKey k =>
      complete net (k (models_of net apiKey) (page_of s))
  | AwaitFetch _ c k =>
      let '(cs, p', r) := complete net (k (answer_of net c) (page_of s)) in
      (c :: cs, p', r)
  end.

End Client.

(** * What the specification says, in the terms of the model *)

Module Spec.
Import Server.


(** The sequence 1, 2, .., n. *)
Definition one_to (n : nat) : list Z := map Z.of_nat (seq 1 n).

(** The orders of a conversation's messages, in the order the messages
    were stored, are 1, 2, 3, .. without a gap. *)
Definition gapless (db : DB) (cid : uuid) : Prop :=
  orders_of db cid = one_to (List.length (messages_of db cid)).

(** A request as the server sees it once every [message_order] a client
    may have put in the body is taken out. *)
Definition without_message_order (req : Request) : Request :=
  let b := body req in
  {| route := route req;
     authorization := authorization req;
     body :=
       {| b_name := b_name b; b_email := b_email b; b_password := b_password b;
          b_title := b_title b; b_role := b_role b; b_content := b_content b;
          b_message_order := None;
          b_messages :=
            option_map (map (fun m => {| bm_role := bm_role m;
                                         bm_content := bm_content m;
                                         bm_message_order := None |}))
                       (b_messages b);
          b_preferredModel := b_preferredModel b;
          b_useBuiltinKey := b_useBuiltinKey b |} |}.

(** [UNIQUE (email)] on [users]. *)
Definition emails_unique (db : DB) : Prop := NoDup (map u_email (users db)).




(** A stand-in for the two libraries, to evaluate the server on concrete
    requests: a hash is the salt and the password cut or filled to 60
    characters, a token is the user's id in unary followed by the email. *)
Definition fill60 (s : string) : string :=
  substring 0 60 (s ++ Str.replicate 60 "."%char).

Fixpoint read_token (tok : string) (id : nat) : option Claims :=
  match tok with
  | EmptyString => None
  | String c rest =>
      if Ascii.eqb c ":"%char then
        Some {| tk_id := id; tk_email := rest; tk_iat := 0; tk_exp := 7 |}
      else if Ascii.eqb c "i"%char then read_token rest (S id)
      else None
  end.

End Spec.

(** * Concrete requests and event traces

    The inputs on which the theorems below are instantiated. *)

Module Scenario.
Import Server.

Definition e0 : Env := {| now := 100; salt := "s1" |}.

Definition with_body (r : Route) (auth : option string) (b : Body) : Request :=
  {| route := r; authorization := auth; body := b |}.

Definition credentials (name email password : option string) : Body :=
  {| b_name := name; b_email := email; b_password := password; b_title := None;
     b_role := None; b_content := None; b_message_order := None;
     b_messages := None; b_preferredModel := None; b_useBuiltinKey := None |}.

Definition saying (role content : string) (order : option Z) : Body :=
  {| b_name := None; b_email := None; b_password := None; b_title := None;
     b_role := Some role; b_content := Some content; b_message_order := order;
     b_messages := None; b_preferredModel := None; b_useBuiltinKey := None |}.

(** Alice signs up; she is user 0 and her token under the stand-in
    libraries is [":alice@example.com"]. *)
Definition alice_signs_up : Request :=
  with_body PostSignup None
    (credentials (Some "Alice") (Some "alice@example.com") (Some "secret1")).

Definition alice : option string := Some "Bearer :alice@example.com".

Definition alice_claims : Claims :=
  {| tk_id := 0; tk_email := "alice@example.com"; tk_iat := 0; tk_exp := 7 |}.

Definition alice_opens : Request := with_body PostConversation alice no_body.

(** Two messages for conversation 1, the first with a [message_order] of
    the client's own. *)
Definition alice_says_hello : Request :=
  with_body (PostMessage 1) alice (saying "user" "hello" (Some 7%Z)).

Definition alice_says_again : Request :=
  with_body (PostMessage 1) alice (saying "user" "are you there" None).

Definition alice_deletes : Request := with_body (DeleteConversationR 1) alice no_body.

Definition alice_lists : Request := with_body GetConversations alice no_body.

Definition history : list (Env * Request) :=
  [(e0, alice_signs_up); (e0, alice_opens);
   (e0, alice_says_hello); (e0, alice_says_again)].

(** Both messages arrive before either is handled, and the event loop
    alternates between the two handlers. *)
Definition race : list Action :=
  [Arrive e0 alice_signs_up; Resume e0 0; Resume e0 0; Resume e0 0;
   Arrive e0 alice_opens; Resume e0 0; Resume e0 0;
   Arrive e0 alice_says_hello; Arrive e0 alice_says_again;
   Resume e0 0; Resume e0 1;
   Resume e0 0; Resume e0 1;
   Resume e0 0; Resume e0 1;
   Resume e0 0; Resume e0 0; Resume e0 0;
   Resume e0 0; Resume e0 0; Resume e0 0].


Definition short_password_signs_up : Request :=
  with_body PostSignup None
    (credentials (Some "Carol") (Some "carol@example.com") (Some "12345")).


Definition alice_logs_in (password : string) : Request :=
  with_body PostLogin None
    (credentials None (Some "alice@example.com") (Some password)).



End Scenario.

(** * Concrete pages and networks for the client *)

Module Browser.
Import Client.

(** Two stored keys, the first one active and also the built-in key. *)
Definition two_keys : Storage :=
  {| userApiKeys := [ {| key := "AIzaKEY-one-0000000"; active := true |};
                      {| key := "AIzaKEY-two-0000000"; active := false |} ];
     gemini_api_key := None;
     use_builtin_key := None;
     DEFAULT_BUILTIN_API_KEY := "AIzaKEY-one-0000000";
     systemPrompt := "You are a supportive companion." |}.

(** The user sends a message and clicks Stop while the first key's model
    list is still being fetched; then sends another message, which starts
    its own generation; then the model list arrives. *)
Definition stop_too_early : list Event :=
  [ClickTip "hello"; TimerFires 1; ClickSend;
   ClickTip "are you there"; TimerFires 2;
   ModelsArrive 0 NotListed].

(** The user clicks Stop while the request is on the network; the aborted
    call goes on with the second key; the user sends another message. *)
Definition stop_then_fallback : list Event :=
  [ClickTip "hello"; TimerFires 1; ModelsArrive 0 NotListed; ClickSend;
   FetchSettles 0 (Responded (Candidates (Some "hi")));
   ModelsArrive 0 NotListed;
   ClickTip "are you there"; TimerFires 2].

(** What can be compared of a world: the page and the generation requests
    on the network. *)
Definition snapshot (w : World) : Page * list Call := (page w, in_flight w).

Definition after (evs : list Event) : option (Page * list Call) :=
  option_map snapshot (steps evs (open two_keys)).

(** A page on which a generation is running. *)
Definition busy : option (Page * list Call) := after [ClickTip "hello"; TimerFires 1].

(** A request by its key, its model and its signal. *)
Definition brief (c : Call) : string * string * nat :=
  (call_key c, model (call_config c), call_signal c).

Definition invalid_key : ErrorBody :=
  JsonBody (Some "API key not valid. Please pass a valid API key.") "{}".

(** Every configuration answers 401. *)
Definition all_unauthorized : Network :=
  {| models_of := fun _ => NotListed;
     answer_of := fun _ => Failed 401 invalid_key |}.

(** The first configuration answers 401, the others answer. *)
Definition first_unauthorized : Network :=
  {| models_of := fun _ => NotListed;
     answer_of := fun c =>
       if (model (call_config c) =? "gemini-1.5-flash")%string
       then Failed 401 invalid_key
       else Responded (Candidates (Some " hi there ")) |}.

(** What is watched of a page: the calls of [generateAIResponse] made so
    far, and the pending list. *)
Definition watch (p : Page) : list (string * list string) * list string :=
  (calls p, pendingMessages p).

(** An activation that, however it is resumed, makes no call of
    [generateAIResponse] and leaves the pending list alone. *)
Fixpoint quiet {A : Type} (s : Step A) : Prop :=
  match s with
  | Finished _ _ => True
  | AwaitModels _ _ k => forall a p, watch (page_of (k a p)) = watch p /\ quiet (k a p)
  | AwaitFetch _ _ k => forall a p, watch (page_of (k a p)) = watch p /\ quiet (k a p)
  end.

(** An activation that has brought the page to [w] and is quiet from there. *)
Definition settled {A : Type} (s : Step A)
    (w : list (string * list string) * list string) : Prop :=
  watch (page_of s) = w /\ quiet s.

(** An asynchronous function that is quiet from its start. *)
Definition calm {A : Type} (t : Async A) : Prop :=
  forall p, settled (t p) (watch p).

(** The events by which the user stops a generation: Enter while the flag
    is set, and a click on the button while it reads Stop. *)
Definition is_stop (ev : Event) (w : World) : bool :=
  match ev with
  | PressEnter => isGeneratingResponse (page w)
  | ClickSend => negb (send_enabled (page w))
  | _ => false
  end.

(** A run of the event loop in which the user never stops a generation. *)
Fixpoint unstopped (evs : list Event) (w : World) : option World :=
  match evs with
  | [] => Some w
  | ev :: rest =>
      if is_stop ev w then None
      else match step ev w with
           | Some w' => unstopped rest w'
           | None => None
           end
  end.

(** An activation that, resumed with the flag set, leaves it set for as long
    as it runs, its end included. *)
Fixpoint holds {A : Type} (s : Step A) : Prop :=
  match s with
  | Finished p _ => isGeneratingResponse p = true
  | AwaitModels p _ k =>
      isGeneratingResponse p = true /\
      forall a p', isGeneratingResponse p' = true -> holds (k a p')
  | AwaitFetch p _ k =>
      isGeneratingResponse p = true /\
      forall a p', isGeneratingResponse p' = true -> holds (k a p')
  end.

(** The same, but for the end, where the flag may be reset. *)
Fixpoint live {A : Type} (s : Step A) : Prop :=
  match s with
  | Finished _ _ => True
  | AwaitModels p _ k =>
      isGeneratingResponse p = true /\
      forall a p', isGeneratingResponse p' = true -> live (k a p')
  | AwaitFetch p _ k =>
      isGeneratingResponse p = true /\
      forall a p', isGeneratingResponse p' = true -> live (k a p')
  end.

Definition steady {A : Type} (t : Async A) : Prop :=
  forall p, isGeneratingResponse p = true -> holds (t p).

(** At most one activation waits for the network, and the flag is set while
    it does. *)
Definition one_at_a_time (w : World) : Prop :=
  tasks w = [] \/
  exists s, tasks w = [s] /\ isGeneratingResponse (page w) = true /\ live s.

End Browser.

(** * The routes and the statements by their kind *)

Module Http.
Import Server.

Inductive Method := GET | POST | PUT | DELETE.

(** The method a route is registered with ([app.get], [app.post], ..); a
    request that matches no route has none. *)
Definition method (r : Route) : option Method :=
  match r with
  | GetHealth | GetVerify | GetConversations | GetConversation _
  | GetMessages _ | GetSettings => Some GET
  | PostSignup | PostLogin | PostConversation | PostMessage _
  | PostMessagesBulk _ => Some POST
  | PutConversation _ | PutSettings => Some PUT
  | DeleteConversationR _ => Some DELETE
  | Unrouted => None
  end.


(** The statements whose SQL text is a [SELECT]. *)
Definition is_select {R : Type} (s : Stmt R) : bool :=
  match s with
  | SelectNow | SelectUserIdByEmail _ | SelectActiveUserByEmail _
  | SelectConversationList _ | SelectConversationOwned _ _ | SelectConversation _
  | SelectMessages _ | SelectNextOrder _ | SelectMaxOrder _ | SelectSettings _ => true
  | _ => false
  end.

(** A program that sends nothing but [SELECT]s, whatever they return. *)
Inductive selects {A : Type} : Prog A -> Prop :=
| selects_ret (a : A) : selects (Ret a)
| selects_query (R : Type) (s : Stmt R) (k : Outcome R -> Prog A) :
    is_select s = true -> (forall r, selects (k r)) -> selects (Query s k).

(** A response with a status of the 4xx class. *)
Definition refusal (r : Response) : bool :=
  (400 <=? status r) && (status r <? 500).

(** The foreign keys of the schema: every conversation and every settings
    row has its user, every message its conversation. *)
Definition referential (db : DB) : Prop :=
  (forall c, In c (conversations db) -> user_exists db (c_user_id c) = true) /\
  (forall m, In m (messages db) -> conversation_exists db (m_conversation_id m) = true) /\
  (forall s, In s (user_settings db) -> user_exists db (s_user_id s) = true).

(** The ids in use were drawn from the counter. *)
Definition drawn (db : DB) : Prop :=
  (forall c, In c (conversations db) -> c_id c < next_uuid db) /\
  (forall m, In m (messages db) -> m_conversation_id m < next_uuid db).

End Http.

(** * More concrete requests *)

Module Visits.
Import Server Scenario.




Definition alice_reads : Request := with_body (GetConversation 1) alice no_body.

Definition alice_reads_messages : Request := with_body (GetMessages 1) alice no_body.

Definition preferring (model : string) (builtin : option bool) : Body :=
  {| b_name := None; b_email := None; b_password := None; b_title := None;
     b_role := None; b_content := None; b_message_order := None;
     b_messages := None; b_preferredModel := Some model; b_useBuiltinKey := builtin |}.

Definition alice_prefers : Request :=
  with_body PutSettings alice (preferring "gemini-1.5-flash" (Some false)).

Definition alice_asks_settings : Request := with_body GetSettings alice no_body.





(** Alice's sign-up handled alone. *)
Definition alice_arrives : list Action :=
  [Arrive e0 alice_signs_up; Resume e0 0; Resume e0 0; Resume e0 0].

End Visits.

(** * The key a generation starts with, and networks that always answer alike *)

Module Generation.
Import Client.

(** The key [generateAIResponse] ends up with before its [try]: the active
    key, else the legacy entry, else the built-in key. *)
Definition primaryKey (p : Page) : option string :=
  let builtin := DEFAULT_BUILTIN_API_KEY (storage p) in
  let apiKey := getActiveApiKey p in
  let apiKey := if truthy apiKey then apiKey else gemini_api_key (storage p) in
  if negb (truthy apiKey) && negb (builtin =? "")%string
  then Some builtin else apiKey.

(** The keys in the order [generateAIResponse] tries them when each one
    fails: the primary key, the other stored keys, and the built-in key
    unless it was the primary key or is switched off. *)
Definition keyOrder (p : Page) (apiKey : string) : list string :=
  let builtin := DEFAULT_BUILTIN_API_KEY (storage p) in
  apiKey
  :: filter (fun k => negb (k =? apiKey)%string) (map key (getUserApiKeys p))
  ++ (if negb (builtin =? "")%string && negb (apiKey =? builtin)%string
         && builtin_allowed p
      then [builtin] else []).

(** No connection: every request is rejected with a [TypeError]. *)
Definition offline : Network :=
  {| models_of := fun _ => NotListed;
     answer_of := fun _ => Rejected (TypeError "Failed to fetch") |}.





(** No stored key, and the built-in key switched off. *)
Definition builtin_off : Storage :=
  {| userApiKeys := [];
     gemini_api_key := None;
     use_builtin_key := Some "false";
     DEFAULT_BUILTIN_API_KEY := "AIzaKEY-one-0000000";
     systemPrompt := "You are a supportive companion." |}.



End Generation.

(** * The client: the list of API keys ([script.js])

    The key list lives in [localStorage] under [gemini_api_keys_global],
    with a copy in the script's variable [cachedApiKeys] that is trusted for
    five seconds. [Date.now()] is the argument [now] of the functions that
    read the clock; one call of a function happens at one time, but for
    [addApiKey], which waits for the test of the key. An entry of
    [localStorage] is kept as the value [JSON.parse] gives of it. The keys
    in [PRE_CONFIGURED_API_KEYS] are taken to be pairwise distinct, as they
    are in the script, so that no object is pushed twice into the list;
    the theorems say where they rely on it. [Client] takes the list
    [getUserApiKeys] answers as it finds it; this module says how the list
    is made and changed. *)

Module KeyStore.

(** A key object; [preconfigured] and [embedded] are [false] where the
    object has no such property. *)
Record Entry := {
  id : string;
  key : string;
  addedAt : nat;
  active : bool;
  status : string;
  preconfigured : bool;
  embedded : bool
}.

Definition set_active (v : bool) (k : Entry) : Entry :=
  {| id := id k; key := key k; addedAt := addedAt k; active := v;
     status := status k; preconfigured := preconfigured k; embedded := embedded k |}.

Definition set_embedded (v : bool) (k : Entry) : Entry :=
  {| id := id k; key := key k; addedAt := addedAt k; active := active k;
     status := status k; preconfigured := preconfigured k; embedded := v |}.

(** The two constants, the four entries of [localStorage], the two
    variables of the cache, and the value of the input [#gemini-key]. *)
Record State := {
  PRE_CONFIGURED_API_KEYS : list string;
  DEFAULT_BUILTIN_API_KEY : string;
  gemini_api_keys_global : option (list Entry);
  embedded_keys_imported : option string;
  gemini_api_key : option string;
  use_builtin_key : option string;
  cachedApiKeys : option (list Entry);
  apiKeysCacheTime : nat;
  gemini_key_input : string
}.

Definition set_gemini_api_keys_global (v : option (list Entry)) (st : State) : State :=
  {| PRE_CONFIGURED_API_KEYS := PRE_CONFIGURED_API_KEYS st;
     DEFAULT_BUILTIN_API_KEY := DEFAULT_BUILTIN_API_KEY st;
     gemini_api_keys_global := v;
     embedded_keys_imported := embedded_keys_imported st;
     gemini_api_key := gemini_api_key st; use_builtin_key := use_builtin_key st;
     cachedApiKeys := cachedApiKeys st; apiKeysCacheTime := apiKeysCacheTime st;
     gemini_key_input := gemini_key_input st |}.

Definition set_embedded_keys_imported (v : option string) (st : State) : State :=
  {| PRE_CONFIGURED_API_KEYS := PRE_CONFIGURED_API_KEYS st;
     DEFAULT_BUILTIN_API_KEY := DEFAULT_BUILTIN_API_KEY st;
     gemini_api_keys_global := gemini_api_keys_global st;
     embedded_keys_imported := v;
     gemini_api_key := gemini_api_key st; use_builtin_key := use_builtin_key st;
     cachedApiKeys := cachedApiKeys st; apiKeysCacheTime := apiKeysCacheTime st;
     gemini_key_input := gemini_key_input st |}.

Definition set_gemini_api_key (v : option string) (st : State) : State :=
  {| PRE_CONFIGURED_API_KEYS := PRE_CONFIGURED_API_KEYS st;
     DEFAULT_BUILTIN_API_KEY := DEFAULT_BUILTIN_API_KEY st;
     gemini_api_keys_global := gemini_api_keys_global st;
     embedded_keys_imported := embedded_keys_imported st;
     gemini_api_key := v; use_builtin_key := use_builtin_key st;
     cachedApiKeys := cachedApiKeys st; apiKeysCacheTime := apiKeysCacheTime st;
     gemini_key_input := gemini_key_input st |}.

Definition set_use_builtin_key (v : option string) (st : State) : State :=
  {| PRE_CONFIGURED_API_KEYS := PRE_CONFIGURED_API_KEYS st;
     DEFAULT_BUILTIN_API_KEY := DEFAULT_BUILTIN_API_KEY st;
     gemini_api_keys_global := gemini_api_keys_global st;
     embedded_keys_imported := embedded_keys_imported st;
     gemini_api_key := gemini_api_key st; use_builtin_key := v;
     cachedApiKeys := cachedApiKeys st; apiKeysCacheTime := apiKeysCacheTime st;
     gemini_key_input := gemini_key_input st |}.

Definition set_cache (keys : list Entry) (now : nat) (st : State) : State :=
  {| PRE_CONFIGURED_API_KEYS := PRE_CONFIGURED_API_KEYS st;
     DEFAULT_BUILTIN_API_KEY := DEFAULT_BUILTIN_API_KEY st;
     gemini_api_keys_global := gemini_api_keys_global st;
     embedded_keys_imported := embedded_keys_imported st;
     gemini_api_key := gemini_api_key st; use_builtin_key := use_builtin_key st;
     cachedApiKeys := Some keys; apiKeysCacheTime := now;
     gemini_key_input := gemini_key_input st |}.

Definition set_gemini_key_input (v : string) (st : State) : State :=
  {| PRE_CONFIGURED_API_KEYS := PRE_CONFIGURED_API_KEYS st;
     DEFAULT_BUILTIN_API_KEY := DEFAULT_BUILTIN_API_KEY st;
     gemini_api_keys_global := gemini_api_keys_global st;
     embedded_keys_imported := embedded_keys_imported st;
     gemini_api_key := gemini_api_key st; use_builtin_key := use_builtin_key st;
     cachedApiKeys := cachedApiKeys st; apiKeysCacheTime := apiKeysCacheTime st;
     gemini_key_input := v |}.

Definition API_KEYS_CACHE_DURATION : nat := 5000.

(** [JSON.parse(localStorage.getItem(GLOBAL_API_KEYS_STORAGE_KEY) || '[]')] *)
Definition storedKeys (st : State) : list Entry :=
  match gemini_api_keys_global st with
  | Some keys => keys
  | None => []
  end.

Definition saveUserApiKeys (now : nat) (keys : list Entry) (st : State) : State :=
  set_cache keys now (set_gemini_api_keys_global (Some keys) st).

(** [existing.embedded = true] on the object [storedKeys.find(..)] gave:
    the first one with that key. *)
Fixpoint mark_embedded (k : string) (storedKeys : list Entry) : list Entry :=
  match storedKeys with
  | [] => []
  | s :: rest =>
      if (key s =? k)%string then set_embedded true s :: rest
      else s :: mark_embedded k rest
  end.

(** [validEmbeddedKeys.forEach((key, index) => ..)], from [index] on; the
    result is [keys] and [storedKeys] as the loop leaves them. *)
Fixpoint importEmbedded (now : nat) (existingKeyValues : list string) (index : nat)
    (validEmbeddedKeys : list string) (storedKeys keys : list Entry)
    : list Entry * list Entry :=
  match validEmbeddedKeys with
  | [] => (keys, storedKeys)
  | k :: rest =>
      if negb (existsb (String.eqb k) existingKeyValues) then
        importEmbedded now existingKeyValues (S index) rest storedKeys
          (keys ++ [{| id := "embedded_" ++ Client.status_text index; key := k;
                       addedAt := now; active := index =? 0; status := "working";
                       preconfigured := true; embedded := true |}])
      else
        match find (fun s => (key s =? k)%string) storedKeys with
        | Some existing =>
            importEmbedded now existingKeyValues (S index) rest
              (mark_embedded k storedKeys) (keys ++ [set_embedded true existing])
        | None =>
            importEmbedded now existingKeyValues (S index) rest storedKeys keys
        end
  end.

(** [storedKeys.forEach(storedKey => ..)] *)
Fixpoint keepStored (storedKeys keys : list Entry) : list Entry :=
  match storedKeys with
  | [] => keys
  | storedKey :: rest =>
      keepStored rest
        (if negb (embedded storedKey)
            && negb (existsb (fun k => (key k =? key storedKey)%string) keys)
         then keys ++ [storedKey] else keys)
  end.

(** "Ensure first embedded key is active if no active key" *)
Definition ensureActive (keys : list Entry) : list Entry :=
  if negb (existsb active keys) && (0 <? List.length keys) then
    match keys with
    | first :: rest => set_active true first :: map (set_active false) rest
    | [] => []
    end
  else keys.

Definition validEmbeddedKeys (st : State) : list string :=
  filter (fun k => negb (k =? "")%string && Str.starts_with "AIza" k)
         (PRE_CONFIGURED_API_KEYS st).

(** [getUserApiKeys] past the test of the cache. *)
Definition loadUserApiKeys (now : nat) (st : State) : list Entry * State :=
  let (keys, st) :=
    if (0 <? List.length (PRE_CONFIGURED_API_KEYS st))
       && (0 <? List.length (validEmbeddedKeys st)) then
      let (keys, marked) :=
        importEmbedded now (map key (storedKeys st)) 0 (validEmbeddedKeys st)
                       (storedKeys st) [] in
      let keys := ensureActive (keepStored marked keys) in
      if 0 <? List.length keys then
        (keys, set_embedded_keys_imported (Some "true") (saveUserApiKeys now keys st))
      else (keys, st)
    else ([], st) in
  let keys := if List.length keys =? 0 then storedKeys st else keys in
  (keys, set_cache keys now st).

Definition getUserApiKeys (now : nat) (st : State) : list Entry * State :=
  match cachedApiKeys st with
  | Some cached =>
      if now <? apiKeysCacheTime st + API_KEYS_CACHE_DURATION then (cached, st)
      else loadUserApiKeys now st
  | None => loadUserApiKeys now st
  end.

Definition getActiveApiKey (now : nat) (st : State) : option string * State :=
  let (keys, st) := getUserApiKeys now st in
  match keys with
  | first :: _ =>
      (Some (key (match find active keys with
                  | Some activeKey => activeKey
                  | None => last keys first
                  end)), st)
  | [] =>
      if truthy (gemini_api_key st) then (gemini_api_key st, st)
      else if negb (DEFAULT_BUILTIN_API_KEY st =? "")%string then
        match use_builtin_key st with
        | Some "false" => (None, st)
        | Some _ => (Some (DEFAULT_BUILTIN_API_KEY st), st)
        | None => (Some (DEFAULT_BUILTIN_API_KEY st),
                   set_use_builtin_key (Some "true") st)
        end
      else (None, st)
  end.

(** [refreshApiKeysList] reads the keys that have just been saved, to draw
    them; [updateStatusIndicator] does nothing. *)
Definition setActiveApiKey (now : nat) (keyId : string) (st : State) : State :=
  let (keys, st) := getUserApiKeys now st in
  saveUserApiKeys now (map (fun k => set_active (id k =? keyId)%string k) keys) st.

(** What [addApiKey] ends with. *)
Inductive Added := InvalidKey | KeyExists | TestFailed | KeyAdded.

(** [addApiKey]: [now] is the time of the call, [isValid] what
    [await testApiKey(key)] gives and [tested] the time it gives it, with
    nothing else running while the key is tested. *)
Definition addApiKey (now tested : nat) (isValid : bool) (st : State) : Added * State :=
  let k := Str.trim (gemini_key_input st) in
  if (k =? "")%string || negb (Str.starts_with "AIza" k) then (InvalidKey, st)
  else
    let (keys, st) := getUserApiKeys now st in
    if existsb (fun e => (key e =? k)%string) keys then
      (KeyExists, set_gemini_key_input "" st)
    else if negb isValid then (TestFailed, st)
    else
      let newKey := {| id := Client.status_text tested; key := k; addedAt := tested;
                       active := true; status := "working";
                       preconfigured := false; embedded := false |} in
      let keys := newKey :: map (set_active false) keys in
      (KeyAdded,
       set_gemini_api_key (Some k)
         (set_gemini_key_input "" (saveUserApiKeys tested keys st))).

(** [removeApiKey], [confirmed] being the answer to the dialog. *)
Definition removeApiKey (now : nat) (keyId : string) (confirmed : bool) (st : State)
    : State :=
  if negb confirmed then st
  else
    let (keys, st) := getUserApiKeys now st in
    let filteredKeys := filter (fun k => negb (id k =? keyId)%string) keys in
    let wasActive := existsb (fun k => (id k =? keyId)%string && active k) keys in
    let filteredKeys :=
      match filteredKeys with
      | first :: rest => if wasActive then set_active true first :: rest else filteredKeys
      | [] => []
      end in
    let st := saveUserApiKeys now filteredKeys st in
    let (activeKey, st) := getActiveApiKey now st in
    if truthy activeKey then set_gemini_api_key activeKey st
    else set_gemini_api_key None st.

Definition toggleBuiltInKey (checked : bool) (st : State) : State :=
  set_use_builtin_key (Some (if checked then "true" else "false")) st.

(** The cache cannot answer at [now]: it is empty or five seconds old. *)
Definition stale (now : nat) (st : State) : Prop :=
  cachedApiKeys st = None \/ apiKeysCacheTime st + API_KEYS_CACHE_DURATION <= now.

(** A browser in which the script has not run yet, with two embedded keys
    and no built-in key. *)
Definition two_embedded : State :=
  {| PRE_CONFIGURED_API_KEYS := ["AIzaKEY-one-0000000"; "AIzaKEY-two-0000000"];
     DEFAULT_BUILTIN_API_KEY := "";
     gemini_api_keys_global := None;
     embedded_keys_imported := None;
     gemini_api_key := None;
     use_builtin_key := None;
     cachedApiKeys := None;
     apiKeysCacheTime := 0;
     gemini_key_input := "" |}.

(** A key a visitor has added, as [addApiKey] stores it. *)
Definition own_key : Entry :=
  {| id := "700"; key := "AIzaKEY-own-0000000"; addedAt := 700; active := true;
     status := "working"; preconfigured := false; embedded := false |}.

(** The same browser with that key alone in [localStorage]. *)
Definition with_own_key : State :=
  set_gemini_api_keys_global (Some [own_key]) two_embedded.

End KeyStore.

(** * Facts about strings and lists *)

Lemma substring_0_length (n : nat) (s : string) :
  n <= String.length s -> String.length (substring 0 n s) = n.
Proof.
  revert s; induction n as [|n IH]; intros s H.
  - destruct s; reflexivity.
  - destruct s as [|c s]; simpl in *; [lia|].
    rewrite IH by lia. reflexivity.
Qed.

Lemma append_length (a b : string) :
  String.length (a ++ b) = String.length a + String.length b.
Proof.
  induction a as [|c a IH]; simpl; [reflexivity|]. now rewrite IH.
Qed.

Lemma replicate_length (n : nat) (c : ascii) :
  String.length (Str.replicate n c) = n.
Proof.
  induction n as [|n IH]; simpl; [reflexivity|]. now rewrite IH.
Qed.

Lemma fill60_length (s : string) : String.length (Spec.fill60 s) = 60.
Proof.
  unfold Spec.fill60. apply substring_0_length.
  rewrite append_length, replicate_length. lia.
Qed.

#[export] Instance toy_libs : Server.Libs :=
  {| Server.bcrypt_hash := fun salt password => Spec.fill60 (salt ++ password);
     Server.bcrypt_compare :=
       fun password hash => (Spec.fill60 (substring 0 2 hash ++ password) =? hash)%string;
     Server.bcrypt_hash_length := fun salt password => fill60_length (salt ++ password);
     Server.jwt_sign :=
       fun id email _ => (Str.replicate id "i"%char ++ ":" ++ email)%string;
     Server.jwt_verify := fun tok _ => Spec.read_token tok 0 |}.

(** The store after Alice has signed up, opened a conversation and sent
    two messages, one request after the other. *)
Definition alice_store : Server.DB :=
  Server.handle_all Scenario.history Server.empty_db.


Lemma varchar_fits (n : nat) (s : string) :
  String.length s <= n -> Server.varchar n s = Some s.
Proof.
  intros H. unfold Server.varchar.
  destruct (Nat.leb_spec (String.length s) n); [reflexivity | lia].
Qed.

Lemma truthy_text (o : option string) :
  truthy o = true -> o = Some (text o) /\ text o <> "".
Proof.
  destruct o as [s|]; simpl; [|discriminate].
  destruct (String.eqb_spec s ""); simpl; [discriminate|]. auto.
Qed.

(** * The server: running handler programs *)

Section Running.
Import Server.
Context {libs : Libs}.

Lemma run_query (e : Env) (R : Type) (s : Stmt R) (db : DB) :
  run e (query s) db = exec e s db.
Proof.
  simpl. destruct (exec e s db); reflexivity.
Qed.

Lemma run_bind (e : Env) (A B : Type) (p : Try A) (k : A -> Try B) (db : DB) :
  run e (bind p k) db =
  match run e p db with
  | (db1, inl msg) => (db1, inl msg)
  | (db1, inr a) => run e (k a) db1
  end.
Proof.
  revert db. induction p as [[msg|a]|R s c IH]; intros db; simpl.
  - reflexivity.
  - reflexivity.
  - destruct (exec e s db) as [db' r]. apply IH.
Qed.

Lemma run_catching (e : Env) (prefix : string) (p : Try Response) (db : DB) :
  run e (catching prefix p) db =
  match run e p db with
  | (db1, inl msg) => (db1, error 500 (prefix ++ msg)%string)
  | (db1, inr r) => (db1, r)
  end.
Proof.
  revert db. induction p as [[msg|a]|R s c IH]; intros db; simpl.
  - reflexivity.
  - reflexivity.
  - destruct (exec e s db) as [db' r]. apply IH.
Qed.

(** The ownership test reads the store and lets the rest run only for the
    owner. *)
Lemma run_owned (e : Env) (id userId : uuid) (k : Try Response) (db : DB) :
  run e (owned id userId k) db =
  if existsb (fun c => (c_id c =? id) && (c_user_id c =? userId)) (conversations db)
  then run e k db
  else (db, inr (error 404 "Conversation not found")).
Proof.
  unfold owned. rewrite run_bind, run_query. simpl.
  rewrite length_map.
  induction (conversations db) as [|c cs IH]; simpl; [reflexivity|].
  destruct ((c_id c =? id) && (c_user_id c =? userId)); simpl; [reflexivity|].
  exact IH.
Qed.

(** A request that passes [authenticateToken] runs its handler. *)
Lemma serve_authenticated (e : Env) (req : Request) (tok : string) (user : Claims)
    (handler : Claims -> Prog Response) :
  protected_handler req = Some handler ->
  token_of (authorization req) = Some tok ->
  tok <> "" ->
  jwt_verify tok (now e) = Some user ->
  serve e req = handler user.
Proof.
  intros Hh Ht Hne Hv. unfold serve, authenticateToken.
  rewrite Hh, Ht. simpl.
  destruct (String.eqb_spec tok ""); [contradiction|]. simpl.
  now rewrite Hv.
Qed.

End Running.

(** * The server: one request alone in the pool *)

Section Alone.
Import Server.
Context {libs : Libs}.

(** Resuming a handler that is alone in the pool until it answers is
    running it. *)
Lemma resume_alone (e : Env) (p : Prog Response) :
  forall (db : DB) (done : list Response),
    schedule (repeat (Resume e 0) (S (statements e p db)))
             {| store := db; in_flight := [p]; answered := done |} =
    {| store := fst (run e p db); in_flight := [];
       answered := done ++ [snd (run e p db)] |}.
Proof.
  induction p as [r|R s k IH]; intros db done.
  - reflexivity.
  - simpl statements. simpl run.
    destruct (exec e s db) as [db1 r] eqn:Hexec.
    change (repeat (Resume e 0) (S (S (statements e (k r) db1))))
      with (Resume e 0 :: repeat (Resume e 0) (S (statements e (k r) db1))).
    unfold schedule. cbn [fold_left].
    replace (act (Resume e 0)
               {| store := db; in_flight := [Query s k]; answered := done |})
      with {| store := db1; in_flight := [k r]; answered := done |}
      by (unfold act; cbn [nth_error in_flight store answered]; now rewrite Hexec).
    apply (IH r db1 done).
Qed.

(** Handling a request from start to end is one schedule of the pool. *)
Lemma handle_is_a_schedule (e : Env) (req : Request) (db : DB) (done : list Response) :
  schedule (Arrive e req :: repeat (Resume e 0) (S (statements e (serve e req) db)))
           {| store := db; in_flight := []; answered := done |} =
  {| store := fst (handle e req db); in_flight := [];
     answered := done ++ [snd (handle e req db)] |}.
Proof. apply resume_alone. Qed.

End Alone.

(** * The server: authentication and sign-up validation *)

Section Gatekeeping.
Import Server.
Context {libs : Libs}.




End Gatekeeping.

(** * The server: accounts *)

Section Accounts.
Import Server.
Context {libs : Libs}.


Lemma email_taken_In (db : DB) (email : string) :
  email_taken db email = true <-> exists u, In u (users db) /\ u_email u = email.
Proof.
  unfold email_taken. rewrite existsb_exists. split.
  - intros [u [Hin Hu]]. exists u. split; [exact Hin|]. now apply String.eqb_eq.
  - intros [u [Hin Hu]]. exists u. split; [exact Hin|]. now apply String.eqb_eq.
Qed.





End Accounts.

(** * The server: [ORDER BY] *)

Section OrderByFacts.
Import Server.
Variable A : Type.
Variable le : A -> A -> bool.



Hypothesis le_total : forall a b, le a b = false -> le b a = true.

Let before (a b : A) : Prop := le a b = true.




End OrderByFacts.

(** * The server: conversations *)

Section Conversations.
Import Server.
Context {libs : Libs}.

Lemma owned_exists (db : DB) (id uid : uuid) :
  (exists c, In c (conversations db) /\ c_id c = id /\ c_user_id c = uid) ->
  existsb (fun c => (c_id c =? id) && (c_user_id c =? uid)) (conversations db) = true.
Proof.
  intros [c [Hin [Hid Hu]]]. apply existsb_exists. exists c. split; [exact Hin|].
  subst. now rewrite !Nat.eqb_refl.
Qed.

Lemma filter_out_then_in (ms : list Message) (id : uuid) :
  filter (fun m => m_conversation_id m =? id)
         (filter (fun m => negb (m_conversation_id m =? id)) ms) = [].
Proof.
  induction ms as [|m ms IH]; simpl; [reflexivity|].
  destruct (m_conversation_id m =? id) eqn:E; simpl; [exact IH|].
  now rewrite E.
Qed.

Lemma filter_out_other (ms : list Message) (id cid : uuid) :
  cid <> id ->
  filter (fun m => m_conversation_id m =? cid)
         (filter (fun m => negb (m_conversation_id m =? id)) ms) =
  filter (fun m => m_conversation_id m =? cid) ms.
Proof.
  intros Hne. induction ms as [|m ms IH]; simpl; [reflexivity|].
  destruct (Nat.eqb_spec (m_conversation_id m) id) as [Hid|Hid]; simpl.
  - destruct (Nat.eqb_spec (m_conversation_id m) cid); [congruence | exact IH].
  - destruct (m_conversation_id m =? cid); [now rewrite IH | exact IH].
Qed.

(** C5. After DELETE /api/conversations/:id by the owner of the
    conversation, the answer is a success, no message of that
    conversation remains, and the other conversations, their messages,
    the users and the settings are as they were. *)
Theorem C5_delete_conversation_cascades
    (e : Env) (req : Request) (db : DB) (id : uuid) (tok : string) (user : Claims) :
  route req = DeleteConversationR id ->
  token_of (authorization req) = Some tok -> tok <> "" ->
  jwt_verify tok (now e) = Some user ->
  (exists c, In c (conversations db) /\ c_id c = id /\ c_user_id c = tk_id user) ->
  let db' := fst (handle e req db) in
  snd (handle e req db) = respond 200 JSuccess /\
  messages_of db' id = [] /\
  (forall m, In m (messages db') -> m_conversation_id m <> id) /\
  messages db' = filter (fun m => negb (m_conversation_id m =? id)) (messages db) /\
  conversations db' = filter (fun c => negb (c_id c =? id)) (conversations db) /\
  (forall cid, cid <> id -> messages_of db' cid = messages_of db cid) /\
  users db' = users db /\
  user_settings db' = user_settings db.
Proof.
  intros Hr Ht Hne Hv Hown db'. subst db'. unfold handle.
  rewrite (@serve_authenticated _ e req tok user (deleteConversation id));
    [| unfold protected_handler; now rewrite Hr | exact Ht | exact Hne | exact Hv].
  unfold deleteConversation.
  rewrite run_catching, run_owned, (owned_exists _ Hown).
  rewrite run_bind, run_query. simpl.
  repeat split.
  - apply filter_out_then_in.
  - intros m Hin. apply filter_In in Hin. destruct Hin as [_ Hin].
    apply negb_true_iff in Hin. now apply Nat.eqb_neq.
  - intros cid Hcid. unfold messages_of. simpl. now apply filter_out_other.
Qed.


End Conversations.

(** * The server: message orders *)

Section MessageOrder.
Import Server.
Context {libs : Libs}.

(** The invariant: every conversation's orders are 1, 2, .., n. *)
Let sound (db : DB) : Prop := forall cid, Spec.gapless db cid.

Lemma one_to_S (n : nat) :
  Spec.one_to (S n) = Spec.one_to n ++ [Z.of_nat (S n)].
Proof.
  unfold Spec.one_to. rewrite seq_S, map_app. reflexivity.
Qed.

Lemma sql_max_snoc (zs : list Z) (z : Z) :
  sql_max (zs ++ [z]) =
  Some (match sql_max zs with
        | Some m => Z.max m z
        | None => z
        end).
Proof.
  induction zs as [|y zs IH]; simpl; [reflexivity|].
  rewrite IH. destruct (sql_max zs) as [m|]; f_equal; lia.
Qed.

Lemma sql_max_one_to (n : nat) :
  match sql_max (Spec.one_to n) with
  | Some m => m
  | None => 0%Z
  end = Z.of_nat n.
Proof.
  induction n as [|n IH]; [reflexivity|].
  rewrite one_to_S, sql_max_snoc.
  destruct (sql_max (Spec.one_to n)) as [m|]; lia.
Qed.

Lemma max_order_gapless (db : DB) (cid : uuid) :
  Spec.gapless db cid ->
  max_order db cid = Z.of_nat (List.length (messages_of db cid)).
Proof.
  intros H. unfold max_order. rewrite H. apply sql_max_one_to.
Qed.

Lemma sound_same_messages (db db' : DB) :
  messages db' = messages db -> sound db -> sound db'.
Proof.
  intros Hm H cid. specialize (H cid).
  unfold Spec.gapless, orders_of, messages_of in *. now rewrite Hm.
Qed.

(** Appending a message whose order is the maximum plus one. *)
Lemma sound_append (db db' : DB) (m : Message) :
  sound db ->
  messages db' = messages db ++ [m] ->
  m_message_order m = (max_order db (m_conversation_id m) + 1)%Z ->
  sound db' /\
  max_order db' (m_conversation_id m) = m_message_order m.
Proof.
  intros Hs Hm Ho.
  assert (Hstep : forall cid, Spec.gapless db' cid).
  { intros cid. specialize (Hs cid). pose proof (max_order_gapless Hs) as Hmax.
    unfold Spec.gapless, orders_of, messages_of in *.
    rewrite Hm, filter_app. simpl.
    destruct (Nat.eqb_spec (m_conversation_id m) cid) as [Heq|Hne].
    - subst cid. rewrite map_app, length_app. simpl.
      rewrite Nat.add_1_r, one_to_S, Hs. f_equal. f_equal.
      rewrite Ho. unfold orders_of, messages_of in Hmax. rewrite Hmax. lia.
    - now rewrite app_nil_r. }
  split; [exact Hstep|].
  rewrite (max_order_gapless (Hstep _)).
  unfold messages_of. rewrite Hm, filter_app. simpl.
  rewrite Nat.eqb_refl, length_app. simpl.
  rewrite Ho, (max_order_gapless (Hs _)). unfold messages_of. lia.
Qed.

Lemma insert_message_effect (e : Env) (cid : uuid) (r c : option string) (o : Z)
    (db : DB) :
  (fst (insert_message e cid r c o db) = db /\
   exists msg, snd (insert_message e cid r c o db) = inl msg) \/
  (exists m, snd (insert_message e cid r c o db) = inr m /\
             messages (fst (insert_message e cid r c o db)) = messages db ++ [m] /\
             m_conversation_id m = cid /\ m_message_order m = o).
Proof.
  unfold insert_message.
  destruct (negb (int4 o)); [left; simpl; eauto|].
  destruct r as [r|]; [|left; simpl; eauto].
  destruct c as [c|]; [|left; simpl; eauto].
  destruct (varchar 20 r) as [r'|]; [|left; simpl; eauto].
  destruct (negb (role_check r')); [left; simpl; eauto|].
  destruct (negb (conversation_exists db cid)); [left; simpl; eauto|].
  right. eexists. simpl. repeat split.
Qed.

Lemma sound_delete (db : DB) (id : uuid) :
  sound db -> sound (delete_conversation id db).
Proof.
  intros Hs cid. unfold Spec.gapless, orders_of, messages_of. simpl.
  destruct (Nat.eq_dec cid id) as [->|Hne].
  - now rewrite filter_out_then_in.
  - rewrite filter_out_other by exact Hne. apply Hs.
Qed.

(** Every statement but the insertion of a message keeps the invariant. *)
Lemma exec_sound (e : Env) (R : Type) (s : Stmt R) (db : DB) :
  is_insert_message s = false -> sound db -> sound (fst (exec e s db)).
Proof.
  intros Hs H.
  destruct s; simpl in *; try discriminate; try exact H;
    try (apply (@sound_same_messages db); [reflexivity | exact H]).
  - unfold insert_user.
    destruct (varchar 255 email), (varchar 255 hash), (varchar 255 name);
      simpl; try exact H.
    destruct (email_taken db s); simpl; [exact H|].
    apply (@sound_same_messages db); [reflexivity | exact H].
  - unfold insert_conversation.
    destruct (varchar 255 title); simpl; [|exact H].
    destruct (user_exists db uid); simpl; [|exact H].
    apply (@sound_same_messages db); [reflexivity | exact H].
  - destruct (conversation_exists db id); simpl; [|exact H].
    destruct (varchar 255 title); simpl; [|exact H].
    apply (@sound_same_messages db); [reflexivity | exact H].
  - now apply sound_delete.
  - destruct (int4 (max_order db cid + 1)); exact H.
  - destruct (retitle_new_chats (now e) preview id (conversations db)); simpl;
      [|exact H].
    apply (@sound_same_messages db); [reflexivity | exact H].
  - unfold upsert_settings.
    destruct (varchar 100 model); simpl; [|exact H].
    destruct (negb (user_exists db uid)); simpl; [exact H|].
    destruct (find _ _); simpl;
      (apply (@sound_same_messages db); [reflexivity | exact H]).
Qed.

(** A program keeps the invariant. *)
Let keeps {A : Type} (p : Prog A) : Prop :=
  forall e db, sound db -> sound (fst (run e p db)).

Lemma keeps_ret (A : Type) (a : A) : keeps (Ret a).
Proof. intros e db H. exact H. Qed.

Lemma keeps_step (A R : Type) (s : Stmt R) (k : Outcome R -> Prog A) :
  is_insert_message s = false -> (forall r, keeps (k r)) -> keeps (Query s k).
Proof.
  intros Hs Hk e db H. simpl.
  pose proof (@exec_sound e R s db Hs H) as H1.
  destruct (exec e s db) as [db1 r]. now apply Hk.
Qed.

Lemma keeps_query (R : Type) (s : Stmt R) :
  is_insert_message s = false -> keeps (query s).
Proof.
  intros Hs. apply keeps_step; [exact Hs|]. intros r. apply keeps_ret.
Qed.

Lemma keeps_bind (A B : Type) (p : Try A) (k : A -> Try B) :
  keeps p -> (forall a, keeps (k a)) -> keeps (bind p k).
Proof.
  intros Hp Hk e db H. rewrite run_bind.
  specialize (Hp e db H). destruct (run e p db) as [db1 [msg|a]]; [exact Hp|].
  now apply Hk.
Qed.

Lemma keeps_catching (prefix : string) (p : Try Response) :
  keeps p -> keeps (catching prefix p).
Proof.
  intros Hp e db H. rewrite run_catching.
  specialize (Hp e db H). now destruct (run e p db) as [db1 [msg|r]].
Qed.

Lemma keeps_owned (id uid : uuid) (k : Try Response) :
  keeps k -> keeps (owned id uid k).
Proof.
  intros Hk e db H. rewrite run_owned.
  destruct (existsb _ _); [now apply Hk | exact H].
Qed.

(** Reading the next order and inserting with it. *)
Lemma keeps_next_insert (A : Type) (id : uuid) (r c : option string)
    (k : Z -> Message -> Try A) :
  (forall o m, keeps (k o m)) ->
  keeps (messageOrder <- query (SelectNextOrder id) ;;
         message <- query (InsertMessage id r c messageOrder) ;;
         k messageOrder message).
Proof.
  intros Hk e db H. rewrite run_bind, run_query. simpl exec.
  destruct (int4 (max_order db id + 1)); [|exact H]. cbv beta iota.
  rewrite run_bind, run_query. simpl exec.
  destruct (insert_message_effect e id r c (max_order db id + 1) db)
    as [[Hdb [msg Hout]]|[m [Hout [Hms [Hcid Hord]]]]];
    destruct (insert_message e id r c (max_order db id + 1) db) as [db1 out];
    simpl in *; subst.
  - exact H.
  - apply Hk. eapply sound_append; eauto.
Qed.

Lemma insertAll_cons (id : uuid) (msg : BulkMsg) (rest : list BulkMsg)
    (messageOrder : Z) (acc : list MsgView) :
  insertAll id (msg :: rest) messageOrder acc =
  (row <- query (InsertMessage id (bm_role msg) (bm_content msg) (messageOrder + 1)) ;;
   (if is_user (bm_role msg) && (messageOrder + 1 =? 1)%Z
    then query (RetitleIfNewChat (titlePreview (text (bm_content msg))) id)
    else ok tt) ;;;
   insertAll id rest (messageOrder + 1)
     (acc ++ [{| mv_id := Some (m_id row); mv_role := m_role row;
                 mv_content := m_content row; mv_created_at := m_created_at row;
                 mv_message_order := None |}])).
Proof. reflexivity. Qed.

(** The loop of the bulk route, started with the current maximum. *)
Lemma insertAll_sound (e : Env) (id : uuid) (msgs : list BulkMsg) :
  forall (acc : list MsgView) (db : DB),
    sound db ->
    sound (fst (run e (insertAll id msgs (max_order db id) acc) db)).
Proof.
  induction msgs as [|msg rest IH]; intros acc db H.
  - exact H.
  - rewrite insertAll_cons, run_bind, run_query. simpl exec.
    destruct (insert_message_effect e id (bm_role msg) (bm_content msg)
                (max_order db id + 1) db)
      as [[Hdb [m Hout]]|[m [Hout [Hms [Hcid Hord]]]]];
      destruct (insert_message e id (bm_role msg) (bm_content msg)
                  (max_order db id + 1) db) as [db1 out];
      simpl in *; subst.
    + exact H.
    + destruct (@sound_append db db1 m H Hms) as [H1 Hmax];
        [now rewrite Hord|].
      rewrite Hord in Hmax.
      rewrite run_bind.
      destruct (is_user (bm_role msg) && (max_order db (m_conversation_id m) + 1 =? 1)%Z).
      * rewrite run_query. simpl exec.
        destruct (retitle_new_chats (now e) _ _ (conversations db1)) as [cs|];
          cbv beta iota.
        -- rewrite <- Hmax.
           change (max_order db1 (m_conversation_id m))
             with (max_order (set_conversations db1 cs) (m_conversation_id m)).
           apply IH. apply (@sound_same_messages db1); [reflexivity | exact H1].
        -- exact H1.
      * simpl run. rewrite <- Hmax. now apply IH.
Qed.

Lemma handler_sound (req : Request) (handler : Claims -> Prog Response) (user : Claims) :
  protected_handler req = Some handler -> keeps (handler user).
Proof.
  unfold protected_handler. intros Hh.
  destruct (route req); inversion Hh; subst; clear Hh.
  - apply keeps_ret.
  - apply keeps_catching, keeps_bind; [now apply keeps_query|].
    intros a. apply keeps_ret.
  - apply keeps_catching, keeps_bind; [now apply keeps_query|].
    intros a. apply keeps_ret.
  - apply keeps_catching, keeps_owned.
    apply keeps_bind; [now apply keeps_query|]. intros a.
    apply keeps_bind; [now apply keeps_query|]. intros b.
    apply keeps_bind; [destruct a; apply keeps_ret|]. intros c.
    apply keeps_ret.
  - unfold updateConversation.
    destruct (negb (truthy (b_title (body req)))); [apply keeps_ret|].
    apply keeps_catching, keeps_owned.
    apply keeps_bind; [now apply keeps_query|]. intros a.
    apply keeps_bind; [destruct a; apply keeps_ret|]. intros c.
    apply keeps_ret.
  - apply keeps_catching, keeps_owned.
    apply keeps_bind; [now apply keeps_query|]. intros a. apply keeps_ret.
  - unfold addMessage.
    destruct (negb (truthy (b_role (body req))) || negb (truthy (b_content (body req))));
      [apply keeps_ret|].
    destruct (negb (existsb _ _)); [apply keeps_ret|].
    apply keeps_catching, keeps_owned.
    apply (@keeps_next_insert _ id (b_role (body req)) (b_content (body req))
             (fun messageOrder message => _)).
    intros o m.
    apply keeps_bind; [now apply keeps_query|]. intros a.
    apply keeps_bind.
    + destruct (is_user _ && _); [now apply keeps_query | apply keeps_ret].
    + intros b. apply keeps_ret.
  - apply keeps_catching, keeps_owned.
    apply keeps_bind; [now apply keeps_query|]. intros a. apply keeps_ret.
  - unfold addMessagesBulk.
    destruct (b_messages (body req)) as [[|msg rest]|]; try apply keeps_ret.
    apply keeps_catching, keeps_owned.
    intros e db H. rewrite run_bind, run_query. simpl exec. cbv beta iota.
    rewrite run_bind.
    pose proof (@insertAll_sound e id (msg :: rest) [] db H) as H1.
    destruct (run e (insertAll id (msg :: rest) (max_order db id) []) db)
      as [db1 [m|inserted]]; [exact H1|].
    revert H1. generalize db1. fold (keeps (query (TouchConversation id) ;;;
                                            ok (respond 201 (JBulk inserted)))).
    apply keeps_bind; [now apply keeps_query|]. intros a. apply keeps_ret.
  - apply keeps_catching, keeps_bind; [now apply keeps_query|].
    intros a. destruct a; apply keeps_ret.
  - apply keeps_catching, keeps_bind; [now apply keeps_query|].
    intros a. apply keeps_ret.
Qed.

(** A message that is added gets the maximum of its conversation plus one,
    and this is the order the answer reports. *)
Lemma addMessage_assigns_next_order (e : Env) (id : uuid) (b : Body) (user : Claims)
    (db : DB) (v : MsgView) :
  snd (run e (addMessage id b user) db) = respond 201 (JMessage v) ->
  mv_message_order v = Some (max_order db id + 1)%Z /\
  exists m, messages (fst (run e (addMessage id b user) db)) = messages db ++ [m] /\
            m_conversation_id m = id /\
            m_message_order m = (max_order db id + 1)%Z.
Proof.
  unfold addMessage.
  destruct (negb (truthy (b_role b)) || negb (truthy (b_content b)));
    [discriminate|].
  destruct (negb (existsb _ _)); [discriminate|].
  rewrite run_catching, run_owned.
  destruct (existsb _ (conversations db)); [|discriminate].
  rewrite run_bind, run_query. simpl exec.
  destruct (int4 (max_order db id + 1)); [|discriminate]. cbv beta iota.
  rewrite run_bind, run_query. simpl exec.
  destruct (insert_message_effect e id (b_role b) (b_content b) (max_order db id + 1) db)
    as [[Hdb [msg Hout]]|[m [Hout [Hms [Hcid Hord]]]]];
    destruct (insert_message e id (b_role b) (b_content b) (max_order db id + 1) db)
      as [db1 out]; simpl in Hout; subst out; cbv beta iota; [discriminate|].
  simpl in Hms. rewrite run_bind, run_query. simpl exec. cbv beta iota.
  rewrite run_bind.
  destruct (is_user (b_role b) && (max_order db id + 1 =? 1)%Z).
  - rewrite run_query. simpl exec.
    destruct (retitle_new_chats _ _ _ _); cbv beta iota; [|discriminate].
    simpl. intros H. injection H as <-. simpl. rewrite Hord.
    split; [reflexivity|]. exists m. auto.
  - simpl. intros H. injection H as <-. simpl. rewrite Hord.
    split; [reflexivity|]. exists m. auto.
Qed.

(** The loop of the bulk route stores the messages with the orders that
    follow its counter, one after the other. *)
Lemma insertAll_assigns_orders (e : Env) (id : uuid) (msgs : list BulkMsg) :
  forall (messageOrder : Z) (acc : list MsgView) (db db' : DB) (out : list MsgView),
    run e (insertAll id msgs messageOrder acc) db = (db', inr out) ->
    exists ms,
      messages db' = messages db ++ ms /\
      map m_message_order ms =
        map (fun k => (messageOrder + Z.of_nat k)%Z) (seq 1 (List.length msgs)) /\
      Forall (fun m => m_conversation_id m = id) ms.
Proof.
  induction msgs as [|msg rest IH]; intros mo acc db db' out Hrun.
  - simpl in Hrun. injection Hrun as <- _. exists []. rewrite app_nil_r. now repeat split.
  - rewrite insertAll_cons, run_bind, run_query in Hrun. simpl exec in Hrun.
    destruct (insert_message_effect e id (bm_role msg) (bm_content msg) (mo + 1) db)
      as [[Hdb [m Hout]]|[m [Hout [Hms [Hcid Hord]]]]];
      destruct (insert_message e id (bm_role msg) (bm_content msg) (mo + 1) db)
        as [db1 r]; simpl in Hout; subst r; [discriminate|].
    simpl in Hms. rewrite run_bind in Hrun.
    assert (Hnext : forall db2, messages db2 = messages db1 ->
              run e (insertAll id rest (mo + 1)
                       (acc ++ [{| mv_id := Some (m_id m); mv_role := m_role m;
                                   mv_content := m_content m;
                                   mv_created_at := m_created_at m;
                                   mv_message_order := None |}])) db2 = (db', inr out) ->
              exists ms,
                messages db' = messages db ++ ms /\
                map m_message_order ms =
                  map (fun k => (mo + Z.of_nat k)%Z) (seq 1 (List.length (msg :: rest))) /\
                Forall (fun x => m_conversation_id x = id) ms).
    { intros db2 Hsame Hrest. apply IH in Hrest.
      destruct Hrest as [ms [Happ [Hords Hall]]].
      exists (m :: ms). split; [|split].
      - rewrite Happ, Hsame, Hms, <- app_assoc. reflexivity.
      - simpl. rewrite Hord, Hords. f_equal.
        rewrite <- (seq_shift (List.length rest) 1), map_map.
        apply map_ext. intros k. lia.
      - now constructor. }
    destruct (is_user (bm_role msg) && (mo + 1 =? 1)%Z).
    + rewrite run_query in Hrun. simpl exec in Hrun.
      destruct (retitle_new_chats _ _ _ _) as [cs|];
        cbv beta iota in Hrun; [|discriminate].
      exact (Hnext (set_conversations db1 cs) eq_refl Hrun).
    + change (run e (ok tt) db1) with (db1, @inr string unit tt) in Hrun.
      cbv beta iota in Hrun. exact (Hnext db1 eq_refl Hrun).
Qed.

Lemma addMessagesBulk_assigns_following_orders (e : Env) (id : uuid) (b : Body)
    (user : Claims) (db : DB) (vs : list MsgView) :
  snd (run e (addMessagesBulk id b user) db) = respond 201 (JBulk vs) ->
  exists ms,
    messages (fst (run e (addMessagesBulk id b user) db)) = messages db ++ ms /\
    map m_message_order ms =
      map (fun k => (max_order db id + Z.of_nat k)%Z) (seq 1 (List.length ms)) /\
    Forall (fun m => m_conversation_id m = id) ms.
Proof.
  unfold addMessagesBulk.
  destruct (b_messages b) as [[|msg rest]|]; try discriminate.
  rewrite run_catching, run_owned.
  destruct (existsb _ (conversations db)); [|discriminate].
  rewrite run_bind, run_query. simpl exec. cbv beta iota.
  rewrite run_bind.
  destruct (run e (insertAll id (msg :: rest) (max_order db id) []) db)
    as [db1 [m|inserted]] eqn:Hloop; [discriminate|].
  apply insertAll_assigns_orders in Hloop. destruct Hloop as [ms [Happ [Hords Hall]]].
  rewrite run_bind, run_query. simpl. intros _.
  exists ms. split; [exact Happ|]. split; [|exact Hall].
  assert (Hlen : List.length ms = List.length (msg :: rest)).
  { apply (f_equal (@List.length Z)) in Hords.
    now rewrite !length_map, length_seq in Hords. }
  rewrite Hlen. exact Hords.
Qed.

Lemma handle_protected (e : Env) (req : Request) (db : DB)
    (handler : Claims -> Prog Response) (code : nat) (j : Json) :
  protected_handler req = Some handler ->
  snd (handle e req db) = respond code j ->
  code = 201 ->
  exists user, handle e req db = run e (handler user) db.
Proof.
  intros Hh Hr ->. unfold handle, serve in *. rewrite Hh in *.
  unfold authenticateToken in *.
  destruct (negb (truthy (token_of (authorization req)))); [discriminate|].
  destruct (jwt_verify _ _) as [user|]; [|discriminate].
  now exists user.
Qed.

Lemma serve_sound (e : Env) (req : Request) : keeps (serve e req).
Proof.
  unfold serve.
  destruct (protected_handler req) as [handler|] eqn:Hh.
  - unfold authenticateToken.
    destruct (negb (truthy (token_of (authorization req)))); [apply keeps_ret|].
    destruct (jwt_verify _ _) as [user|]; [|apply keeps_ret].
    now apply (handler_sound req).
  - destruct (route req); try apply keeps_ret.
    + unfold health. apply keeps_step; [reflexivity|].
      intros [m|t]; apply keeps_ret.
    + unfold signup.
      destruct (_ || _); [apply keeps_ret|].
      destruct (_ <? _); [apply keeps_ret|].
      apply keeps_catching, keeps_bind; [now apply keeps_query|]. intros a.
      destruct (0 <? _); [apply keeps_ret|].
      apply keeps_bind; [now apply keeps_query|]. intros u. apply keeps_ret.
    + unfold login.
      destruct (_ || _); [apply keeps_ret|].
      apply keeps_catching, keeps_bind; [now apply keeps_query|]. intros a.
      destruct a as [|u us]; [apply keeps_ret|].
      destruct (negb _); [apply keeps_ret|].
      apply keeps_bind; [now apply keeps_query|]. intros x. apply keeps_ret.
Qed.

Lemma handle_sound (e : Env) (req : Request) (db : DB) :
  sound db -> sound (fst (handle e req db)).
Proof. apply serve_sound. Qed.

Lemma handle_all_sound (reqs : list (Env * Request)) :
  forall db, sound db -> sound (handle_all reqs db).
Proof.
  induction reqs as [|[e req] rest IH]; intros db H; simpl.
  - exact H.
  - apply IH. now apply handle_sound.
Qed.

(** The loop of the bulk route does not read [message_order]. *)
Lemma insertAll_ignores_order (e : Env) (id : uuid) (msgs : list BulkMsg) :
  forall (messageOrder : Z) (acc : list MsgView) (db : DB),
    run e (insertAll id
             (map (fun m => {| bm_role := bm_role m; bm_content := bm_content m;
                               bm_message_order := None |}) msgs)
             messageOrder acc) db =
    run e (insertAll id msgs messageOrder acc) db.
Proof.
  induction msgs as [|msg rest IH]; intros mo acc db; [reflexivity|].
  simpl map. rewrite !insertAll_cons, !run_bind. simpl bm_role. simpl bm_content.
  destruct (run e (query (InsertMessage id (bm_role msg) (bm_content msg) (mo + 1))) db)
    as [db1 [m|row]]; [reflexivity|].
  rewrite !run_bind.
  destruct (run e _ db1) as [db2 [m|x]]; [reflexivity|]. apply IH.
Qed.

Lemma handle_ignores_order (e : Env) (req : Request) (db : DB) :
  handle e (Spec.without_message_order req) db = handle e req db.
Proof.
  unfold handle, serve, protected_handler. destruct req as [r a b].
  destruct r; try reflexivity.
  unfold Spec.without_message_order, authenticateToken.
  cbn [route body authorization b_messages].
  destruct (negb (truthy (token_of a))); [reflexivity|].
  destruct (jwt_verify _ _) as [user|]; [|reflexivity].
  unfold addMessagesBulk. cbn [body b_messages].
  destruct (b_messages b) as [[|msg rest]|]; try reflexivity.
  cbn [option_map map].
  rewrite !run_catching, !run_owned.
  destruct (existsb _ _); [|reflexivity].
  rewrite !run_bind, !run_query. simpl exec. cbv beta iota.
  rewrite !run_bind.
  rewrite (insertAll_ignores_order e id (msg :: rest)). reflexivity.
Qed.

End MessageOrder.

(** * The server: the order of messages, request after request *)

Section MessageOrderClaim.
Import Server.
Context {libs : Libs}.

Lemma one_to_increasing (n : nat) : StronglySorted Z.lt (Spec.one_to n).
Proof.
  unfold Spec.one_to. generalize 1. induction n as [|n IH]; intros start; simpl.
  - constructor.
  - constructor; [apply IH|].
    apply Forall_forall. intros z Hz. apply in_map_iff in Hz.
    destruct Hz as [k [<- Hk]]. apply in_seq in Hk. lia.
Qed.

(** C1, amended. When the requests are handled one after the other, the
    orders of every conversation's stored messages are 1, 2, 3, .. in the
    order the messages were stored, strictly increasing and without a gap.
    A message that is added gets the maximum order of its conversation plus
    one; the messages of a bulk insert get the orders that follow the
    maximum, in array order; and a [message_order] sent in a request body
    changes neither the store nor the answer. *)
Theorem C1_message_order_gapless_request_after_request
    (reqs : list (Env * Request)) :
  (forall cid,
     Spec.gapless (handle_all reqs empty_db) cid /\
     StronglySorted Z.lt (orders_of (handle_all reqs empty_db) cid)) /\
  (forall e req db id v,
     route req = PostMessage id ->
     snd (handle e req db) = respond 201 (JMessage v) ->
     mv_message_order v = Some (max_order db id + 1)%Z /\
     exists m, messages (fst (handle e req db)) = messages db ++ [m] /\
               m_conversation_id m = id /\
               m_message_order m = (max_order db id + 1)%Z) /\
  (forall e req db id vs,
     route req = PostMessagesBulk id ->
     snd (handle e req db) = respond 201 (JBulk vs) ->
     exists ms,
       messages (fst (handle e req db)) = messages db ++ ms /\
       map m_message_order ms =
         map (fun k => (max_order db id + Z.of_nat k)%Z) (seq 1 (List.length ms)) /\
       Forall (fun m => m_conversation_id m = id) ms) /\
  (forall e req db, handle e (Spec.without_message_order req) db = handle e req db).
Proof.
  split; [|split; [|split]].
  - intros cid.
    assert (H : Spec.gapless (handle_all reqs empty_db) cid).
    { apply handle_all_sound. intros c. reflexivity. }
    split; [exact H|]. rewrite H. apply one_to_increasing.
  - intros e req db id v Hr Hv.
    destruct (@handle_protected _ e req db (addMessage id (body req)) 201 (JMessage v))
      as [user Hu]; [unfold protected_handler; now rewrite Hr | exact Hv | reflexivity |].
    rewrite Hu in *. now apply addMessage_assigns_next_order.
  - intros e req db id vs Hr Hv.
    destruct (@handle_protected _ e req db (addMessagesBulk id (body req)) 201 (JBulk vs))
      as [user Hu]; [unfold protected_handler; now rewrite Hr | exact Hv | reflexivity |].
    rewrite Hu in *. eapply addMessagesBulk_assigns_following_orders. exact Hv.
  - intros e req db. apply handle_ignores_order.
Qed.

End MessageOrderClaim.

(** * The server: [UNIQUE (email)] holds in every store the server builds *)

Section UniqueEmails.
Import Server.
Context {libs : Libs}.


Lemma update_where_emails (q : User -> bool) (t : timestamp) (us : list User) :
  map u_email (update_where q (logged_in t) us) = map u_email us.
Proof.
  unfold update_where. rewrite map_map. apply map_ext.
  intros u. now destruct (q u).
Qed.

Lemma exec_emails_unique (e : Env) (R : Type) (s : Stmt R) (db : DB) :
  Spec.emails_unique db -> Spec.emails_unique (fst (exec e s db)).
Proof.
  unfold Spec.emails_unique. intros H.
  destruct s; simpl; try exact H.
  - unfold insert_user.
    destruct (varchar 255 email) as [email'|]; [|exact H].
    destruct (varchar 255 hash); [|exact H].
    destruct (varchar 255 name); [|exact H].
    destruct (email_taken db email') eqn:Htaken; simpl; [exact H|].
    rewrite map_app. simpl.
    apply NoDup_app; [exact H | repeat constructor; intros [] | ].
    intros x Hx [<-|[]].
    apply in_map_iff in Hx. destruct Hx as [u [Hu Hin]].
    assert (email_taken db (u_email u) = true) by (apply email_taken_In; eauto).
    congruence.
  - now rewrite update_where_emails.
  - unfold insert_conversation.
    destruct (varchar 255 title); [|exact H].
    now destruct (user_exists db uid).
  - destruct (conversation_exists db id); [|exact H].
    now destruct (varchar 255 title).
  - now destruct (int4 (max_order db cid + 1)).
  - unfold insert_message.
    destruct (negb (int4 order)); [exact H|].
    destruct role as [r|]; [|exact H]. destruct content as [c|]; [|exact H].
    destruct (varchar 20 r) as [r'|]; [|exact H].
    destruct (negb (role_check r')); [exact H|].
    now destruct (negb (conversation_exists db cid)).
  - now destruct (retitle_new_chats (now e) preview id (conversations db)).
  - unfold upsert_settings.
    destruct (varchar 100 model); [|exact H].
    destruct (negb (user_exists db uid)); [exact H|].
    now destruct (find _ _).
Qed.


End UniqueEmails.

(** * The server: requests that only read *)

Section ReadOnly.
Import Server Http.
Context {libs : Libs}.

Lemma select_reads (e : Env) (R : Type) (s : Stmt R) (db : DB) :
  is_select s = true -> fst (exec e s db) = db.
Proof.
  destruct s; simpl; try discriminate; try reflexivity.
  intros _. now destruct (int4 (max_order db cid + 1)).
Qed.

Lemma selects_run (A : Type) (p : Prog A) :
  selects p -> forall e db, fst (run e p db) = db.
Proof.
  induction 1 as [a|R s k Hs _ IH]; intros e db; simpl; [reflexivity|].
  pose proof (select_reads e s db Hs) as Hdb.
  destruct (exec e s db) as [db' r]. simpl in Hdb. subst db'. apply IH.
Qed.

Lemma selects_query_try (R : Type) (s : Stmt R) :
  is_select s = true -> selects (query s).
Proof. intros H. apply selects_query; [exact H|]. intros r. constructor. Qed.

Lemma selects_bind (A B : Type) (p : Try A) (k : A -> Try B) :
  selects p -> (forall a, selects (k a)) -> selects (bind p k).
Proof.
  intros Hp Hk. induction Hp as [[msg|a]|R s c Hs _ IH]; simpl.
  - constructor.
  - apply Hk.
  - apply selects_query; [exact Hs|]. exact IH.
Qed.

Lemma selects_catching (prefix : string) (p : Try Response) :
  selects p -> selects (catching prefix p).
Proof.
  intros Hp. induction Hp as [[msg|a]|R s c Hs _ IH]; simpl.
  - constructor.
  - constructor.
  - apply selects_query; [exact Hs|]. exact IH.
Qed.

Lemma selects_owned (id uid : uuid) (k : Try Response) :
  selects k -> selects (owned id uid k).
Proof.
  intros Hk. unfold owned. apply selects_bind.
  - now apply selects_query_try.
  - intros rows. destruct (List.length rows =? 0); [constructor | exact Hk].
Qed.

Lemma selects_first_row (A : Type) (rows : list A) : selects (first_row rows).
Proof. destruct rows; constructor. Qed.

Lemma selects_authenticateToken (e : Env) (req : Request)
    (next : Claims -> Prog Response) :
  (forall user, selects (next user)) -> selects (authenticateToken e req next).
Proof.
  intros Hn. unfold authenticateToken.
  destruct (negb (truthy (token_of (authorization req)))); [constructor|].
  destruct (jwt_verify _ _); [apply Hn | constructor].
Qed.

(** X1. A GET request, and a request that matches no route, sends only
    SELECT statements and leaves the store as it was, whoever sends it and
    whatever the answer is. *)
Theorem X1_get_requests_only_read (e : Env) (req : Request) (db : DB) :
  method (route req) = Some GET \/ method (route req) = None ->
  selects (serve e req) /\ fst (handle e req db) = db.
Proof.
  intros Hm.
  assert (Hs : selects (serve e req)).
  { unfold serve, protected_handler.
    destruct (route req) eqn:Hr; simpl in Hm;
      try (destruct Hm; discriminate);
      try apply selects_authenticateToken; try intros user.
    - unfold health. apply selects_query; [reflexivity|].
      intros [msg|t]; constructor.
    - constructor.
    - unfold listConversations. apply selects_catching, selects_bind.
      + now apply selects_query_try.
      + intros rows. constructor.
    - unfold getConversation.
      apply selects_catching, selects_owned, selects_bind;
        [now apply selects_query_try | intros convResult].
      apply selects_bind; [now apply selects_query_try | intros messagesResult].
      apply selects_bind; [apply selects_first_row | intros c]. constructor.
    - unfold getMessages.
      apply selects_catching, selects_owned, selects_bind;
        [now apply selects_query_try | intros rows]. constructor.
    - unfold getSettings. apply selects_catching, selects_bind;
        [now apply selects_query_try | intros rows].
      destruct rows; constructor.
    - constructor. }
  split; [exact Hs|]. apply selects_run, Hs.
Qed.

End ReadOnly.

(** * The server: what a refused request leaves behind *)

Section Refusals.
Import Server Http.
Context {libs : Libs}.

(** A part of a handler that, if it answers at all, does not answer 4xx. *)
Let decided (p : Try Response) : Prop :=
  forall e db, match snd (run e p db) with
               | inr r => refusal r = false
               | inl _ => True
               end.

(** A part of a handler that has not changed the store when it answers
    4xx. *)
Let gentle (p : Try Response) : Prop :=
  forall e db, match snd (run e p db) with
               | inr r => refusal r = true -> fst (run e p db) = db
               | inl _ => True
               end.

Lemma decided_ok (r : Response) : refusal r = false -> decided (ok r).
Proof. intros H e db. exact H. Qed.

Lemma decided_bind (A : Type) (p : Try A) (k : A -> Try Response) :
  (forall a, decided (k a)) -> decided (bind p k).
Proof.
  intros Hk e db. rewrite run_bind.
  destruct (run e p db) as [db1 [msg|a]]; [exact I|]. apply Hk.
Qed.

Lemma decided_gentle (p : Try Response) : decided p -> gentle p.
Proof.
  intros H e db. specialize (H e db).
  destruct (snd (run e p db)) as [msg|r]; [exact I|].
  intros Hr. congruence.
Qed.

Lemma gentle_ok (r : Response) : gentle (ok r).
Proof. intros e db. simpl. intros _. reflexivity. Qed.

Lemma gentle_select (R : Type) (s : Stmt R) (k : R -> Try Response) :
  is_select s = true -> (forall a, gentle (k a)) -> gentle (bind (query s) k).
Proof.
  intros Hs Hk e db. rewrite run_bind, run_query.
  pose proof (select_reads e s db Hs) as Hdb.
  destruct (exec e s db) as [db1 [msg|a]]; simpl in Hdb; subst db1; [exact I|].
  apply Hk.
Qed.

Lemma gentle_owned (id uid : uuid) (k : Try Response) :
  gentle k -> gentle (owned id uid k).
Proof.
  intros Hk. unfold owned. apply gentle_select; [reflexivity|].
  intros rows. destruct (List.length rows =? 0); [apply gentle_ok | exact Hk].
Qed.

Lemma gentle_catching (e : Env) (prefix : string) (p : Try Response) (db : DB) :
  gentle p ->
  refusal (snd (run e (catching prefix p) db)) = true ->
  fst (run e (catching prefix p) db) = db.
Proof.
  intros Hp. rewrite run_catching. specialize (Hp e db).
  destruct (run e p db) as [db1 [msg|r]]; simpl in *.
  - discriminate.
  - exact Hp.
Qed.

Lemma handler_gentle (e : Env) (req : Request) (db : DB)
    (handler : Claims -> Prog Response) (user : Claims) :
  protected_handler req = Some handler ->
  refusal (snd (run e (handler user) db)) = true ->
  fst (run e (handler user) db) = db.
Proof.
  unfold protected_handler.
  destruct (route req); intros Hh; inversion Hh; subst handler; clear Hh.
  - intros _. reflexivity.
  - apply gentle_catching, decided_gentle, decided_bind. intros rows.
    now apply decided_ok.
  - apply gentle_catching, decided_gentle, decided_bind. intros c.
    now apply decided_ok.
  - apply gentle_catching, gentle_owned, decided_gentle.
    repeat (apply decided_bind; intros ?). now apply decided_ok.
  - unfold updateConversation.
    destruct (negb (truthy (b_title (body req)))); [intros _; reflexivity|].
    apply gentle_catching, gentle_owned, decided_gentle.
    repeat (apply decided_bind; intros ?). now apply decided_ok.
  - apply gentle_catching, gentle_owned, decided_gentle.
    repeat (apply decided_bind; intros ?). now apply decided_ok.
  - unfold addMessage.
    destruct (_ || _); [intros _; reflexivity|].
    destruct (negb _); [intros _; reflexivity|].
    apply gentle_catching, gentle_owned, decided_gentle.
    repeat (apply decided_bind; intros ?). now apply decided_ok.
  - apply gentle_catching, gentle_owned, decided_gentle.
    repeat (apply decided_bind; intros ?). now apply decided_ok.
  - unfold addMessagesBulk.
    destruct (b_messages (body req)) as [[|m ms]|]; try (intros _; reflexivity).
    apply gentle_catching, gentle_owned, decided_gentle.
    repeat (apply decided_bind; intros ?). now apply decided_ok.
  - apply gentle_catching, decided_gentle, decided_bind. intros rows.
    destruct rows; now apply decided_ok.
  - apply gentle_catching, decided_gentle, decided_bind. intros s.
    now apply decided_ok.
Qed.

(** X2. A request that is answered with a status of the 4xx class (400,
    401, 403, 404) has changed nothing in the store. *)
Theorem X2_refused_request_changes_nothing (e : Env) (req : Request) (db : DB) :
  refusal (snd (handle e req db)) = true -> fst (handle e req db) = db.
Proof.
  unfold handle, serve.
  destruct (protected_handler req) as [handler|] eqn:Hh.
  - unfold authenticateToken.
    destruct (negb (truthy (token_of (authorization req)))); [intros _; reflexivity|].
    destruct (jwt_verify _ _) as [user|]; [|intros _; reflexivity].
    now apply handler_gentle with (req := req).
  - destruct (route req); try (intros _; reflexivity).
    + unfold signup.
      destruct (_ || _); [intros _; reflexivity|].
      destruct (_ <? 6); [intros _; reflexivity|].
      apply gentle_catching, gentle_select; [reflexivity|]. intros rows.
      destruct (0 <? List.length rows); [apply gentle_ok|].
      apply decided_gentle, decided_bind. intros u. now apply decided_ok.
    + unfold login.
      destruct (_ || _); [intros _; reflexivity|].
      apply gentle_catching, gentle_select; [reflexivity|]. intros rows.
      destruct rows as [|u rows]; [apply gentle_ok|].
      destruct (negb _); [apply gentle_ok|].
      apply decided_gentle, decided_bind. intros _. now apply decided_ok.
Qed.

End Refusals.

(** * The server: conversations of somebody else *)

Section Ownership.
Import Server Http.
Context {libs : Libs}.








End Ownership.

(** * The server: what holds of the store under every schedule *)

Section Schedules.
Import Server Http.
Context {libs : Libs}.

(** What every statement keeps holds of the store however the handlers
    in flight are interleaved. *)
Lemma schedule_invariant (I : DB -> Prop) :
  (forall e R (s : Stmt R) db, I db -> I (fst (exec e s db))) ->
  forall acts n, I (store n) -> I (store (schedule acts n)).
Proof.
  intros Hexec acts. unfold schedule.
  induction acts as [|a acts IH]; intros n Hn; [exact Hn|].
  cbn [fold_left]. apply IH.
  destruct a as [e req|e i]; simpl; [exact Hn|].
  destruct (nth_error (in_flight n) i) as [[r|R s k]|]; simpl; try exact Hn.
  specialize (Hexec e R s (store n) Hn).
  destruct (exec e s (store n)) as [db' r]. exact Hexec.
Qed.

Lemma existsb_ids (A : Type) (f : A -> uuid) (xs ys : list A) (i : uuid) :
  map f xs = map f ys ->
  existsb (fun x => f x =? i) xs = existsb (fun x => f x =? i) ys.
Proof.
  revert ys. induction xs as [|x xs IH]; intros [|y ys] H; simpl in *;
    try discriminate; [reflexivity|].
  injection H as Hx Hxs. now rewrite Hx, (IH ys Hxs).
Qed.

Lemma existsb_snoc (A : Type) (p : A -> bool) (xs : list A) (x : A) :
  existsb p (xs ++ [x]) = existsb p xs || p x.
Proof. rewrite existsb_app. simpl. now rewrite orb_false_r. Qed.

Lemma update_where_map (A B : Type) (f : A -> B) (p : A -> bool) (g : A -> A)
    (rows : list A) :
  (forall r, f (g r) = f r) -> map f (update_where p g rows) = map f rows.
Proof.
  intros H. unfold update_where. rewrite map_map. apply map_ext.
  intros r. destruct (p r); [apply H | reflexivity].
Qed.

Lemma retitle_new_chats_map (B : Type) (f : Conversation -> B) (t : timestamp)
    (preview : string) (id : uuid) :
  (forall title c, f (retitle t title c) = f c) ->
  forall rows rows',
    retitle_new_chats t preview id rows = Some rows' -> map f rows' = map f rows.
Proof.
  intros Hf. induction rows as [|c rows IH]; simpl; intros rows' H.
  - injection H as <-. reflexivity.
  - destruct (retitle_new_chats t preview id rows) as [rest|]; [|discriminate].
    destruct (c_id c =? id).
    + destruct (varchar 255 _) as [title|]; [|discriminate].
      injection H as <-. simpl. now rewrite Hf, (IH rest).
    + injection H as <-. simpl. now rewrite (IH rest).
Qed.

(** The two columns of a conversation that no UPDATE of the server sets. *)
Let fixed (c : Conversation) : uuid * uuid := (c_id c, c_user_id c).

Lemma fixed_exists (db db' : DB) :
  map fixed (conversations db') = map fixed (conversations db) ->
  users db' = users db -> messages db' = messages db ->
  user_settings db' = user_settings db ->
  referential db -> referential db'.
Proof.
  intros Hc Hu Hm Hs (H1 & H2 & H3).
  assert (Hids : map c_id (conversations db') = map c_id (conversations db)).
  { assert (Hfst : forall l, map c_id l = map fst (map fixed l))
      by (intros l; now rewrite map_map).
    now rewrite !Hfst, Hc. }
  unfold referential, user_exists, conversation_exists in *.
  rewrite Hu, Hm, Hs. repeat split.
  - intros c Hin.
    assert (Hin' : In (fixed c) (map fixed (conversations db)))
      by (rewrite <- Hc; now apply in_map).
    apply in_map_iff in Hin'. destruct Hin' as (c0 & Hc0 & Hin0).
    injection Hc0 as _ Huid. rewrite <- Huid. now apply H1.
  - intros m Hin. rewrite (existsb_ids c_id _ _ _ Hids). now apply H2.
  - exact H3.
Qed.

Lemma exec_referential (e : Env) (R : Type) (s : Stmt R) (db : DB) :
  referential db -> referential (fst (exec e s db)).
Proof.
  intros Href. pose proof Href as (H1 & H2 & H3).
  destruct s; simpl; try exact Href.
  - (* INSERT INTO users *)
    unfold insert_user.
    destruct (varchar 255 email) as [email'|]; [|destruct (varchar 255 hash); exact Href].
    destruct (varchar 255 hash) as [hash'|]; [|exact Href].
    destruct (varchar 255 name) as [name'|]; [|exact Href].
    destruct (email_taken db email'); [exact Href|].
    unfold referential, user_exists, conversation_exists in *. simpl.
    repeat split; intros x Hin; rewrite ?existsb_snoc; auto.
    + now rewrite H1.
    + now rewrite H3.
  - (* UPDATE users *)
    unfold referential, user_exists, conversation_exists in *. simpl.
    assert (Hids : forall uid,
               existsb (fun u => u_id u =? uid)
                       (update_where (fun u => u_id u =? id) (logged_in (now e)) (users db))
               = existsb (fun u => u_id u =? uid) (users db)).
    { intros uid. apply existsb_ids. now apply update_where_map. }
    repeat split; intros x Hin; rewrite ?Hids; auto.
  - (* INSERT INTO conversations *)
    unfold insert_conversation.
    destruct (varchar 255 title) as [title'|]; [|exact Href].
    destruct (user_exists db uid) eqn:Hu; [|exact Href].
    unfold referential, user_exists, conversation_exists in *. simpl.
    repeat split; intros x Hin; auto.
    + apply in_app_or in Hin. destruct Hin as [Hin|[<-|[]]]; auto.
    + rewrite existsb_snoc. now rewrite H2.
  - (* UPDATE conversations SET title *)
    destruct (conversation_exists db id); [|exact Href].
    destruct (varchar 255 title) as [title'|]; [|exact Href].
    simpl. apply fixed_exists with (db := db); auto.
    simpl. now apply update_where_map.
  - (* DELETE FROM conversations *)
    unfold delete_conversation, referential, user_exists, conversation_exists in *.
    simpl. repeat split; intros x Hin; auto.
    + apply filter_In in Hin. now apply H1.
    + apply filter_In in Hin. destruct Hin as [Hin Hne].
      specialize (H2 x Hin). rewrite existsb_exists in *.
      destruct H2 as (c & Hc & Hid). exists c. split; [|exact Hid].
      apply filter_In. split; [exact Hc|].
      apply Nat.eqb_eq in Hid. now rewrite Hid.
  - (* SELECT .. + 1 *)
    now destruct (int4 (max_order db cid + 1)).
  - (* INSERT INTO messages *)
    unfold insert_message.
    destruct (negb (int4 order)); [exact Href|].
    destruct role as [r|]; [|exact Href]. destruct content as [c|]; [|exact Href].
    destruct (varchar 20 r) as [r'|]; [|exact Href].
    destruct (negb (role_check r')); [exact Href|].
    destruct (conversation_exists db cid) eqn:Hc; [|exact Href].
    unfold referential, user_exists, conversation_exists in *. simpl.
    repeat split; intros x Hin; auto.
    apply in_app_or in Hin. destruct Hin as [Hin|[<-|[]]]; auto.
  - (* UPDATE conversations SET updated_at *)
    apply fixed_exists with (db := db); auto.
    simpl. now apply update_where_map.
  - (* UPDATE conversations SET title = CASE .. *)
    destruct (retitle_new_chats (now e) preview id (conversations db)) as [cs|] eqn:Hcs;
      [|exact Href].
    simpl. apply fixed_exists with (db := db); auto.
    simpl. now apply (retitle_new_chats_map fixed) in Hcs.
  - (* INSERT INTO user_settings .. ON CONFLICT *)
    unfold upsert_settings.
    destruct (varchar 100 model) as [model'|]; [|exact Href].
    destruct (user_exists db uid) eqn:Hu; [|exact Href]. simpl.
    destruct (find _ (user_settings db)) as [old|]; simpl;
      unfold referential, user_exists, conversation_exists in *; simpl;
      repeat split; intros x Hin; auto.
    + unfold update_where in Hin. apply in_map_iff in Hin.
      destruct Hin as (s0 & Hx & Hin0).
      destruct (s_user_id s0 =? uid); subst x; simpl; auto.
    + apply in_app_or in Hin. destruct Hin as [Hin|[<-|[]]]; auto.
Qed.

Lemma referential_empty : referential empty_db.
Proof. repeat split; intros x []. Qed.

(** X5. The foreign keys hold in every store the server can reach from the
    empty one, however its handlers are interleaved: every conversation and
    every settings row has its user, every message its conversation. *)
Theorem X5_no_orphan_rows_under_any_schedule (acts : list Action) :
  referential (store (schedule acts boot)).
Proof.
  apply schedule_invariant.
  - intros e R s db. apply exec_referential.
  - apply referential_empty.
Qed.

(** X6. No two users share an email in any store the server can reach from
    the empty one, also when sign-ups for the same email are in flight
    together. *)
Theorem X6_emails_unique_under_any_schedule (acts : list Action) :
  Spec.emails_unique (store (schedule acts boot)).
Proof.
  apply schedule_invariant.
  - intros e R s db. apply exec_emails_unique.
  - constructor.
Qed.

End Schedules.

(** * The server: what is written is read back *)

Section RoundTrips.
Import Server Http.
Context {libs : Libs}.

Lemma insert_row_snoc (A : Type) (le : A -> A -> bool) (x m : A) (rows : list A) :
  le x m = true -> insert_row le x (rows ++ [m]) = insert_row le x rows ++ [m].
Proof.
  intros H. induction rows as [|y rows IH]; simpl.
  - now rewrite H.
  - destruct (le x y); [reflexivity|]. now rewrite IH.
Qed.

Lemma order_by_snoc (A : Type) (le : A -> A -> bool) (m : A) (rows : list A) :
  (forall x, In x rows -> le x m = true) ->
  order_by le (rows ++ [m]) = order_by le rows ++ [m].
Proof.
  induction rows as [|x rows IH]; intros H; simpl; [reflexivity|].
  rewrite IH by (intros y Hy; apply H; now right).
  apply insert_row_snoc, H. now left.
Qed.

Lemma sql_max_bound (zs : list Z) (z : Z) :
  In z zs -> exists mx, sql_max zs = Some mx /\ (z <= mx)%Z.
Proof.
  induction zs as [|y zs IH]; intros Hin; [destruct Hin|].
  simpl. destruct Hin as [<-|Hin].
  - destruct (sql_max zs) as [m|]; eexists; split; try reflexivity; lia.
  - destruct (IH Hin) as (mx & -> & Hle). eexists; split; [reflexivity|]. lia.
Qed.

Lemma max_order_bound (db : DB) (id : uuid) (m : Message) :
  In m (messages_of db id) -> (m_message_order m <= max_order db id)%Z.
Proof.
  intros Hin. unfold max_order, orders_of.
  destruct (@sql_max_bound (map m_message_order (messages_of db id)) (m_message_order m))
    as (mx & -> & Hle); [now apply in_map | exact Hle].
Qed.

Lemma valid_role (r : string) :
  existsb (String.eqb r) ["user"; "ai"; "system"] = true ->
  varchar 20 r = Some r /\ role_check r = true.
Proof.
  simpl. rewrite orb_false_r. intros H.
  apply orb_true_iff in H. destruct H as [H|H];
    [|apply orb_true_iff in H; destruct H as [H|H]];
    apply String.eqb_eq in H; subst r; split; reflexivity.
Qed.

(** What [JSON] shows of a stored message. *)
Let shown (m : Message) : MsgView :=
  {| mv_id := Some (m_id m); mv_role := m_role m; mv_content := m_content m;
     mv_created_at := m_created_at m; mv_message_order := Some (m_message_order m) |}.

(** What a POST of one message that is answered 201 has done. *)
Lemma addMessage_effect (e : Env) (id : uuid) (b : Body) (user : Claims) (db : DB)
    (v : MsgView) :
  snd (run e (addMessage id b user) db) = respond 201 (JMessage v) ->
  let db' := fst (run e (addMessage id b user) db) in
  let m := {| m_id := next_uuid db; m_conversation_id := id;
              m_role := text (b_role b); m_content := text (b_content b);
              m_created_at := now e;
              m_message_order := (max_order db id + 1)%Z |} in
  let touched :=
    update_where (fun c => c_id c =? id) (touch (now e)) (conversations db) in
  existsb (fun c => (c_id c =? id) && (c_user_id c =? tk_id user)) (conversations db)
    = true /\
  v = shown m /\
  messages db' = messages db ++ [m] /\
  (if is_user (b_role b) && (max_order db id + 1 =? 1)%Z
   then retitle_new_chats (now e) (titlePreview (text (b_content b))) id touched
        = Some (conversations db')
   else conversations db' = touched).
Proof.
  unfold addMessage.
  destruct (truthy (b_role b)) eqn:Hrole; [|discriminate].
  destruct (truthy (b_content b)) eqn:Hcontent; [|discriminate].
  cbn [negb orb].
  destruct (existsb (String.eqb (text (b_role b))) _) eqn:Hvalid; [|discriminate].
  cbn [negb].
  apply truthy_text in Hrole. destruct Hrole as [Hrole _].
  apply truthy_text in Hcontent. destruct Hcontent as [Hcontent _].
  destruct (valid_role _ Hvalid) as [Hfits Hcheck].
  rewrite run_catching, run_owned.
  destruct (existsb _ (conversations db)) eqn:Hown; [|discriminate].
  rewrite run_bind, run_query. simpl exec.
  destruct (int4 (max_order db id + 1)) eqn:Hint; [|discriminate]. cbv beta iota.
  rewrite run_bind, run_query. simpl exec.
  unfold insert_message. rewrite Hint. cbn [negb].
  rewrite Hrole, Hcontent, Hfits, Hcheck. cbn [negb].
  destruct (conversation_exists db id); [|discriminate]. cbn [negb].
  cbv beta iota zeta.
  rewrite run_bind, run_query. simpl exec. cbv beta iota.
  rewrite run_bind.
  rewrite <- Hrole.
  destruct (is_user (b_role b) && (max_order db id + 1 =? 1)%Z).
  - rewrite run_query. simpl exec.
    destruct (retitle_new_chats _ _ _ _) as [cs|]; cbv beta iota; [|discriminate].
    simpl. intros H. injection H as <-. auto.
  - simpl. intros H. injection H as <-. auto.
Qed.

Lemma owned_fixed (cs cs' : list Conversation) (id uid : uuid) :
  map (fun c => (c_id c, c_user_id c)) cs' = map (fun c => (c_id c, c_user_id c)) cs ->
  existsb (fun c => (c_id c =? id) && (c_user_id c =? uid)) cs' =
  existsb (fun c => (c_id c =? id) && (c_user_id c =? uid)) cs.
Proof.
  revert cs. induction cs' as [|c' cs' IH]; intros [|c cs] H; simpl in *;
    try discriminate; [reflexivity|].
  injection H as Hid Hu Hrest. now rewrite Hid, Hu, (IH cs Hrest).
Qed.

(** A POST of a message leaves the owners where they were. *)
Lemma addMessage_owner (e : Env) (id : uuid) (b : Body) (user : Claims) (db : DB)
    (v : MsgView) (i uid : uuid) :
  snd (run e (addMessage id b user) db) = respond 201 (JMessage v) ->
  existsb (fun c => (c_id c =? i) && (c_user_id c =? uid))
          (conversations (fst (run e (addMessage id b user) db))) =
  existsb (fun c => (c_id c =? i) && (c_user_id c =? uid)) (conversations db).
Proof.
  intros Hok. destruct (addMessage_effect _ _ _ _ _ Hok) as (_ & _ & _ & Hcs).
  assert (Htouched :
            map (fun c => (c_id c, c_user_id c))
                (update_where (fun c => c_id c =? id) (touch (now e)) (conversations db))
            = map (fun c => (c_id c, c_user_id c)) (conversations db))
    by now apply update_where_map.
  apply owned_fixed.
  destruct (is_user (b_role b) && _).
  - apply (retitle_new_chats_map (fun c => (c_id c, c_user_id c))) in Hcs; [|reflexivity].
    now rewrite Hcs.
  - now rewrite Hcs.
Qed.

Lemma run_getMessages (e : Env) (id : uuid) (user : Claims) (db : DB) :
  existsb (fun c => (c_id c =? id) && (c_user_id c =? tk_id user)) (conversations db)
    = true ->
  run e (getMessages id user) db =
  (db, respond 200
         (JMessages (map (fun msg => {| mv_id := Some (m_id msg); mv_role := m_role msg;
                                        mv_content := m_content msg;
                                        mv_created_at := m_created_at msg;
                                        mv_message_order := None |})
                         (order_by by_message_order (messages_of db id))))).
Proof.
  intros Hown. unfold getMessages.
  rewrite run_catching, run_owned, Hown, run_bind, run_query. reflexivity.
Qed.

(** X7. A message that POST /api/conversations/:id/messages has stored
    (201) is read back by GET on the same path: the list is the one from
    before the POST followed by the new message, with the role and the
    content of the request. *)
Theorem X7_posted_message_is_read_back_last
    (e e' : Env) (post get : Request) (db : DB) (id : uuid)
    (tok tok' : string) (user user' : Claims) (v : MsgView) :
  route post = PostMessage id ->
  token_of (authorization post) = Some tok -> tok <> "" ->
  jwt_verify tok (now e) = Some user ->
  route get = GetMessages id ->
  token_of (authorization get) = Some tok' -> tok' <> "" ->
  jwt_verify tok' (now e') = Some user' ->
  tk_id user' = tk_id user ->
  snd (handle e post db) = respond 201 (JMessage v) ->
  let db' := fst (handle e post db) in
  exists before,
    handle e' get db = (db, respond 200 (JMessages before)) /\
    handle e' get db' =
      (db', respond 200
              (JMessages (before ++ [{| mv_id := mv_id v;
                                        mv_role := text (b_role (body post));
                                        mv_content := text (b_content (body post));
                                        mv_created_at := now e;
                                        mv_message_order := None |}]))).
Proof.
  intros Hr Ht Hne Hv Hr' Ht' Hne' Hv' Hsame Hok db'. subst db'. revert Hok.
  unfold handle.
  rewrite (@serve_authenticated _ e post tok user (addMessage id (body post)))
    by (auto; unfold protected_handler; now rewrite Hr).
  rewrite (@serve_authenticated _ e' get tok' user' (getMessages id))
    by (auto; unfold protected_handler; now rewrite Hr').
  intros Hok.
  pose proof (addMessage_owner _ _ _ _ _ id (tk_id user) Hok) as Hown'.
  destruct (addMessage_effect _ _ _ _ _ Hok) as (Hown & Hv0 & Hms & _).
  rewrite Hown in Hown'. rewrite <- Hsame in Hown, Hown'.
  eexists. split; [apply run_getMessages; exact Hown|].
  rewrite run_getMessages by exact Hown'.
  f_equal. f_equal. f_equal.
  unfold messages_of at 1. rewrite Hms, filter_app. simpl.
  rewrite Nat.eqb_refl.
  fold (messages_of db id).
  rewrite order_by_snoc.
  - rewrite map_app. simpl. rewrite Hv0. reflexivity.
  - intros x Hx. unfold by_message_order. simpl.
    apply Z.leb_le. pose proof (max_order_bound _ _ _ Hx). lia.
Qed.

End RoundTrips.

(** * The server: the title a conversation gets from its first message *)

Section Titles.
Import Server Http.
Context {libs : Libs}.








Lemma run_getConversation (e : Env) (id : uuid) (user : Claims) (db : DB)
    (c : Conversation) (rest : list Conversation) :
  existsb (fun c => (c_id c =? id) && (c_user_id c =? tk_id user)) (conversations db)
    = true ->
  filter (fun c => c_id c =? id) (conversations db) = c :: rest ->
  run e (getConversation id user) db =
  (db, respond 200
         (JConversation (c_id c) (c_title c) (c_created_at c) (c_updated_at c)
            (map (fun msg => {| mv_id := None; mv_role := m_role msg;
                                mv_content := m_content msg;
                                mv_created_at := m_created_at msg;
                                mv_message_order := None |})
                 (order_by by_message_order (messages_of db id))))).
Proof.
  intros Hown Hrows. unfold getConversation.
  rewrite run_catching, run_owned, Hown, run_bind, run_query. simpl exec.
  cbv beta iota. rewrite run_bind, run_query. simpl exec. cbv beta iota.
  rewrite Hrows. reflexivity.
Qed.



(** X9. A message that is not the first of its conversation, or not a user
    message, renames nothing: after a POST answered 201 every conversation
    has the title it had. *)
Theorem X9_later_messages_keep_every_title
    (e : Env) (post : Request) (db : DB) (id : uuid)
    (tok : string) (user : Claims) (v : MsgView) :
  route post = PostMessage id ->
  token_of (authorization post) = Some tok -> tok <> "" ->
  jwt_verify tok (now e) = Some user ->
  snd (handle e post db) = respond 201 (JMessage v) ->
  is_user (b_role (body post)) && (max_order db id =? 0)%Z = false ->
  map c_title (conversations (fst (handle e post db))) = map c_title (conversations db).
Proof.
  intros Hr Ht Hne Hv. unfold handle.
  rewrite (@serve_authenticated _ e post tok user (addMessage id (body post)))
    by (auto; unfold protected_handler; now rewrite Hr).
  intros Hok Hlater.
  destruct (addMessage_effect _ _ _ _ _ Hok) as (_ & _ & _ & Hcs).
  replace (max_order db id + 1 =? 1)%Z with (max_order db id =? 0)%Z in Hcs
    by (destruct (Z.eqb_spec (max_order db id) 0), (Z.eqb_spec (max_order db id + 1) 1);
        try reflexivity; lia).
  rewrite Hlater in Hcs. rewrite Hcs. now apply update_where_map.
Qed.

End Titles.

(** * The server: a new conversation *)

Section Created.
Import Server Http.
Context {libs : Libs}.

Lemma drawn_more (db db' : DB) :
  next_uuid db <= next_uuid db' ->
  (forall c, In c (conversations db') ->
             In (c_id c) (map c_id (conversations db)) \/ c_id c = next_uuid db /\ next_uuid db < next_uuid db') ->
  (forall m, In m (messages db') ->
             In (m_conversation_id m) (map m_conversation_id (messages db)) \/
             In (m_conversation_id m) (map c_id (conversations db))) ->
  drawn db -> drawn db'.
Proof.
  intros Hnext Hcs Hms (H1 & H2).
  assert (Hc : forall i, In i (map c_id (conversations db)) -> i < next_uuid db').
  { intros i Hin. apply in_map_iff in Hin. destruct Hin as (c & <- & Hin).
    specialize (H1 c Hin). lia. }
  split.
  - intros c Hin. destruct (Hcs c Hin) as [Hold|[-> Hlt]]; auto.
  - intros m Hin. destruct (Hms m Hin) as [Hold|Hold]; auto.
    apply in_map_iff in Hold. destruct Hold as (m0 & <- & Hin0).
    specialize (H2 m0 Hin0). lia.
Qed.

Lemma drawn_same (db db' : DB) :
  next_uuid db <= next_uuid db' ->
  map c_id (conversations db') = map c_id (conversations db) ->
  messages db' = messages db ->
  drawn db -> drawn db'.
Proof.
  intros Hnext Hcs Hms. apply drawn_more; [exact Hnext| |].
  - intros c Hin. left. rewrite <- Hcs. now apply in_map.
  - intros m Hin. left. rewrite <- Hms. now apply in_map.
Qed.

Lemma exec_drawn (e : Env) (R : Type) (s : Stmt R) (db : DB) :
  drawn db -> drawn (fst (exec e s db)).
Proof.
  intros Hd.
  destruct s; simpl; try exact Hd.
  - unfold insert_user.
    destruct (varchar 255 email) as [email'|]; [|destruct (varchar 255 hash); exact Hd].
    destruct (varchar 255 hash) as [hash'|]; [|exact Hd].
    destruct (varchar 255 name) as [name'|]; [|exact Hd].
    destruct (email_taken db email'); [exact Hd|].
    apply drawn_same with (db := db); simpl; auto; try lia.
  - unfold insert_conversation.
    destruct (varchar 255 title) as [title'|]; [|exact Hd].
    destruct (user_exists db uid); [|exact Hd].
    apply drawn_more with (db := db); simpl; auto; try lia.
    + intros c Hin. apply in_app_or in Hin. destruct Hin as [Hin|[<-|[]]].
      * left. now apply in_map.
      * right. simpl. lia.
    + intros m Hin. left. now apply in_map.
  - destruct (conversation_exists db id); [|exact Hd].
    destruct (varchar 255 title) as [title'|]; [|exact Hd].
    apply drawn_same with (db := db); simpl; auto; try lia.
    now apply update_where_map.
  - apply drawn_more with (db := db); simpl; auto; try lia.
    + intros c Hin. apply filter_In in Hin. left. now apply in_map.
    + intros m Hin. apply filter_In in Hin. left. now apply in_map.
  - now destruct (int4 (max_order db cid + 1)).
  - unfold insert_message.
    destruct (negb (int4 order)); [exact Hd|].
    destruct role as [r|]; [|exact Hd]. destruct content as [c|]; [|exact Hd].
    destruct (varchar 20 r) as [r'|]; [|exact Hd].
    destruct (negb (role_check r')); [exact Hd|].
    destruct (conversation_exists db cid) eqn:Hc; [|exact Hd].
    apply drawn_more with (db := db); simpl; auto; try lia.
    + intros c0 Hin. left. now apply in_map.
    + intros m Hin. apply in_app_or in Hin. destruct Hin as [Hin|[<-|[]]].
      * left. now apply in_map.
      * right. simpl. unfold conversation_exists in Hc.
        apply existsb_exists in Hc. destruct Hc as (c0 & Hin0 & Hid).
        apply Nat.eqb_eq in Hid. subst cid. now apply in_map.
  - apply drawn_same with (db := db); simpl; auto; try lia.
    now apply update_where_map.
  - destruct (retitle_new_chats (now e) preview id (conversations db)) as [cs|] eqn:Hcs;
      [|exact Hd].
    apply drawn_same with (db := db); simpl; auto; try lia.
    now apply (retitle_new_chats_map c_id) in Hcs.
  - unfold upsert_settings.
    destruct (varchar 100 model) as [model'|]; [|exact Hd].
    destruct (negb (user_exists db uid)); [exact Hd|].
    destruct (find _ (user_settings db)) as [old|];
      apply drawn_same with (db := db); simpl; auto; try lia.
Qed.

Lemma none_drawn (A : Type) (f : A -> uuid) (n : uuid) (rows : list A) :
  (forall r, In r rows -> f r < n) -> filter (fun r => f r =? n) rows = [].
Proof.
  intros H. induction rows as [|r rows IH]; simpl; [reflexivity|].
  destruct (Nat.eqb_spec (f r) n) as [Heq|].
  - specialize (H r (or_introl eq_refl)). lia.
  - apply IH. intros r' Hin. apply H. now right.
Qed.

(** What a POST of a conversation that is answered 201 has done. *)
Lemma createConversation_effect (e : Env) (b : Body) (user : Claims) (db : DB)
    (id : uuid) (title : string) (t1 t2 : timestamp) :
  snd (run e (createConversation b user) db) = respond 201 (JCreated id title t1 t2) ->
  fst (run e (createConversation b user) db) =
    bump_uuid (set_conversations db
                 (conversations db ++
                  [{| c_id := id; c_user_id := tk_id user; c_title := title;
                      c_created_at := t1; c_updated_at := t2;
                      c_is_archived := false |}])) /\
  id = next_uuid db /\ t1 = now e /\ t2 = now e /\
  varchar 255 (if truthy (b_title b) then text (b_title b) else "New Chat") = Some title.
Proof.
  unfold createConversation.
  rewrite run_catching, run_bind, run_query. simpl exec.
  unfold insert_conversation.
  destruct (varchar 255 _) as [title'|] eqn:Htitle; [|discriminate].
  destruct (user_exists db (tk_id user)); [|discriminate].
  cbv beta iota zeta. simpl. intros Hok. injection Hok as <- <- <- <-. auto.
Qed.

(** X10. A conversation that POST /api/conversations has created (201), in
    any store the server can reach from the empty one, is read back by GET
    /api/conversations/:id with the id, the title and the dates of the
    answer and with no message; without a title in the request the title
    is 'New Chat'. *)
Theorem X10_created_conversation_is_read_back
    (acts : list Action) (e e' : Env) (post get : Request)
    (tok tok' : string) (user user' : Claims)
    (id : uuid) (title : string) (t1 t2 : timestamp) :
  let db := store (schedule acts boot) in
  route post = PostConversation ->
  token_of (authorization post) = Some tok -> tok <> "" ->
  jwt_verify tok (now e) = Some user ->
  route get = GetConversation id ->
  token_of (authorization get) = Some tok' -> tok' <> "" ->
  jwt_verify tok' (now e') = Some user' ->
  tk_id user' = tk_id user ->
  snd (handle e post db) = respond 201 (JCreated id title t1 t2) ->
  let db' := fst (handle e post db) in
  handle e' get db' = (db', respond 200 (JConversation id title t1 t2 [])) /\
  (truthy (b_title (body post)) = false -> title = "New Chat").
Proof.
  intros db Hr Ht Hne Hv Hr' Ht' Hne' Hv' Hsame Hok db'.
  assert (Hd : drawn db).
  { apply schedule_invariant.
    - intros e0 R s db0. apply exec_drawn.
    - split; intros x []. }
  destruct Hd as (Hcs & Hms).
  subst db'. revert Hok. unfold handle.
  rewrite (@serve_authenticated _ e post tok user (createConversation (body post)))
    by (auto; unfold protected_handler; now rewrite Hr).
  rewrite (@serve_authenticated _ e' get tok' user' (getConversation id))
    by (auto; unfold protected_handler; now rewrite Hr').
  intros Hok.
  apply createConversation_effect in Hok. destruct Hok as (-> & Hid & _ & _ & Htitle).
  split.
  - rewrite Hid in *. clear Hid. set (id0 := next_uuid db) in *.
    match goal with
    | |- run _ _ ?d = _ => set (db1 := d)
    end.
    assert (Hown : existsb (fun c => (c_id c =? id0) && (c_user_id c =? tk_id user'))
                           (conversations db1) = true).
    { simpl. rewrite existsb_app. simpl.
      now rewrite Hsame, !Nat.eqb_refl, orb_true_r. }
    assert (Hrows : filter (fun c => c_id c =? id0) (conversations db1) =
                    [{| c_id := id0; c_user_id := tk_id user; c_title := title;
                        c_created_at := t1; c_updated_at := t2;
                        c_is_archived := false |}]).
    { simpl. rewrite filter_app.
      rewrite (@none_drawn _ c_id _ _ Hcs). simpl.
      now rewrite Nat.eqb_refl. }
    rewrite (run_getConversation e' id0 user' db1 Hown Hrows). simpl.
    unfold messages_of. simpl.
    rewrite (@none_drawn _ m_conversation_id _ _ Hms). reflexivity.
  - intros Hnone. rewrite Hnone in Htitle. now injection Htitle as <-.
Qed.

End Created.

(** * The server: settings *)

Section SettingsTrip.
Import Server Http.
Context {libs : Libs}.

Lemma upserted_first (uid : uuid) (s : Settings) (rows : list Settings) (old : Settings) :
  s_user_id s = uid ->
  find (fun x => s_user_id x =? uid) rows = Some old ->
  exists rest,
    filter (fun x => s_user_id x =? uid)
           (update_where (fun x => s_user_id x =? uid) (fun _ => s) rows) = s :: rest.
Proof.
  intros Hs. induction rows as [|r rows IH]; simpl; [discriminate|].
  destruct (s_user_id r =? uid) eqn:Hr.
  - intros _. rewrite Hs, Nat.eqb_refl. eauto.
  - rewrite Hr. exact IH.
Qed.

Lemma find_none_filter (A : Type) (p : A -> bool) (rows : list A) :
  find p rows = None -> filter p rows = [].
Proof.
  induction rows as [|r rows IH]; simpl; [reflexivity|].
  destruct (p r); [discriminate | exact IH].
Qed.

(** What a PUT of the settings that is answered 200 has stored. *)
Lemma putSettings_effect (e : Env) (b : Body) (user : Claims) (db : DB)
    (model : string) (builtin : bool) :
  snd (run e (putSettings b user) db) = respond 200 (JSettings model builtin) ->
  exists s rest,
    filter (fun x => s_user_id x =? tk_id user)
           (user_settings (fst (run e (putSettings b user) db))) = s :: rest /\
    s_preferred_model s = model /\ s_use_builtin_key s = builtin.
Proof.
  unfold putSettings.
  rewrite run_catching, run_bind, run_query. simpl exec.
  unfold upsert_settings.
  destruct (varchar 100 _) as [model'|]; [|discriminate].
  destruct (negb (user_exists db (tk_id user))); [discriminate|].
  destruct (find _ (user_settings db)) as [old|] eqn:Hfind;
    cbv beta iota zeta; simpl; intros Hok; injection Hok as <- <-.
  - edestruct upserted_first as (rest & ->); [|exact Hfind|]; [reflexivity|].
    eexists _, rest. repeat split.
  - rewrite filter_app, (find_none_filter _ _ Hfind). simpl.
    rewrite Nat.eqb_refl. eexists _, []. repeat split.
Qed.

(** X11. What PUT /api/settings has answered (200) is what GET
    /api/settings answers the same user afterwards; and a user for whom no
    settings are stored is answered the defaults, model 'gemini-pro' with
    the built-in key in use. *)
Theorem X11_settings_round_trip
    (e e' : Env) (put get : Request) (db : DB)
    (tok tok' : string) (user user' : Claims) :
  route put = PutSettings ->
  token_of (authorization put) = Some tok -> tok <> "" ->
  jwt_verify tok (now e) = Some user ->
  route get = GetSettings ->
  token_of (authorization get) = Some tok' -> tok' <> "" ->
  jwt_verify tok' (now e') = Some user' ->
  tk_id user' = tk_id user ->
  (forall model builtin,
     snd (handle e put db) = respond 200 (JSettings model builtin) ->
     let db' := fst (handle e put db) in
     handle e' get db' = (db', respond 200 (JSettings model builtin))) /\
  ((forall s, In s (user_settings db) -> s_user_id s <> tk_id user) ->
   handle e' get db = (db, respond 200 (JSettings "gemini-pro" true))).
Proof.
  intros Hr Ht Hne Hv Hr' Ht' Hne' Hv' Hsame. unfold handle.
  rewrite (@serve_authenticated _ e put tok user (putSettings (body put)))
    by (auto; unfold protected_handler; now rewrite Hr).
  rewrite (@serve_authenticated _ e' get tok' user' getSettings)
    by (auto; unfold protected_handler; now rewrite Hr').
  split.
  - intros model builtin Hok.
    apply putSettings_effect in Hok. destruct Hok as (s & rest & Hrows & <- & <-).
    revert Hrows. generalize (fst (run e (putSettings (body put) user) db)).
    intros db' Hrows. unfold getSettings. rewrite run_catching, run_bind, run_query. simpl exec.
    rewrite Hsame, Hrows. reflexivity.
  - intros Hnone. unfold getSettings.
    rewrite run_catching, run_bind, run_query. simpl exec.
    replace (filter _ (user_settings db)) with (@nil Settings); [reflexivity|].
    symmetry. rewrite Hsame.
    induction (user_settings db) as [|s ss IH]; simpl; [reflexivity|].
    destruct (Nat.eqb_spec (s_user_id s) (tk_id user)) as [Heq|].
    + exfalso. apply (Hnone s); auto. now left.
    + apply IH. intros s' Hin. apply Hnone. now right.
Qed.

End SettingsTrip.

(** * The server: from sign-up to login *)

Section SignupLogin.
Import Server Http.
Context {libs : Libs}.

Lemma varchar_nonempty (n : nat) (s s' : string) :
  0 < n -> varchar n s = Some s' -> s <> "" -> s' <> "".
Proof.
  intros Hn. unfold varchar.
  destruct (Nat.leb_spec (String.length s) n) as [Hshort|Hlong].
  - intros Hs. now injection Hs as <-.
  - destruct (Str.only_blanks _); [|discriminate].
    intros Hs. injection Hs as <-. intros _ Hempty.
    apply (f_equal String.length) in Hempty.
    rewrite substring_0_length in Hempty by lia. simpl in Hempty. lia.
Qed.

Lemma not_taken (db : DB) (email : string) :
  email_taken db email = false ->
  filter (fun u => (u_email u =? email)%string && u_is_active u) (users db) = [].
Proof.
  unfold email_taken. induction (users db) as [|u us IH]; simpl; [reflexivity|].
  destruct (u_email u =? email)%string; simpl; [discriminate|]. exact IH.
Qed.

(** What a sign-up that is answered 201 has stored. *)
Lemma signup_effect (e : Env) (b : Body) (db : DB)
    (id : uuid) (name email token password : string) (t : timestamp) :
  b_password b = Some password ->
  snd (run e (signup e b) db) = respond 201 (JSignedUp id name email t token) ->
  fst (run e (signup e b) db) =
    bump_uuid (set_users db
                 (users db ++
                  [{| u_id := id; u_email := email;
                      u_password_hash := bcrypt_hash (salt e) password;
                      u_name := name; u_created_at := t; u_updated_at := t;
                      u_last_login := None; u_is_active := true |}])) /\
  email_taken db email = false /\
  truthy (Some email) = true /\ truthy (Some password) = true.
Proof.
  intros Hpw. unfold signup. rewrite Hpw.
  destruct (truthy (b_name b)); [|discriminate].
  destruct (truthy (b_email b)) eqn:Hmail; [|discriminate].
  destruct (truthy (Some password)) eqn:Hpass; [|discriminate].
  cbn [negb orb].
  destruct (String.length (text (Some password)) <? 6); [discriminate|].
  rewrite run_catching, run_bind, run_query. simpl exec. cbv beta iota.
  destruct (0 <? _); [discriminate|].
  rewrite run_bind, run_query. simpl exec.
  unfold insert_user.
  destruct (varchar 255 (text (b_email b))) as [email'|] eqn:Hfit;
    [|destruct (varchar 255 _); discriminate].
  rewrite varchar_fits by (rewrite bcrypt_hash_length; lia).
  destruct (varchar 255 (text (b_name b))) as [name'|]; [|discriminate].
  destruct (email_taken db email') eqn:Htaken; [discriminate|].
  cbv beta iota zeta. simpl. intros Hok. injection Hok as <- <- <- <- _.
  split; [reflexivity|]. split; [exact Htaken|]. split; [|reflexivity].
  apply truthy_text in Hmail. destruct Hmail as [_ Hmail].
  pose proof (@varchar_nonempty 255 _ _ ltac:(lia) Hfit Hmail) as Hne.
  destruct (String.eqb_spec email' ""); [contradiction | reflexivity].
Qed.

(** X12. Who has signed up can log in: when POST /api/auth/signup has been
    answered 201, a login with the email of the answer and the password of
    the sign-up is answered 200 with the same id, name and email and a new
    token, and stamps the user's last_login, provided bcrypt accepts the
    password against the hash it made of it. *)
Theorem X12_sign_up_then_log_in
    (e e' : Env) (up login_req : Request) (db : DB)
    (id : uuid) (name email token password : string) (t : timestamp) :
  route up = PostSignup ->
  route login_req = PostLogin ->
  b_password (body up) = Some password ->
  b_email (body login_req) = Some email ->
  b_password (body login_req) = Some password ->
  bcrypt_compare password (bcrypt_hash (salt e) password) = true ->
  snd (handle e up db) = respond 201 (JSignedUp id name email t token) ->
  let db' := fst (handle e up db) in
  snd (handle e' login_req db') =
    respond 200 (JLoggedIn id name email (jwt_sign id email (now e'))) /\
  exists u, In u (users (fst (handle e' login_req db'))) /\
            u_id u = id /\ u_email u = email /\ u_last_login u = Some (now e').
Proof.
  intros Hr Hr' Hpw Hemail Hpw' Hbcrypt.
  unfold handle, serve, protected_handler. rewrite Hr, Hr'.
  intros Hok.
  destruct (signup_effect _ _ _ Hpw Hok) as (-> & Htaken & Hmail & Hpass).
  clear Hok.
  unfold login. rewrite Hemail, Hpw', Hmail, Hpass. cbn [negb orb].
  rewrite run_catching, run_bind, run_query. simpl exec.
  rewrite filter_app, (not_taken _ _ Htaken). simpl filter.
  rewrite String.eqb_refl. cbn [andb u_is_active app].
  cbv beta iota. cbn [u_password_hash text]. rewrite Hbcrypt. cbn [negb].
  rewrite run_bind, run_query. simpl.
  split; [reflexivity|].
  eexists. split.
  - unfold update_where. rewrite map_app. apply in_or_app. right. simpl. left.
    rewrite Nat.eqb_refl. reflexivity.
  - simpl. auto.
Qed.

End SignupLogin.

(** * The server: the bulk route when a message is refused *)

Section Bulk.
Import Server Http.
Context {libs : Libs}.





End Bulk.

(** * The server on concrete requests *)

Section ServerInstances.
Import Server Scenario.

(** C1, as stated, fails when two requests are in flight together: both
    read the maximum before either inserts, and both messages are stored
    with order 1. *)
Lemma C1_interleaved_requests_store_an_order_twice :
  orders_of (store (schedule race boot)) 1 = [1%Z; 1%Z] /\
  ~ Spec.gapless (store (schedule race boot)) 1.
Proof.
  assert (H : orders_of (store (schedule race boot)) 1 = [1%Z; 1%Z])
    by (vm_compute; reflexivity).
  split; [exact H|].
  unfold Spec.gapless. rewrite H. vm_compute. discriminate.
Qed.

Lemma C5_alice_deletes_her_conversation :
  messages_of alice_store 1 <> [] /\
  messages_of (fst (handle e0 alice_deletes alice_store)) 1 = [].
Proof.
  split; [vm_compute; discriminate|].
  refine (proj1 (proj2
    (@C5_delete_conversation_cascades toy_libs e0 alice_deletes alice_store 1
       ":alice@example.com" alice_claims eq_refl eq_refl _ eq_refl _))).
  - discriminate.
  - vm_compute. eexists. split; [left; reflexivity|]. split; reflexivity.
Defined.








End ServerInstances.

(** * The server on more concrete requests *)

Section MoreServerInstances.
Import Server Http Scenario Visits.

Lemma X1_alice_lists_and_changes_nothing :
  selects (serve e0 alice_lists) /\ fst (handle e0 alice_lists alice_store) = alice_store.
Proof. apply (@X1_get_requests_only_read toy_libs). left. reflexivity. Defined.

Lemma X2_short_password_changes_nothing :
  status (snd (handle e0 short_password_signs_up alice_store)) = 400 /\
  fst (handle e0 short_password_signs_up alice_store) = alice_store.
Proof.
  split; [reflexivity|].
  apply (@X2_refused_request_changes_nothing toy_libs). reflexivity.
Defined.




Lemma X7_alice_reads_what_she_said :
  exists before,
    handle e0 alice_reads_messages alice_store =
      (alice_store, respond 200 (JMessages before)) /\
    handle e0 alice_reads_messages (fst (handle e0 alice_says_again alice_store)) =
      (fst (handle e0 alice_says_again alice_store),
       respond 200
         (JMessages (before ++ [{| mv_id := Some 4; mv_role := "user";
                                   mv_content := "are you there";
                                   mv_created_at := 100;
                                   mv_message_order := None |}]))).
Proof.
  apply (@X7_posted_message_is_read_back_last toy_libs e0 e0 alice_says_again
           alice_reads_messages alice_store 1 ":alice@example.com" ":alice@example.com"
           alice_claims alice_claims
           {| mv_id := Some 4; mv_role := "user"; mv_content := "are you there";
              mv_created_at := 100; mv_message_order := Some 3%Z |});
    try reflexivity; discriminate.
Defined.


Lemma X9_are_you_there_renames_nothing :
  map c_title (conversations (fst (handle e0 alice_says_again alice_store))) =
  map c_title (conversations alice_store).
Proof.
  apply (@X9_later_messages_keep_every_title toy_libs e0 alice_says_again alice_store 1
           ":alice@example.com" alice_claims
           {| mv_id := Some 4; mv_role := "user"; mv_content := "are you there";
              mv_created_at := 100; mv_message_order := Some 3%Z |});
    try reflexivity; discriminate.
Defined.

Lemma X10_alice_reads_her_new_conversation :
  let db := store (schedule alice_arrives boot) in
  let db' := fst (handle e0 alice_opens db) in
  handle e0 alice_reads db' = (db', respond 200 (JConversation 1 "New Chat" 100 100 [])) /\
  (truthy (b_title (body alice_opens)) = false -> "New Chat" = "New Chat").
Proof.
  apply (@X10_created_conversation_is_read_back toy_libs alice_arrives e0 e0 alice_opens
           alice_reads ":alice@example.com" ":alice@example.com"
           alice_claims alice_claims 1 "New Chat" 100 100);
    try reflexivity; discriminate.
Defined.

Lemma X11_alice_is_answered_her_settings :
  let db' := fst (handle e0 alice_prefers alice_store) in
  snd (handle e0 alice_prefers alice_store) =
    respond 200 (JSettings "gemini-1.5-flash" false) /\
  handle e0 alice_asks_settings db' =
    (db', respond 200 (JSettings "gemini-1.5-flash" false)) /\
  handle e0 alice_asks_settings alice_store =
    (alice_store, respond 200 (JSettings "gemini-pro" true)).
Proof.
  destruct (@X11_settings_round_trip toy_libs e0 e0 alice_prefers alice_asks_settings
              alice_store ":alice@example.com" ":alice@example.com"
              alice_claims alice_claims) as [Hput Hnone];
    try reflexivity; try discriminate.
  split; [reflexivity|]. split.
  - apply Hput. reflexivity.
  - apply Hnone. intros s [].
Defined.

Lemma X12_alice_signs_up_and_logs_in :
  let db' := fst (handle e0 alice_signs_up empty_db) in
  snd (handle e0 (alice_logs_in "secret1") db') =
    respond 200 (JLoggedIn 0 "Alice" "alice@example.com" ":alice@example.com") /\
  exists u, In u (users (fst (handle e0 (alice_logs_in "secret1") db'))) /\
            u_id u = 0 /\ u_email u = "alice@example.com" /\ u_last_login u = Some 100.
Proof.
  apply (@X12_sign_up_then_log_in toy_libs e0 e0 alice_signs_up (alice_logs_in "secret1")
           empty_db 0 "Alice" "alice@example.com" ":alice@example.com" "secret1" 100);
    reflexivity.
Defined.


End MoreServerInstances.

(** * The client: what an activation leaves alone *)

Section Quiet.
Import Client Browser.

Lemma quiet_then (A B : Type) (s : Step A) (f : A -> Async B) :
  forall w, settled s w -> (forall a, calm (f a)) -> settled (then_ s f) w.
Proof.
  induction s as [p [e|a]|p apiKey k IH|p c k IH]; intros w [Hw Hq] Hf; simpl in *.
  - now split.
  - destruct (Hf a p) as [H1 H2]. split; [congruence | exact H2].
  - split; [exact Hw|]. intros a p'. destruct (Hq a p') as [H1 H2].
    apply (IH a p' (watch p')); [now split | exact Hf].
  - split; [exact Hw|]. intros a p'. destruct (Hq a p') as [H1 H2].
    apply (IH a p' (watch p')); [now split | exact Hf].
Qed.

Lemma quiet_rescue (A : Type) (s : Step A) (h : Err -> Async A) :
  forall w, settled s w -> (forall e, calm (h e)) -> settled (rescue s h) w.
Proof.
  induction s as [p [e|a]|p apiKey k IH|p c k IH]; intros w [Hw Hq] Hh; simpl in *.
  - destruct (Hh e p) as [H1 H2]. split; [congruence | exact H2].
  - now split.
  - split; [exact Hw|]. intros a p'. destruct (Hq a p') as [H1 H2].
    apply (IH a p' (watch p')); [now split | exact Hh].
  - split; [exact Hw|]. intros a p'. destruct (Hq a p') as [H1 H2].
    apply (IH a p' (watch p')); [now split | exact Hh].
Qed.

Lemma calm_ret (A : Type) (a : A) : calm (ret a).
Proof. intros p. now split. Qed.

Lemma calm_throw (A : Type) (e : Err) : calm (@throw A e).
Proof. intros p. now split. Qed.

Lemma calm_get : calm get.
Proof. intros p. now split. Qed.

Lemma calm_modify (f : Page -> Page) :
  (forall p, watch (f p) = watch p) -> calm (modify f).
Proof. intros Hf p. split; [apply Hf | exact I]. Qed.

Lemma calm_bind (A B : Type) (t : Async A) (f : A -> Async B) :
  calm t -> (forall a, calm (f a)) -> calm (bind t f).
Proof. intros Ht Hf p. apply quiet_then; [apply Ht | exact Hf]. Qed.

Lemma calm_try_catch (A : Type) (t : Async A) (h : Err -> Async A) :
  calm t -> (forall e, calm (h e)) -> calm (try_catch t h).
Proof. intros Ht Hh p. apply quiet_rescue; [apply Ht | exact Hh]. Qed.

Lemma calm_fetch (c : Call) : calm (fetch c).
Proof. intros p. split; [reflexivity|]. intros a p'. now split. Qed.

Lemma calm_listModels (apiKey : string) : calm (listModels apiKey).
Proof. intros p. split; [reflexivity|]. intros a p'. now split. Qed.

Lemma calm_newAbortController : calm newAbortController.
Proof. intros p. now split. Qed.

Create HintDb calm.

(** Takes a goal [calm t] apart along the structure of [t], after trying
    the facts already known. *)
Ltac calm :=
  repeat first
    [ solve [auto 1 with calm nocore]
    | apply calm_ret | apply calm_throw | apply calm_get | apply calm_fetch
    | apply calm_listModels | apply calm_newAbortController
    | apply calm_modify; intros; reflexivity
    | apply calm_bind; [|intros]
    | apply calm_try_catch; [|intros]
    | match goal with
      | |- calm (match ?x with _ => _ end) => destruct x
      | |- calm (let _ := _ in _) => cbv zeta
      end ].

Lemma calm_attempt (c : Call) (lastError : option Err) : calm (attempt c lastError).
Proof. unfold attempt, explain, readAgain. calm. Qed.

Lemma calm_allFailed (lastError : option Err) : calm (allFailed lastError).
Proof. unfold allFailed. calm. Qed.

#[local] Hint Resolve calm_attempt calm_allFailed : calm.

Lemma calm_tryConfigs (apiKey prompt : string) (signal : nat) (configs : list ModelConfig) :
  forall lastError, calm (tryConfigs apiKey prompt signal configs lastError).
Proof.
  induction configs as [|config rest IH]; intros lastError; simpl; calm.
Qed.

#[local] Hint Resolve calm_tryConfigs : calm.

Lemma calm_tryGenerateWithKey (apiKey combinedMessage : string) :
  calm (tryGenerateWithKey apiKey combinedMessage).
Proof. unfold tryGenerateWithKey, checkAvailableModels. calm. Qed.

#[local] Hint Resolve calm_tryGenerateWithKey : calm.

Lemma calm_tryOtherKeys (apiKey combinedMessage : string) (keys : list ApiKey) :
  calm (tryOtherKeys apiKey combinedMessage keys).
Proof.
  induction keys as [|keyObj rest IH]; simpl; calm.
Qed.

#[local] Hint Resolve calm_tryOtherKeys : calm.

Lemma watch_pushes (msgs : list string) :
  forall p, watch (fold_left (fun q msg => push user msg q) msgs p) = watch p.
Proof.
  induction msgs as [|msg rest IH]; intros p; simpl; [reflexivity|]. now rewrite IH.
Qed.

Lemma calm_generateAIResponse_body (combinedMessage : string) (originalMessages : list string) :
  calm (generateAIResponse_body combinedMessage originalMessages).
Proof.
  unfold generateAIResponse_body.
  apply calm_bind.
  - apply calm_modify. intros p. destruct originalMessages; [reflexivity|].
    apply watch_pushes.
  - intros _. calm.
Qed.

Lemma calm_finish : calm finish.
Proof. unfold finish. calm. Qed.

#[local] Hint Resolve calm_finish : calm.

Lemma calm_afterGeneration (r : Err + string) : calm (afterGeneration r).
Proof. unfold afterGeneration. calm. Qed.

End Quiet.

(** * The client: batching *)

Section Batching.
Import Client Browser.

Lemma sendMessage_while_generating (msg : option string) (p : Page) :
  isGeneratingResponse p = true -> sendMessage msg p = p.
Proof. intros H. unfold sendMessage. now rewrite H. Qed.

Lemma processBatchedMessages_while_generating (p : Page) :
  isGeneratingResponse p = true -> processBatchedMessages p = Finished p (inr tt).
Proof.
  intros H. unfold processBatchedMessages. cbn [bind get then_]. now rewrite H.
Qed.

Lemma generateAIResponse_settled (combinedMessage : string) (originalMessages : list string)
    (p : Page) :
  settled (generateAIResponse combinedMessage originalMessages p)
          (calls p ++ [(combinedMessage, originalMessages)], pendingMessages p).
Proof.
  unfold generateAIResponse. cbn [bind modify then_].
  apply (calm_generateAIResponse_body combinedMessage originalMessages).
Qed.

(** A batch is taken off the pending list, joined, and given to one call. *)
Lemma processBatchedMessages_settled (p : Page) :
  isGeneratingResponse p = false ->
  pendingMessages p <> [] ->
  settled (processBatchedMessages p)
          (calls p ++ [(Str.join (nl ++ nl) (pendingMessages p), pendingMessages p)], []).
Proof.
  intros Hgen Hpending. unfold processBatchedMessages. cbn [bind get then_].
  rewrite Hgen. destruct (pendingMessages p) as [|m ms] eqn:Hp; [contradiction|].
  cbn [orb List.length Nat.eqb]. cbn [bind modify then_ try_catch].
  apply quiet_then; [|apply calm_afterGeneration].
  apply quiet_rescue; [|intros e; apply calm_ret].
  apply quiet_then; [|intros a; apply calm_ret].
  apply generateAIResponse_settled.
Qed.

End Batching.

(** * The client: the claims about batching, the flag and the retry loop *)

Section ClientClaims.
Import Client Browser.

Lemma only_the_batch_timer (id : nat) (ts : list (nat * nat)) :
  (forall t, In t ts -> Some id = Some (fst t)) ->
  filter (fun t => negb (fst t =? id)) ts = [].
Proof.
  induction ts as [|t ts IH]; simpl; intros H; [reflexivity|].
  assert (Ht : Some id = Some (fst t)) by (apply H; now left).
  injection Ht as ->. rewrite Nat.eqb_refl. simpl. apply IH.
  intros u Hu. apply H. now right.
Qed.

(** C3, amended. While no response is being generated, a call of
    [sendMessage] with a message that is not empty (given, or typed and
    trimmed) appends it to the pending list, cancels the batch timer and
    arms a new one of 500 ms, the only one when the cancelled one was; and
    when a timer fires with messages pending, they are all taken off the
    list, joined into one string and given to exactly one call of
    [generateAIResponse], the activation making no other call and leaving
    the list alone from there on. *)
Theorem C3_batching_is_a_fixed_delay_debounce (w : World) :
  isGeneratingResponse (page w) = false ->
  let p := page w in
  (forall msg : option string,
     let said := if truthy msg then text msg else Str.trim (input_value p) in
     said <> "" ->
     let p' := sendMessage msg p in
     pendingMessages p' = pendingMessages p ++ [said] /\
     batchTimeout p' = Some (next_timer p) /\
     timers p' =
       timers (match batchTimeout p with
               | Some id => clearTimeout id p
               | None => p
               end) ++ [(next_timer p, 500)] /\
     ((forall t, In t (timers p) -> batchTimeout p = Some (fst t)) ->
      timers p' = [(next_timer p, 500)])) /\
  (forall id,
     In id (map fst (timers p)) ->
     pendingMessages p <> [] ->
     exists s,
       step (TimerFires id) w = Some (started s w) /\
       settled s (calls p ++ [(Str.join (nl ++ nl) (pendingMessages p),
                               pendingMessages p)],
                  [])).
Proof.
  intros Hgen p. change (isGeneratingResponse p = false) in Hgen. split.
  - intros msg said Hsaid p'. subst p'. unfold sendMessage.
    rewrite Hgen. fold said.
    destruct (String.eqb_spec said ""); [contradiction|].
    simpl. split; [|split; [|split]].
    + now destruct (batchTimeout p).
    + now destruct (batchTimeout p).
    + now destruct (batchTimeout p).
    + intros Hone. destruct (batchTimeout p) as [id|] eqn:Hb; simpl.
      * now rewrite only_the_batch_timer.
      * destruct (timers p) as [|t ts]; [reflexivity|].
        specialize (Hone t (or_introl eq_refl)). discriminate.
  - intros id Hid Hpending. eexists. split.
    + unfold step. fold p.
      assert (Harmed : existsb (fun t => fst t =? id) (timers p) = true).
      { apply existsb_exists. apply in_map_iff in Hid.
        destruct Hid as [t [Ht Hin]]. exists t. split; [exact Hin|].
        subst. apply Nat.eqb_refl. }
      rewrite Harmed. reflexivity.
    + apply (processBatchedMessages_settled (clearTimeout id p)); assumption.
Qed.

(** C3, as stated, fails for the calls of [sendMessage] that return early:
    while a response is being generated, and on an empty input. *)
Lemma C3_some_calls_of_sendMessage_append_nothing :
  (exists p cs, busy = Some (p, cs) /\
                isGeneratingResponse p = true /\
                sendMessage (Some "are you there") p = p) /\
  sendMessage None (load two_keys) = load two_keys.
Proof.
  split; [|reflexivity].
  eexists. eexists. split; [vm_compute; reflexivity|]. split; reflexivity.
Qed.

Lemma C3_two_messages_one_call :
  let p := sendMessage (Some "are you there") (sendMessage (Some "hello") (load two_keys)) in
  pendingMessages p = ["hello"; "are you there"] /\
  timers p = [(2, 500)] /\
  exists s,
    step (TimerFires 2) {| page := p; tasks := [] |}
    = Some (started s {| page := p; tasks := [] |}) /\
    settled s ([(Str.join (nl ++ nl) ["hello"; "are you there"],
                 ["hello"; "are you there"])], []).
Proof.
  pose (p1 := sendMessage (Some "hello") (load two_keys)).
  pose (p := sendMessage (Some "are you there") p1).
  destruct (@C3_batching_is_a_fixed_delay_debounce {| page := p1; tasks := [] |} eq_refl)
    as [Hsend _].
  destruct (Hsend (Some "are you there")) as [Hp [_ [_ Ht]]]; [discriminate|].
  destruct (@C3_batching_is_a_fixed_delay_debounce {| page := p; tasks := [] |} eq_refl)
    as [_ Hfire].
  split; [exact Hp|]. split.
  - apply Ht. intros t [<-|[]]. reflexivity.
  - destruct (Hfire 2) as [s [Hs Hq]].
    + simpl. now left.
    + discriminate.
    + exists s. split; [exact Hs | exact Hq].
Defined.

(** C4 fails on the code. Stop is clicked while the model list of the key
    is being fetched, before [tryGenerateWithKey] has made its
    AbortController: nothing is aborted, the flag is reset, and the next
    message starts a second generation while the first goes on. Two
    generation requests are then on the network, neither of them aborted. *)
Theorem C4_stop_before_the_controller_leaves_two_requests :
  exists p cs,
    after stop_too_early = Some (p, cs) /\
    map brief cs = [("AIzaKEY-one-0000000", "gemini-1.5-flash", 1);
                    ("AIzaKEY-one-0000000", "gemini-1.5-flash", 0)] /\
    controllers p = [false; false] /\
    calls p = [("hello", ["hello"]); ("are you there", ["are you there"])].
Proof.
  eexists. eexists. split; [vm_compute; reflexivity|]. repeat split.
Qed.

(** The same with a Stop that does abort the request: the aborted call is
    taken for a failure of the key and goes on with the next key. *)
Lemma stop_then_next_key_leaves_two_requests :
  exists p cs,
    after stop_then_fallback = Some (p, cs) /\
    map brief cs = [("AIzaKEY-two-0000000", "gemini-1.5-flash", 1);
                    ("AIzaKEY-one-0000000", "gemini-1.5-flash", 2)] /\
    controllers p = [true; false; false].
Proof.
  eexists. eexists. split; [vm_compute; reflexivity|]. repeat split.
Qed.

(** Without a Stop the flag does what it is there for (see
    [sendMessage_while_generating] and
    [processBatchedMessages_while_generating]). *)

(** An answer 401 or 403 does not end the loop over the configurations:
    the [throw] is caught by the [catch] of the same [try], and the turn
    ends like any other failed turn. *)
Lemma auth_failure_continues (c : Call) (lastError : option Err) (p p' : Page)
    (status : nat) (b : ErrorBody) :
  status = 401 \/ status = 403 ->
  aborted (call_signal c) p' = false ->
  exists k,
    attempt c lastError p = AwaitFetch p c k /\
    exists lastError', k (Failed status b) p' = Finished p' (inr (Continue lastError')).
Proof.
  intros Hs Hab. unfold attempt, try_catch, bind, fetch. simpl.
  eexists. split; [reflexivity|].
  destruct b as [msg raw|raw]; destruct Hs as [-> | ->]; simpl;
    unfold get, bind; simpl; rewrite Hab; eexists; reflexivity.
Qed.

(** An answer 404 whose error message says 'not found' ends the turn with
    that as the last error, and the loop goes on. *)
Lemma not_found_continues (c : Call) (lastError : option Err) (p p' : Page)
    (msg raw : string) :
  Str.includes "not found" msg = true ->
  exists k,
    attempt c lastError p = AwaitFetch p c k /\
    k (Failed 404 (JsonBody (Some msg) raw)) p' =
    Finished p' (inr (Continue (Some (Error ("Model " ++ model (call_config c)
                                             ++ " not found for API version "
                                             ++ apiVersion (call_config c))%string)))).
Proof.
  intros Hmsg. unfold attempt, try_catch, bind, fetch. cbn [then_ rescue].
  eexists. split; [reflexivity|].
  unfold explain. cbn [text Nat.eqb andb]. unfold or_else.
  destruct (String.eqb_spec msg "") as [->|_]; [discriminate|].
  rewrite Hmsg. reflexivity.
Qed.

(** When no configuration is left, the call throws. *)
Lemma exhausted_throws (apiKey prompt : string) (signal : nat) (lastError : option Err)
    (p : Page) :
  exists e, tryConfigs apiKey prompt signal [] lastError p = Finished p (inl e).
Proof.
  simpl. unfold allFailed.
  destruct (_ || _); eexists; reflexivity.
Qed.

(** C2 fails on the code at the answer 401: with a key that every
    configuration rejects, all nine configurations are requested with that
    key, not one; and when only the first configuration answers 401, the
    response of the second is returned. *)
Theorem C2_unauthorized_key_is_tried_on_every_configuration :
  let run net := complete net (tryGenerateWithKey "AIzaKEY-one-0000000" "hello"
                                 (load two_keys)) in
  map (fun c => (call_key c, model (call_config c))) (fst (fst (run all_unauthorized))) =
    map (fun c => ("AIzaKEY-one-0000000", model c)) modelConfigs /\
  map (fun c => model (call_config c)) (fst (fst (run first_unauthorized))) =
    ["gemini-1.5-flash"; "gemini-1.5-pro"] /\
  snd (run first_unauthorized) = inr "hi there".
Proof.
  vm_compute. repeat split.
Qed.

End ClientClaims.

(** * The client: the flag, when the user does not stop a generation *)

Section Flag.
Import Client Browser.

Lemma holds_live (A : Type) (s : Step A) : holds s -> live s.
Proof.
  induction s as [p r|p apiKey k IH|p c k IH]; simpl.
  - trivial.
  - intros [Hp Hk]. split; [exact Hp|]. intros a p' Hp'. apply IH. now apply Hk.
  - intros [Hp Hk]. split; [exact Hp|]. intros a p' Hp'. apply IH. now apply Hk.
Qed.

Lemma holds_flag (A : Type) (s : Step A) :
  holds s -> isGeneratingResponse (page_of s) = true.
Proof. destruct s; simpl; tauto. Qed.

Lemma live_flag (A : Type) (s : Step A) :
  live s -> waiting s = true -> isGeneratingResponse (page_of s) = true.
Proof. destruct s; simpl; try tauto. discriminate. Qed.

Lemma holds_then (A B : Type) (s : Step A) (f : A -> Async B) :
  holds s -> (forall a, steady (f a)) -> holds (then_ s f).
Proof.
  induction s as [p [e|a]|p apiKey k IH|p c k IH]; simpl; intros Hs Hf.
  - exact Hs.
  - now apply Hf.
  - destruct Hs as [Hp Hk]. split; [exact Hp|]. intros a p' Hp'.
    apply IH; [now apply Hk | exact Hf].
  - destruct Hs as [Hp Hk]. split; [exact Hp|]. intros a p' Hp'.
    apply IH; [now apply Hk | exact Hf].
Qed.

Lemma holds_rescue (A : Type) (s : Step A) (h : Err -> Async A) :
  holds s -> (forall e, steady (h e)) -> holds (rescue s h).
Proof.
  induction s as [p [e|a]|p apiKey k IH|p c k IH]; simpl; intros Hs Hh.
  - now apply Hh.
  - exact Hs.
  - destruct Hs as [Hp Hk]. split; [exact Hp|]. intros a p' Hp'.
    apply IH; [now apply Hk | exact Hh].
  - destruct Hs as [Hp Hk]. split; [exact Hp|]. intros a p' Hp'.
    apply IH; [now apply Hk | exact Hh].
Qed.

(** The last stretch of an activation may reset the flag. *)
Lemma live_then (A B : Type) (s : Step A) (f : A -> Async B) :
  holds s ->
  (forall a p, isGeneratingResponse p = true -> live (f a p)) ->
  live (then_ s f).
Proof.
  induction s as [p [e|a]|p apiKey k IH|p c k IH]; simpl; intros Hs Hf.
  - trivial.
  - now apply Hf.
  - destruct Hs as [Hp Hk]. split; [exact Hp|]. intros a p' Hp'.
    apply IH; [now apply Hk | exact Hf].
  - destruct Hs as [Hp Hk]. split; [exact Hp|]. intros a p' Hp'.
    apply IH; [now apply Hk | exact Hf].
Qed.

Lemma steady_ret (A : Type) (a : A) : steady (ret a).
Proof. intros p H. exact H. Qed.

Lemma steady_throw (A : Type) (e : Err) : steady (@throw A e).
Proof. intros p H. exact H. Qed.

Lemma steady_get : steady get.
Proof. intros p H. exact H. Qed.

Lemma steady_modify (f : Page -> Page) :
  (forall p, isGeneratingResponse (f p) = isGeneratingResponse p) -> steady (modify f).
Proof. intros Hf p H. simpl. now rewrite Hf. Qed.

Lemma steady_bind (A B : Type) (t : Async A) (f : A -> Async B) :
  steady t -> (forall a, steady (f a)) -> steady (bind t f).
Proof. intros Ht Hf p H. apply holds_then; [now apply Ht | exact Hf]. Qed.

Lemma steady_try_catch (A : Type) (t : Async A) (h : Err -> Async A) :
  steady t -> (forall e, steady (h e)) -> steady (try_catch t h).
Proof. intros Ht Hh p H. apply holds_rescue; [now apply Ht | exact Hh]. Qed.

Lemma steady_fetch (c : Call) : steady (fetch c).
Proof. intros p H. split; [exact H|]. intros a p' H'. exact H'. Qed.

Lemma steady_listModels (apiKey : string) : steady (listModels apiKey).
Proof. intros p H. split; [exact H|]. intros a p' H'. exact H'. Qed.

Lemma steady_newAbortController : steady newAbortController.
Proof. intros p H. exact H. Qed.

Create HintDb steady.

Ltac steady :=
  repeat first
    [ solve [auto 1 with steady nocore]
    | apply steady_ret | apply steady_throw | apply steady_get | apply steady_fetch
    | apply steady_listModels | apply steady_newAbortController
    | apply steady_modify; intros; reflexivity
    | apply steady_bind; [|intros]
    | apply steady_try_catch; [|intros]
    | match goal with
      | |- steady (match ?x with _ => _ end) => destruct x
      | |- steady (let _ := _ in _) => cbv zeta
      end ].

Lemma steady_attempt (c : Call) (lastError : option Err) : steady (attempt c lastError).
Proof. unfold attempt, explain, readAgain. steady. Qed.

Lemma steady_allFailed (lastError : option Err) : steady (allFailed lastError).
Proof. unfold allFailed. steady. Qed.

#[local] Hint Resolve steady_attempt steady_allFailed : steady.

Lemma steady_tryConfigs (apiKey prompt : string) (signal : nat) (configs : list ModelConfig) :
  forall lastError, steady (tryConfigs apiKey prompt signal configs lastError).
Proof.
  induction configs as [|config rest IH]; intros lastError; simpl; steady.
Qed.

#[local] Hint Resolve steady_tryConfigs : steady.

Lemma steady_tryGenerateWithKey (apiKey combinedMessage : string) :
  steady (tryGenerateWithKey apiKey combinedMessage).
Proof. unfold tryGenerateWithKey, checkAvailableModels. steady. Qed.

#[local] Hint Resolve steady_tryGenerateWithKey : steady.

Lemma steady_tryOtherKeys (apiKey combinedMessage : string) (keys : list ApiKey) :
  steady (tryOtherKeys apiKey combinedMessage keys).
Proof.
  induction keys as [|keyObj rest IH]; simpl; steady.
Qed.

#[local] Hint Resolve steady_tryOtherKeys : steady.

Lemma flag_pushes (msgs : list string) :
  forall p, isGeneratingResponse (fold_left (fun q msg => push user msg q) msgs p)
            = isGeneratingResponse p.
Proof.
  induction msgs as [|msg rest IH]; intros p; simpl; [reflexivity|]. now rewrite IH.
Qed.

Lemma steady_generateAIResponse (combinedMessage : string) (originalMessages : list string) :
  steady (generateAIResponse combinedMessage originalMessages).
Proof.
  unfold generateAIResponse, generateAIResponse_body.
  apply steady_bind; [steady|]. intros _.
  apply steady_bind.
  - apply steady_modify. intros p. destruct originalMessages; [reflexivity|].
    apply flag_pushes.
  - intros _. steady.
Qed.

(** What follows the generation is done at once. *)
Lemma afterGeneration_finishes (r : Err + string) (p : Page) :
  waiting (afterGeneration r p) = false.
Proof.
  unfold afterGeneration, finish, bind, get, modify, ret. simpl.
  destruct r as [error|response].
  - destruct ((message error =? "Request cancelled by user")%string || stopped p);
      simpl; [reflexivity|].
    now destruct (pendingMessages p).
  - destruct (stopped p); simpl; [reflexivity|]. now destruct (pendingMessages p).
Qed.

Lemma processBatchedMessages_live (p : Page) : live (processBatchedMessages p).
Proof.
  unfold processBatchedMessages. cbn [bind get then_].
  destruct (isGeneratingResponse p || (List.length (pendingMessages p) =? 0));
    [exact I|].
  cbn [bind modify then_ try_catch].
  apply live_then.
  - apply holds_rescue; [|intros e; apply steady_ret].
    apply holds_then; [|intros a; apply steady_ret].
    now apply steady_generateAIResponse.
  - intros r q _. pose proof (afterGeneration_finishes r q) as H.
    destruct (afterGeneration r q); [exact I | discriminate | discriminate].
Qed.

Lemma sendMessage_flag (msg : option string) (p : Page) :
  isGeneratingResponse (sendMessage msg p) = isGeneratingResponse p.
Proof.
  unfold sendMessage. destruct (isGeneratingResponse p) eqn:H; [exact H|].
  destruct (_ =? _)%string; [exact H|].
  simpl. now destruct (batchTimeout p).
Qed.

Lemma started_one_at_a_time (s : Step unit) (w : World) :
  live s ->
  (waiting s = true -> tasks w = []) ->
  (waiting s = false -> tasks w <> [] -> isGeneratingResponse (page_of s) = true) ->
  one_at_a_time w -> one_at_a_time (started s w).
Proof.
  intros Hlive Hnew Hold Hw. unfold one_at_a_time, started. simpl.
  destruct (waiting s) eqn:Hwait.
  - rewrite (Hnew eq_refl). simpl. right. exists s.
    split; [reflexivity|]. split; [now apply live_flag | exact Hlive].
  - destruct Hw as [Hnone|[s0 [Hs0 [_ Hl0]]]]; [now left|].
    right. exists s0. split; [exact Hs0|]. split; [|exact Hl0].
    apply Hold; [reflexivity|]. rewrite Hs0. discriminate.
Qed.

Lemma resumed_one_at_a_time (s s' : Step unit) (w : World) :
  tasks w = [s] -> live s' -> one_at_a_time (resumed 0 s' w).
Proof.
  intros Hw Hlive. unfold one_at_a_time, resumed. simpl. rewrite Hw.
  destruct (waiting s') eqn:Hwait; simpl.
  - right. exists s'. split; [reflexivity|].
    split; [now apply live_flag | exact Hlive].
  - now left.
Qed.

Lemma step_one_at_a_time (ev : Event) (w w' : World) :
  is_stop ev w = false -> step ev w = Some w' ->
  one_at_a_time w -> one_at_a_time w'.
Proof.
  intros Hstop Hstep Hw. unfold step in Hstep.
  assert (Hsend : forall msg, one_at_a_time (on_page (sendMessage msg) w)).
  { intros msg. unfold one_at_a_time, on_page. simpl.
    destruct Hw as [Hnone|[s [Hs [Hflag Hlive]]]]; [now left|].
    right. exists s. split; [exact Hs|]. split; [|exact Hlive].
    now rewrite sendMessage_flag. }
  destruct ev; simpl in Hstop.
  - injection Hstep as <-. exact Hw.
  - rewrite Hstop in Hstep. injection Hstep as <-. apply Hsend.
  - apply negb_false_iff in Hstop. rewrite Hstop in Hstep.
    injection Hstep as <-. apply Hsend.
  - destruct (send_enabled (page w)); [|discriminate].
    injection Hstep as <-. apply Hsend.
  - destruct (existsb _ _); [|discriminate]. injection Hstep as <-.
    pose proof (processBatchedMessages_live (clearTimeout id (page w))) as Hlive.
    apply started_one_at_a_time; [exact Hlive| | |exact Hw].
    + intros Hwait. destruct Hw as [Hnone|[s [Hs [Hflag _]]]]; [exact Hnone|].
      exfalso. rewrite processBatchedMessages_while_generating in Hwait;
        [discriminate | exact Hflag].
    + intros _ Hsome. destruct Hw as [Hnone|[s [Hs [Hflag _]]]]; [contradiction|].
      rewrite processBatchedMessages_while_generating; [exact Hflag | exact Hflag].
  - destruct Hw as [Hnone|[s [Hs [Hflag Hlive]]]].
    + rewrite Hnone in Hstep. destruct i; discriminate.
    + rewrite Hs in Hstep. destruct i as [|i]; [|destruct i; discriminate].
      simpl in Hstep. destruct s as [|p0 apiKey k|]; try discriminate.
      injection Hstep as <-. eapply resumed_one_at_a_time; [exact Hs|].
      destruct Hlive as [_ Hk]. now apply Hk.
  - destruct Hw as [Hnone|[s [Hs [Hflag Hlive]]]].
    + rewrite Hnone in Hstep. destruct i; discriminate.
    + rewrite Hs in Hstep. destruct i as [|i]; [|destruct i; discriminate].
      simpl in Hstep. destruct s as [| |p0 c k]; try discriminate.
      injection Hstep as <-. eapply resumed_one_at_a_time; [exact Hs|].
      destruct Hlive as [_ Hk]. now apply Hk.
Qed.

(** As long as the user does not stop a generation, at most one activation
    waits for the network, whatever the user and the network do. *)
Theorem one_generation_at_a_time_without_stop (st : Storage) (evs : list Event) (w : World) :
  unstopped evs (open st) = Some w ->
  List.length (tasks w) <= 1 /\ List.length (in_flight w) <= 1.
Proof.
  assert (Hinv : forall evs w0, one_at_a_time w0 -> unstopped evs w0 = Some w ->
                                one_at_a_time w).
  { clear evs. induction evs as [|ev rest IH]; intros w0 H0 Hrun; simpl in Hrun.
    - now injection Hrun as <-.
    - destruct (is_stop ev w0) eqn:Hstop; [discriminate|].
      destruct (step ev w0) as [w1|] eqn:Hstep; [|discriminate].
      apply (IH w1); [|exact Hrun]. now apply (@step_one_at_a_time ev w0 w1). }
  intros Hrun. specialize (Hinv evs (open st) (or_introl eq_refl) Hrun).
  unfold in_flight.
  destruct Hinv as [Hnone|[s [Hs _]]].
  - rewrite Hnone. simpl. lia.
  - rewrite Hs. simpl. split; [lia|].
    destruct s; simpl; try lia. destruct (aborted _ _); simpl; lia.
Qed.

End Flag.

(** * The client: a generation against a scripted network *)

Section Completing.
Import Client Browser.
Variable net : Network.

Lemma complete_then (A B : Type) (s : Step A) (f : A -> Async B) :
  complete net (then_ s f) =
  match complete net s with
  | (cs, p, inl e) => (cs, p, inl e)
  | (cs, p, inr a) =>
      match complete net (f a p) with
      | (cs', p', r) => (cs ++ cs', p', r)
      end
  end.
Proof.
  induction s as [p [e|a]|p apiKey k IH|p c k IH]; simpl.
  - reflexivity.
  - now destruct (complete net (f a p)) as [[cs' p'] r].
  - apply IH.
  - rewrite IH.
    destruct (complete net (k (answer_of net c) p)) as [[cs p1] [e|a]]; [reflexivity|].
    now destruct (complete net (f a p1)) as [[cs' p'] r].
Qed.

Lemma complete_rescue (A : Type) (s : Step A) (h : Err -> Async A) :
  complete net (rescue s h) =
  match complete net s with
  | (cs, p, inr a) => (cs, p, inr a)
  | (cs, p, inl e) =>
      match complete net (h e p) with
      | (cs', p', r) => (cs ++ cs', p', r)
      end
  end.
Proof.
  induction s as [p [e|a]|p apiKey k IH|p c k IH]; simpl.
  - now destruct (complete net (h e p)) as [[cs' p'] r].
  - reflexivity.
  - apply IH.
  - rewrite IH.
    destruct (complete net (k (answer_of net c) p)) as [[cs p1] [e|a]]; [|reflexivity].
    now destruct (complete net (h e p1)) as [[cs' p'] r].
Qed.

Lemma complete_bind (A B : Type) (t : Async A) (f : A -> Async B) (p : Page) :
  complete net (bind t f p) =
  match complete net (t p) with
  | (cs, p1, inl e) => (cs, p1, inl e)
  | (cs, p1, inr a) =>
      match complete net (f a p1) with
      | (cs', p', r) => (cs ++ cs', p', r)
      end
  end.
Proof. apply complete_then. Qed.

Lemma complete_try_catch (A : Type) (t : Async A) (h : Err -> Async A) (p : Page) :
  complete net (try_catch t h p) =
  match complete net (t p) with
  | (cs, p1, inr a) => (cs, p1, inr a)
  | (cs, p1, inl e) =>
      match complete net (h e p1) with
      | (cs', p', r) => (cs ++ cs', p', r)
      end
  end.
Proof. apply complete_rescue. Qed.

End Completing.

(** * The client: every key in turn when there is no connection *)

Section Offline.
Import Client Browser Generation.
Variable net : Network.
Variable err_of : string -> Err.
Hypothesis rejects : forall c, answer_of net c = Rejected (err_of (call_key c)).
Hypothesis unlisted : forall apiKey, models_of net apiKey = NotListed.
Hypothesis not_aborts : forall apiKey, name (err_of apiKey) <> "AbortError".

(** [lastError] after one more rejected request. *)
Let kept (lastError : option Err) (e : Err) : option Err :=
  match lastError with
  | None => Some e
  | Some l =>
      if Str.includes "All API model configurations failed" (message l)
      then Some e else lastError
  end.

Lemma attempt_offline (c : Call) (lastError : option Err) (p : Page) :
  aborted (call_signal c) p = false ->
  complete net (attempt c lastError p) =
  ([c], p, inr (Continue (kept lastError (err_of (call_key c))))).
Proof.
  intros Hlive. unfold attempt. rewrite complete_try_catch, complete_bind.
  unfold fetch at 1. cbn [complete page_of]. rewrite rejects.
  cbn [complete app]. unfold throw at 1. cbn [complete].
  rewrite complete_bind. unfold get at 1. cbn [complete].
  rewrite Hlive, orb_false_r.
  destruct (String.eqb_spec (name (err_of (call_key c))) "AbortError") as [Habort|_];
    [now apply not_aborts in Habort|].
  reflexivity.
Qed.

Lemma kept_again (e : Err) : kept (Some e) e = Some e.
Proof. unfold kept. now destruct (Str.includes _ _). Qed.

Lemma allFailed_complete (lastError : option Err) (p : Page) :
  complete net (allFailed lastError p) =
  ([], p, snd (complete net (allFailed lastError p))).
Proof.
  unfold allFailed. now destruct (_ || _); destruct lastError.
Qed.

Lemma allFailed_anywhere (lastError : option Err) (p q : Page) :
  snd (complete net (allFailed lastError p)) = snd (complete net (allFailed lastError q)).
Proof.
  unfold allFailed. now destruct (_ || _); destruct lastError.
Qed.

(** A request by its key and its model. *)
Let short (c : Call) : string * string := (call_key c, model (call_config c)).

Let over (apiKey : string) (configs : list ModelConfig) : list (string * string) :=
  map (fun c => (apiKey, model c)) configs.

Lemma tryConfigs_offline (apiKey prompt : string) (signal : nat)
    (configs : list ModelConfig) :
  forall (lastError : option Err) (p : Page),
    aborted signal p = false ->
    lastError = None \/ lastError = Some (err_of apiKey) ->
    exists cs,
      complete net (tryConfigs apiKey prompt signal configs lastError p) =
      (cs, p,
       snd (complete net
              (allFailed (match configs with
                          | [] => lastError
                          | _ :: _ => Some (err_of apiKey)
                          end) p))) /\
      map short cs = over apiKey configs.
Proof.
  induction configs as [|config rest IH]; intros lastError p Hlive Hlast.
  - exists []. simpl tryConfigs. now rewrite allFailed_complete at 1.
  - simpl tryConfigs. rewrite complete_bind. unfold get at 1. cbn [complete].
    rewrite Hlive. rewrite complete_bind, attempt_offline by exact Hlive.
    cbn [call_key].
    assert (Hkept : kept lastError (err_of apiKey) = Some (err_of apiKey))
      by (destruct Hlast as [->| ->]; [reflexivity | apply kept_again]).
    rewrite Hkept.
    destruct (IH (Some (err_of apiKey)) p Hlive (or_intror eq_refl)) as (cs & -> & Hcs).
    eexists. split.
    + f_equal. destruct rest; reflexivity.
    + simpl. now rewrite Hcs.
Qed.

Lemma fresh_controller_is_live (p : Page) (cs : list bool) :
  nth (List.length cs) (cs ++ [false]) false = false.
Proof. now rewrite app_nth2, Nat.sub_diag by lia. Qed.

Lemma tryGenerateWithKey_offline (apiKey combinedMessage : string) (p : Page) :
  exists cs p',
    complete net (tryGenerateWithKey apiKey combinedMessage p) =
    (cs, p', snd (complete net (allFailed (Some (err_of apiKey)) p))) /\
    map short cs = over apiKey modelConfigs /\
    storage p' = storage p.
Proof.
  unfold tryGenerateWithKey. rewrite complete_bind. unfold get at 1. cbn [complete].
  rewrite complete_bind.
  destruct (existsb _ (window p)).
  - unfold ret at 1. cbn [complete]. rewrite complete_bind.
    unfold newAbortController at 1. cbn [complete].
    match goal with
    | |- context [complete net (tryConfigs ?k ?pr ?sg ?cf ?le ?q)] =>
        destruct (@tryConfigs_offline k pr sg cf le q) as (cs & -> & Hcs);
          [apply fresh_controller_is_live; exact p | now left |];
        exists cs, q
    end.
    split; [|split; [exact Hcs | reflexivity]].
    simpl. f_equal. apply allFailed_anywhere.
  - rewrite complete_bind. unfold modify at 1. cbn [complete].
    rewrite complete_bind. unfold checkAvailableModels.
    rewrite complete_bind. unfold listModels at 1. cbn [complete page_of].
    rewrite unlisted. unfold ret at 1 2. cbn [complete withAvailable].
    rewrite complete_bind. unfold newAbortController at 1. cbn [complete].
    match goal with
    | |- context [complete net (tryConfigs ?k ?pr ?sg ?cf ?le ?q)] =>
        destruct (@tryConfigs_offline k pr sg cf le q) as (cs & -> & Hcs);
          [apply fresh_controller_is_live; exact p | now left |];
        exists cs, q
    end.
    split; [|split; [exact Hcs | reflexivity]].
    simpl. f_equal. apply allFailed_anywhere.
Qed.

Lemma tryOtherKeys_offline (apiKey combinedMessage : string) (keys : list ApiKey) :
  forall p,
    exists cs p',
      complete net (tryOtherKeys apiKey combinedMessage keys p) = (cs, p', inr None) /\
      map short cs =
        flat_map (fun k => over k modelConfigs)
                 (filter (fun k => negb (k =? apiKey)%string) (map key keys)) /\
      storage p' = storage p.
Proof.
  induction keys as [|keyObj rest IH]; intros p.
  - exists [], p. now repeat split.
  - simpl tryOtherKeys. simpl map. simpl filter.
    destruct (negb (key keyObj =? apiKey)%string).
    + rewrite complete_bind, complete_try_catch, complete_bind.
      destruct (tryGenerateWithKey_offline (key keyObj) combinedMessage p)
        as (cs & p1 & -> & Hcs & Hst).
      rewrite allFailed_complete. cbn [snd].
      destruct (snd (complete net (allFailed _ _))) as [e|a] eqn:Hthrown.
      * unfold ret at 1. cbn [complete].
        destruct (IH p1) as (cs' & p' & -> & Hcs' & Hst').
        exists ((cs ++ []) ++ cs'), p'. split; [reflexivity|]. split.
        -- rewrite app_nil_r, map_app, Hcs, Hcs'. reflexivity.
        -- congruence.
      * exfalso. revert Hthrown. unfold allFailed.
        now destruct (_ || _).
    + apply IH.
Qed.

Lemma allFailed_thrown (lastError : option Err) (p : Page) :
  exists e, snd (complete net (allFailed lastError p)) = inl e.
Proof. unfold allFailed. destruct (_ || _); simpl; eauto. Qed.

Lemma storage_pushes (msgs : list string) :
  forall p, storage (fold_left (fun q msg => push user msg q) msgs p) = storage p.
Proof.
  induction msgs as [|m msgs IH]; intros p; simpl; [reflexivity|]. now rewrite IH.
Qed.

Lemma getActiveApiKey_storage (p q : Page) :
  storage q = storage p -> getActiveApiKey q = getActiveApiKey p.
Proof. intros H. unfold getActiveApiKey, getUserApiKeys. now rewrite H. Qed.

Lemma primaryKey_storage (p q : Page) :
  storage q = storage p -> primaryKey q = primaryKey p.
Proof.
  intros H. unfold primaryKey. now rewrite (@getActiveApiKey_storage p q H), H.
Qed.

Lemma keyOrder_storage (p q : Page) (apiKey : string) :
  storage q = storage p -> keyOrder q apiKey = keyOrder p apiKey.
Proof.
  intros H. unfold keyOrder, getUserApiKeys, builtin_allowed. now rewrite H.
Qed.

(** X14. With no connection (every request is rejected with an error that
    is no abort, the key's own) [generateAIResponse] asks for every
    configuration with every key, in this order: the primary key, the
    other stored keys in the order they are stored, and last the built-in
    key unless it was the primary key or is switched off; and the error it
    throws in the end is the one the primary key ended with. *)
Theorem X14_offline_every_key_is_tried_in_order
    (combinedMessage : string) (originalMessages : list string) (p : Page)
    (apiKey : string) :
  primaryKey p = Some apiKey -> apiKey <> "" ->
  let run := complete net (generateAIResponse_body combinedMessage originalMessages p) in
  map (fun c => (call_key c, model (call_config c))) (fst (fst run)) =
    flat_map (fun k => map (fun c => (k, model c)) modelConfigs) (keyOrder p apiKey) /\
  snd run = snd (complete net (allFailed (Some (err_of apiKey)) p)) /\
  (Str.includes "404" (message (err_of apiKey))
   || Str.includes "not found" (message (err_of apiKey)) = false ->
   snd run = inl (err_of apiKey)).
Proof.
  intros Hkey Hne run.
  assert (Hthrown : Str.includes "404" (message (err_of apiKey))
                    || Str.includes "not found" (message (err_of apiKey)) = false ->
                    snd (complete net (allFailed (Some (err_of apiKey)) p))
                    = inl (err_of apiKey)).
  { intros H. unfold allFailed. now rewrite H. }
  cut (exists cs pf,
         run = (cs, pf, snd (complete net (allFailed (Some (err_of apiKey)) p))) /\
         map short cs = flat_map (fun k => over k modelConfigs) (keyOrder p apiKey)).
  { intros (cs & pf & -> & Hcs). split; [exact Hcs|]. split; [reflexivity|].
    exact Hthrown. }
  clear Hthrown. subst run. unfold generateAIResponse_body.
  rewrite complete_bind. unfold modify at 1. cbn [complete].
  set (p1 := match originalMessages with
             | [] => push user combinedMessage p
             | _ :: _ => fold_left (fun q msg => push user msg q) originalMessages p
             end).
  assert (Hst1 : storage p1 = storage p).
  { subst p1. destruct originalMessages; [reflexivity | apply storage_pushes]. }
  rewrite complete_bind. unfold get at 1. cbn [complete].
  change (if negb (truthy (if truthy (getActiveApiKey p1) then getActiveApiKey p1
                           else gemini_api_key (storage p1)))
             && negb (DEFAULT_BUILTIN_API_KEY (storage p1) =? "")%string
          then Some (DEFAULT_BUILTIN_API_KEY (storage p1))
          else if truthy (getActiveApiKey p1) then getActiveApiKey p1
               else gemini_api_key (storage p1))
    with (primaryKey p1).
  rewrite (@primaryKey_storage p p1 Hst1), Hkey, Hst1.
  assert (Htruthy : truthy (Some apiKey) = true)
    by (simpl; now destruct (String.eqb_spec apiKey "")).
  rewrite Htruthy. cbn [negb text].
  rewrite complete_try_catch.
  destruct (tryGenerateWithKey_offline apiKey combinedMessage p1)
    as (cs & p2 & -> & Hcs & Hst2).
  destruct (allFailed_thrown (Some (err_of apiKey)) p1) as (e & He).
  rewrite (allFailed_anywhere (Some (err_of apiKey)) p p1), He.
  rewrite complete_bind. unfold get at 1. cbn [complete].
  rewrite complete_bind.
  destruct (tryOtherKeys_offline apiKey combinedMessage (getUserApiKeys p2) p2)
    as (cs' & p3 & -> & Hcs' & Hst3).
  assert (Hkeys : getUserApiKeys p2 = getUserApiKeys p)
    by (unfold getUserApiKeys; now rewrite Hst2, Hst1).
  assert (Hallowed : builtin_allowed p2 = builtin_allowed p)
    by (unfold builtin_allowed; now rewrite Hst2, Hst1).
  rewrite Hkeys in Hcs'. rewrite Hallowed. unfold keyOrder.
  destruct (negb (DEFAULT_BUILTIN_API_KEY (storage p) =? "")%string
            && negb (apiKey =? DEFAULT_BUILTIN_API_KEY (storage p))%string
            && builtin_allowed p).
  - rewrite complete_try_catch.
    destruct (tryGenerateWithKey_offline (DEFAULT_BUILTIN_API_KEY (storage p))
                combinedMessage p3)
      as (cs'' & p4 & -> & Hcs'' & Hst4).
    destruct (allFailed_thrown (Some (err_of (DEFAULT_BUILTIN_API_KEY (storage p)))) p3)
      as (e' & ->).
    unfold throw at 1. cbn [complete fst snd app].
    do 2 eexists. split; [reflexivity|].
    rewrite !app_nil_r, !map_app, Hcs, Hcs', Hcs''.
    cbn [flat_map]. rewrite ?flat_map_app. cbn [flat_map]. rewrite ?app_nil_r. reflexivity.
  - unfold throw at 1. cbn [complete fst snd app].
    do 2 eexists. split; [reflexivity|].
    rewrite !app_nil_r, !map_app, Hcs, Hcs'.
    cbn [flat_map]. rewrite ?flat_map_app. cbn [flat_map]. rewrite ?app_nil_r. reflexivity.
Qed.

End Offline.

(** * The client: a generation that is answered *)

Section Answered.
Import Client Browser Generation.
Variable net : Network.
Variable t : string.
Hypothesis answers : forall c, answer_of net c = Responded (Candidates (Some t)).













End Answered.

(** * The client: the key a generation starts with *)

Section PrimaryKey.
Import Client Browser Generation.

(** [generateAIResponse] from the point where the messages are in the
    history: it throws without a key, and starts with the primary key
    otherwise. *)
Lemma generateAIResponse_body_key (combinedMessage : string)
    (originalMessages : list string) (p : Page) :
  let p1 := match originalMessages with
            | _ :: _ => fold_left (fun q msg => push user msg q) originalMessages p
            | [] => push user combinedMessage p
            end in
  (truthy (primaryKey p) = false ->
   generateAIResponse_body combinedMessage originalMessages p =
   Finished p1 (inl (Error "No API key configured. Please configure an API key to use the AI assistant."))) /\
  (truthy (primaryKey p) = true ->
   exists h,
     generateAIResponse_body combinedMessage originalMessages p =
     rescue (tryGenerateWithKey (text (primaryKey p)) combinedMessage p1) h).
Proof.
  intros p1.
  assert (Hst1 : storage p1 = storage p).
  { subst p1. destruct originalMessages; [reflexivity | apply storage_pushes]. }
  unfold generateAIResponse_body, bind, modify, get. cbn [then_]. fold p1.
  change (if negb (truthy (if truthy (getActiveApiKey p1) then getActiveApiKey p1
                           else gemini_api_key (storage p1)))
             && negb (DEFAULT_BUILTIN_API_KEY (storage p1) =? "")%string
          then Some (DEFAULT_BUILTIN_API_KEY (storage p1))
          else if truthy (getActiveApiKey p1) then getActiveApiKey p1
               else gemini_api_key (storage p1))
    with (primaryKey p1).
  rewrite (@primaryKey_storage p p1 Hst1).
  split; intros Hkey; rewrite Hkey; cbn [negb].
  - reflexivity.
  - eexists. reflexivity.
Qed.

(** What a step waits for with which key. *)
Let asks_with (A : Type) (s : Step A) (apiKey : string) : Prop :=
  match s with
  | Finished _ _ => False
  | AwaitModels _ k _ => k = apiKey
  | AwaitFetch _ c _ => call_key c = apiKey
  end.

Lemma asks_with_then (A B : Type) (s : Step A) (f : A -> Async B) (apiKey : string) :
  asks_with s apiKey -> asks_with (then_ s f) apiKey.
Proof. destruct s as [p [e|a]|p k c|p c k]; simpl; auto; contradiction. Qed.

Lemma asks_with_rescue (A : Type) (s : Step A) (h : Err -> Async A) (apiKey : string) :
  asks_with s apiKey -> asks_with (rescue s h) apiKey.
Proof. destruct s as [p [e|a]|p k c|p c k]; simpl; auto; contradiction. Qed.

Lemma tryGenerateWithKey_asks (apiKey combinedMessage : string) (p : Page) :
  asks_with (tryGenerateWithKey apiKey combinedMessage p) apiKey.
Proof.
  unfold tryGenerateWithKey, bind, get. cbn [then_].
  destruct (existsb _ (window p)).
  - unfold ret, newAbortController. cbn [then_].
    unfold modelConfigs. cbn [tryConfigs]. unfold bind, get. cbn [then_].
    unfold aborted. cbn [controllers set_abortController set_controllers].
    rewrite app_nth2, Nat.sub_diag by lia. cbn [nth].
    apply asks_with_then. unfold attempt, try_catch. apply asks_with_rescue.
    reflexivity.
  - reflexivity.
Qed.

(** X16. Without a stored key and without the legacy entry,
    [generateAIResponse] starts with the built-in key, whatever
    [use_builtin_key] says: also when the user has switched the built-in
    key off, the first request carries it. *)
Theorem X16_builtin_key_is_used_even_when_switched_off
    (combinedMessage : string) (originalMessages : list string) (p : Page) :
  getUserApiKeys p = [] ->
  truthy (gemini_api_key (storage p)) = false ->
  DEFAULT_BUILTIN_API_KEY (storage p) <> "" ->
  primaryKey p = Some (DEFAULT_BUILTIN_API_KEY (storage p)) /\
  match generateAIResponse_body combinedMessage originalMessages p with
  | Finished _ _ => False
  | AwaitModels _ apiKey _ => apiKey = DEFAULT_BUILTIN_API_KEY (storage p)
  | AwaitFetch _ c _ => call_key c = DEFAULT_BUILTIN_API_KEY (storage p)
  end.
Proof.
  intros Hkeys Hlegacy Hbuiltin.
  assert (Hne : (DEFAULT_BUILTIN_API_KEY (storage p) =? "")%string = false)
    by now apply String.eqb_neq.
  assert (Hkey : primaryKey p = Some (DEFAULT_BUILTIN_API_KEY (storage p))).
  { unfold primaryKey, getActiveApiKey. rewrite Hkeys, Hlegacy, Hne. cbn [negb].
    destruct (use_builtin_key (storage p)) as [v|]; cbn [truthy].
    - destruct (String.eqb_spec v "false") as [->|Hv].
      + cbn [truthy]. rewrite Hlegacy. reflexivity.
      + assert (Hsome : match v with
                        | "false" => None
                        | _ => Some (DEFAULT_BUILTIN_API_KEY (storage p))
                        end = Some (DEFAULT_BUILTIN_API_KEY (storage p))).
        { destruct v as [|[[] [] [] [] [] [] [] []] v]; try reflexivity.
          repeat (destruct v as [|[[] [] [] [] [] [] [] []] v]; try reflexivity).
          now contradiction Hv. }
        rewrite Hsome. cbn [truthy]. rewrite ?Hne. cbn [negb andb truthy].
        rewrite ?Hne. reflexivity.
    - rewrite ?Hne. cbn [negb andb truthy]. rewrite ?Hne. reflexivity. }
  split; [exact Hkey|].
  destruct (generateAIResponse_body_key combinedMessage originalMessages p) as [_ Hsome].
  destruct Hsome as (h & ->).
  { rewrite Hkey. cbn [truthy]. now rewrite Hne. }
  rewrite Hkey. cbn [text].
  change (asks_with (rescue (tryGenerateWithKey (DEFAULT_BUILTIN_API_KEY (storage p))
                               combinedMessage
                               match originalMessages with
                               | [] => push user combinedMessage p
                               | _ :: _ =>
                                   fold_left (fun q msg => push user msg q)
                                             originalMessages p
                               end) h)
                    (DEFAULT_BUILTIN_API_KEY (storage p))).
  apply asks_with_rescue, tryGenerateWithKey_asks.
Qed.


End PrimaryKey.

(** * The client: several messages in a row *)

Section Debounce.
Import Client Browser Generation.





End Debounce.

(** * The client: Stop when there is no other key *)

Section Stopping.
Import Client Browser Generation.











End Stopping.

(** * The client on more concrete pages *)

Section MoreClientInstances.
Import Client Browser Generation.

Lemma X14_two_keys_offline :
  let run := complete offline (generateAIResponse_body "hello" ["hello"] (load two_keys)) in
  keyOrder (load two_keys) "AIzaKEY-one-0000000" =
    ["AIzaKEY-one-0000000"; "AIzaKEY-two-0000000"] /\
  List.length (fst (fst run)) = 18 /\
  map (fun c => (call_key c, model (call_config c))) (fst (fst run)) =
    flat_map (fun k => map (fun c => (k, model c)) modelConfigs)
             (keyOrder (load two_keys) "AIzaKEY-one-0000000") /\
  snd run = inl (TypeError "Failed to fetch").
Proof.
  destruct (@X14_offline_every_key_is_tried_in_order offline
              (fun _ => TypeError "Failed to fetch")
              (fun _ => eq_refl) (fun _ => eq_refl)
              (fun _ H => ltac:(discriminate H))
              "hello" ["hello"] (load two_keys) "AIzaKEY-one-0000000"
              eq_refl ltac:(discriminate))
    as (Hcalls & _ & Hthrown).
  split; [reflexivity|]. split; [|split; [exact Hcalls | apply Hthrown; reflexivity]].
  apply (f_equal (@List.length _)) in Hcalls. rewrite length_map in Hcalls.
  rewrite Hcalls. reflexivity.
Defined.


Lemma X16_switched_off_and_used :
  primaryKey (load builtin_off) = Some "AIzaKEY-one-0000000" /\
  match generateAIResponse_body "hello" ["hello"] (load builtin_off) with
  | Finished _ _ => False
  | AwaitModels _ apiKey _ => apiKey = "AIzaKEY-one-0000000"
  | AwaitFetch _ c _ => call_key c = "AIzaKEY-one-0000000"
  end.
Proof.
  apply (@X16_builtin_key_is_used_even_when_switched_off "hello" ["hello"]
           (load builtin_off)); [reflexivity | reflexivity | discriminate].
Defined.




End MoreClientInstances.

(** * The client: the key list *)

Section KeyList.
Import KeyStore.

Lemma mark_embedded_keys (k : string) (stored : list Entry) :
  map key (mark_embedded k stored) = map key stored.
Proof.
  induction stored as [|s stored IH]; simpl; [reflexivity|].
  destruct (key s =? k)%string; simpl; [reflexivity | now rewrite IH].
Qed.

Lemma find_key (k : string) (stored : list Entry) :
  existsb (String.eqb k) (map key stored) = true ->
  exists e, find (fun s => (key s =? k)%string) stored = Some e /\ key e = k.
Proof.
  induction stored as [|s stored IH]; simpl; [discriminate|].
  rewrite (String.eqb_sym k (key s)).
  destruct (String.eqb_spec (key s) k) as [Hk|_]; simpl; [eauto | exact IH].
Qed.

(** The loop over the embedded keys pushes one object for each of them, in
    their order, and every object it pushes is marked as embedded. *)
Lemma importEmbedded_keys (now : nat) (valid : list string) :
  forall (index : nat) (stored keys : list Entry) (existing : list string),
    existing = map key stored ->
    map key (fst (importEmbedded now existing index valid stored keys)) =
      map key keys ++ valid /\
    map key (snd (importEmbedded now existing index valid stored keys)) = existing /\
    (Forall (fun e => embedded e = true) keys ->
     Forall (fun e => embedded e = true)
            (fst (importEmbedded now existing index valid stored keys))).
Proof.
  induction valid as [|k valid IH]; intros index stored keys existing Hexisting.
  - simpl. rewrite app_nil_r. auto.
  - cbn [importEmbedded].
    destruct (existsb (String.eqb k) existing) eqn:Hhas; cbn [negb].
    + rewrite Hexisting in Hhas. destruct (find_key _ _ Hhas) as (e & -> & He).
      destruct (IH (S index) (mark_embedded k stored) (keys ++ [set_embedded true e])
                   existing)
        as (Hkeys & Hstored & Hall);
        [now rewrite mark_embedded_keys|].
      split; [|split; [exact Hstored|]].
      * rewrite Hkeys, map_app, <- app_assoc. simpl. now rewrite He.
      * intros H. apply Hall. apply Forall_app. split; [exact H|]. now constructor.
    + destruct (IH (S index) stored
                   (keys ++ [{| id := "embedded_" ++ Client.status_text index; key := k;
                                addedAt := now; active := index =? 0;
                                status := "working"; preconfigured := true;
                                embedded := true |}])
                   existing Hexisting)
        as (Hkeys & Hstored & Hall).
      split; [|split; [exact Hstored|]].
      * rewrite Hkeys, map_app, <- app_assoc. reflexivity.
      * intros H. apply Hall. apply Forall_app. split; [exact H|]. now constructor.
Qed.

(** The loop over the stored keys only adds to the list, and leaves out no
    key that is not marked as embedded. *)
Lemma keepStored_more (stored : list Entry) :
  forall keys,
    (exists more, keepStored stored keys = keys ++ more) /\
    (forall s, In s stored -> embedded s = false ->
               In (key s) (map key (keepStored stored keys))).
Proof.
  induction stored as [|s stored IH]; intros keys.
  - split; [exists []; now rewrite app_nil_r | intros s []].
  - cbn [keepStored].
    set (keys' := if negb (embedded s)
                     && negb (existsb (fun k => (key k =? key s)%string) keys)
                  then keys ++ [s] else keys).
    destruct (IH keys') as ((more & Hmore) & Hin).
    assert (Hgrows : exists one, keys' = keys ++ one).
    { subst keys'. destruct (_ && _); [now exists [s] | exists []; now rewrite app_nil_r]. }
    destruct Hgrows as (one & Hone).
    split.
    + exists (one ++ more). now rewrite Hmore, Hone, <- app_assoc.
    + intros s0 [<-|Hs0] Hplain; [|now apply Hin].
      rewrite Hmore, map_app. apply in_or_app. left.
      subst keys'. rewrite Hplain. cbn [negb andb].
      destruct (existsb _ keys) eqn:Hthere; cbn [negb].
      * apply existsb_exists in Hthere. destruct Hthere as (k & Hk & Heq).
        apply String.eqb_eq in Heq. rewrite <- Heq. now apply in_map.
      * rewrite map_app. apply in_or_app. right. now left.
Qed.

Lemma ensureActive_keys (keys : list Entry) :
  map key (ensureActive keys) = map key keys /\
  map embedded (ensureActive keys) = map embedded keys /\
  (keys <> [] -> existsb active (ensureActive keys) = true).
Proof.
  unfold ensureActive.
  destruct (existsb active keys) eqn:Hactive; cbn [negb andb].
  - auto.
  - destruct keys as [|first rest]; simpl; [repeat split; intros H; now contradiction H|].
    rewrite !map_map. simpl. repeat split.
Qed.

Lemma mark_embedded_or_key (k : string) (stored : list Entry) (s : Entry) :
  In s stored -> In s (mark_embedded k stored) \/ key s = k.
Proof.
  induction stored as [|s0 stored IH]; intros Hin; [destruct Hin|].
  simpl. destruct (String.eqb_spec (key s0) k) as [Hk|Hk].
  - destruct Hin as [<-|Hin]; [now right | left; now right].
  - destruct Hin as [<-|Hin]; [left; now left|].
    destruct (IH Hin) as [H|H]; [left; now right | now right].
Qed.

Lemma importEmbedded_marked (now : nat) (valid : list string) (s : Entry) :
  forall (index : nat) (stored keys : list Entry) (existing : list string),
    In s stored ->
    In s (snd (importEmbedded now existing index valid stored keys)) \/
    In (key s) valid.
Proof.
  induction valid as [|k valid IH]; intros index stored keys existing Hin.
  - now left.
  - cbn [importEmbedded].
    destruct (negb (existsb (String.eqb k) existing)).
    + destruct (IH (S index) stored
                   (keys ++ [{| id := "embedded_" ++ Client.status_text index; key := k;
                                addedAt := now; active := index =? 0;
                                status := "working"; preconfigured := true;
                                embedded := true |}]) existing Hin) as [H|H];
        [now left | right; now right].
    + destruct (find _ stored) as [e|].
      * destruct (mark_embedded_or_key k stored s Hin) as [Hm|Hk].
        -- destruct (IH (S index) (mark_embedded k stored)
                        (keys ++ [set_embedded true e]) existing Hm) as [H|H];
             [now left | right; now right].
        -- right. now left.
      * destruct (IH (S index) stored keys existing Hin) as [H|H];
          [now left | right; now right].
Qed.

(** What [getUserApiKeys] gives when it does not answer from the cache and
    there are embedded keys. *)
Lemma loadUserApiKeys_embedded (now : nat) (st : State) :
  validEmbeddedKeys st <> [] ->
  let keys := fst (loadUserApiKeys now st) in
  let st' := snd (loadUserApiKeys now st) in
  (exists others, map key keys = validEmbeddedKeys st ++ others) /\
  Forall (fun e => embedded e = true)
         (firstn (List.length (validEmbeddedKeys st)) keys) /\
  (forall s, In s (storedKeys st) -> embedded s = false -> In (key s) (map key keys)) /\
  existsb active keys = true /\
  gemini_api_keys_global st' = Some keys /\
  cachedApiKeys st' = Some keys /\
  apiKeysCacheTime st' = now /\
  PRE_CONFIGURED_API_KEYS st' = PRE_CONFIGURED_API_KEYS st /\
  DEFAULT_BUILTIN_API_KEY st' = DEFAULT_BUILTIN_API_KEY st /\
  gemini_api_key st' = gemini_api_key st /\
  use_builtin_key st' = use_builtin_key st.
Proof.
  intros Hvalid. unfold loadUserApiKeys.
  assert (Hpre : (0 <? List.length (PRE_CONFIGURED_API_KEYS st)) = true).
  { unfold validEmbeddedKeys in Hvalid.
    destruct (PRE_CONFIGURED_API_KEYS st); [now contradiction Hvalid | reflexivity]. }
  assert (Hsome : (0 <? List.length (validEmbeddedKeys st)) = true)
    by (destruct (validEmbeddedKeys st); [now contradiction Hvalid | reflexivity]).
  rewrite Hpre, Hsome. cbn [andb].
  destruct (@importEmbedded_keys now (validEmbeddedKeys st) 0 (storedKeys st) []
              (map key (storedKeys st)) eq_refl) as (Hkeys & _ & Hall).
  pose proof (fun s => @importEmbedded_marked now (validEmbeddedKeys st) s 0
                         (storedKeys st) [] (map key (storedKeys st))) as Hmarked.
  destruct (importEmbedded now (map key (storedKeys st)) 0 (validEmbeddedKeys st)
              (storedKeys st) []) as [imported marked].
  cbn [fst snd] in Hkeys, Hall, Hmarked. simpl in Hkeys.
  specialize (Hall (Forall_nil _)).
  destruct (keepStored_more marked imported) as ((more & Hmore) & Hkept).
  destruct (ensureActive_keys (keepStored marked imported)) as (Hk & He & Ha).
  assert (Hne : keepStored marked imported <> []).
  { rewrite Hmore. intros H. apply app_eq_nil in H. destruct H as [H _].
    rewrite H in Hkeys. simpl in Hkeys. now apply Hvalid. }
  assert (Hne' : ensureActive (keepStored marked imported) <> []).
  { intros H. rewrite H in Hk. simpl in Hk. symmetry in Hk.
    apply map_eq_nil in Hk. now apply Hne. }
  destruct (ensureActive (keepStored marked imported)) as [|first rest] eqn:Hlist;
    [now contradiction Hne'|].
  cbn [List.length Nat.ltb Nat.leb Nat.eqb fst snd].
  cbn [gemini_api_keys_global cachedApiKeys apiKeysCacheTime PRE_CONFIGURED_API_KEYS
       DEFAULT_BUILTIN_API_KEY gemini_api_key use_builtin_key
       set_cache set_embedded_keys_imported saveUserApiKeys set_gemini_api_keys_global].
  split; [|split; [|split; [|split; [now apply Ha|repeat split]]]].
  - exists (map key more). now rewrite Hk, Hmore, map_app, Hkeys.
  - assert (Hlen : List.length (validEmbeddedKeys st) = List.length imported)
      by (rewrite <- Hkeys; now rewrite length_map).
    apply Forall_forall. intros e Hin.
    assert (Hemb : In (embedded e)
                      (firstn (List.length (validEmbeddedKeys st))
                              (map embedded (first :: rest))))
      by (rewrite firstn_map; now apply in_map).
    rewrite He, Hlen, Hmore, map_app, firstn_app, length_map, Nat.sub_diag in Hemb.
    rewrite firstn_all2 in Hemb by (rewrite length_map; lia).
    simpl in Hemb. rewrite app_nil_r in Hemb.
    apply in_map_iff in Hemb. destruct Hemb as (e0 & He0 & Hin0).
    rewrite <- He0. rewrite Forall_forall in Hall. now apply Hall.
  - intros s Hin Hplain. rewrite Hk.
    destruct (Hmarked s Hin) as [Hm|Hv].
    + now apply Hkept.
    + rewrite Hmore, map_app, Hkeys. apply in_or_app. now left.
Qed.

Lemma getUserApiKeys_stale (now : nat) (st : State) :
  stale now st -> getUserApiKeys now st = loadUserApiKeys now st.
Proof.
  unfold getUserApiKeys. intros [->|Hold]; [reflexivity|].
  destruct (cachedApiKeys st) as [cached|]; [|reflexivity].
  destruct (Nat.ltb_spec now (apiKeysCacheTime st + API_KEYS_CACHE_DURATION));
    [lia | reflexivity].
Qed.

Lemma getUserApiKeys_fresh (now : nat) (st : State) (cached : list Entry) :
  cachedApiKeys st = Some cached ->
  now < apiKeysCacheTime st + API_KEYS_CACHE_DURATION ->
  getUserApiKeys now st = (cached, st).
Proof.
  intros Hc Hnew. unfold getUserApiKeys. rewrite Hc.
  destruct (Nat.ltb_spec now (apiKeysCacheTime st + API_KEYS_CACHE_DURATION));
    [reflexivity | lia].
Qed.

(** X20. When the cache cannot answer (it is empty, or five seconds old)
    and the script holds embedded keys that start with "AIza", pairwise
    distinct as the module takes them, [getUserApiKeys] answers a list that
    begins with one entry for each embedded key, in the order of
    [PRE_CONFIGURED_API_KEYS], each marked embedded; every stored key that
    is not marked embedded is still in the list; some key of the list is
    active; and the list is what [localStorage] and the cache then hold,
    the cache stamped with the time of the call. *)
Theorem X20_embedded_keys_are_always_offered (now : nat) (st : State) :
  stale now st ->
  validEmbeddedKeys st <> [] ->
  NoDup (validEmbeddedKeys st) ->
  let keys := fst (getUserApiKeys now st) in
  let st' := snd (getUserApiKeys now st) in
  (exists others, map key keys = validEmbeddedKeys st ++ others) /\
  Forall (fun e => embedded e = true)
         (firstn (List.length (validEmbeddedKeys st)) keys) /\
  (forall s, In s (storedKeys st) -> embedded s = false -> In (key s) (map key keys)) /\
  existsb active keys = true /\
  gemini_api_keys_global st' = Some keys /\
  cachedApiKeys st' = Some keys /\
  apiKeysCacheTime st' = now.
Proof.
  intros Hstale Hvalid _ keys st'. subst keys st'.
  rewrite (getUserApiKeys_stale Hstale).
  destruct (loadUserApiKeys_embedded now st Hvalid)
    as (H1 & H2 & H3 & H4 & H5 & H6 & H7 & _).
  repeat split; assumption.
Qed.

End KeyList.

(** * The client: choosing a key *)

Section KeyChoice.
Import KeyStore.

(** What [getUserApiKeys] leaves alone. *)
Lemma getUserApiKeys_frame (now : nat) (st : State) :
  let st' := snd (getUserApiKeys now st) in
  PRE_CONFIGURED_API_KEYS st' = PRE_CONFIGURED_API_KEYS st /\
  DEFAULT_BUILTIN_API_KEY st' = DEFAULT_BUILTIN_API_KEY st /\
  gemini_api_key st' = gemini_api_key st /\
  use_builtin_key st' = use_builtin_key st /\
  gemini_key_input st' = gemini_key_input st.
Proof.
  assert (Hload : let st' := snd (loadUserApiKeys now st) in
                  PRE_CONFIGURED_API_KEYS st' = PRE_CONFIGURED_API_KEYS st /\
                  DEFAULT_BUILTIN_API_KEY st' = DEFAULT_BUILTIN_API_KEY st /\
                  gemini_api_key st' = gemini_api_key st /\
                  use_builtin_key st' = use_builtin_key st /\
                  gemini_key_input st' = gemini_key_input st).
  { unfold loadUserApiKeys.
    destruct (_ && _); [|now repeat split].
    destruct (importEmbedded _ _ _ _ _ _) as [imported marked].
    destruct (0 <? _); now repeat split. }
  unfold getUserApiKeys.
  destruct (cachedApiKeys st) as [cached|]; [|exact Hload].
  destruct (now <? _); [now repeat split | exact Hload].
Qed.

(** After [getUserApiKeys] the cache holds what it gave, and is not older
    than [now]. *)
Lemma getUserApiKeys_cached (now : nat) (st : State) :
  cachedApiKeys (snd (getUserApiKeys now st)) = Some (fst (getUserApiKeys now st)) /\
  now < apiKeysCacheTime (snd (getUserApiKeys now st)) + API_KEYS_CACHE_DURATION.
Proof.
  assert (Hload : cachedApiKeys (snd (loadUserApiKeys now st))
                  = Some (fst (loadUserApiKeys now st)) /\
                  now < apiKeysCacheTime (snd (loadUserApiKeys now st))
                        + API_KEYS_CACHE_DURATION).
  { unfold loadUserApiKeys.
    destruct (_ && _); [|split; [reflexivity | unfold API_KEYS_CACHE_DURATION; simpl; lia]].
    destruct (importEmbedded _ _ _ _ _ _) as [imported marked].
    destruct (0 <? _); (split; [reflexivity | unfold API_KEYS_CACHE_DURATION; simpl; lia]). }
  unfold getUserApiKeys.
  destruct (cachedApiKeys st) as [cached|] eqn:Hc; [|exact Hload].
  destruct (Nat.ltb_spec now (apiKeysCacheTime st + API_KEYS_CACHE_DURATION));
    [|exact Hload].
  simpl. now split.
Qed.

Lemma getActiveApiKey_fresh (now : nat) (st : State) (first : Entry) (rest : list Entry) :
  cachedApiKeys st = Some (first :: rest) ->
  now < apiKeysCacheTime st + API_KEYS_CACHE_DURATION ->
  getActiveApiKey now st =
  (Some (key (match find active (first :: rest) with
              | Some activeKey => activeKey
              | None => last (first :: rest) first
              end)), st).
Proof.
  intros Hc Hnew. unfold getActiveApiKey.
  now rewrite (getUserApiKeys_fresh _ Hc Hnew).
Qed.

Lemma find_chosen (keyId : string) (keys : list Entry) :
  find active (map (fun k => set_active (id k =? keyId)%string k) keys) =
  option_map (set_active true) (find (fun k => (id k =? keyId)%string) keys).
Proof.
  induction keys as [|k keys IH]; simpl; [reflexivity|].
  destruct (id k =? keyId)%string; [reflexivity | exact IH].
Qed.

Lemma last_map (A B : Type) (f : A -> B) (xs : list A) (d : A) :
  last (map f xs) (f d) = f (last xs d).
Proof.
  induction xs as [|x xs IH]; simpl; [reflexivity|].
  destruct xs; [reflexivity | exact IH].
Qed.

(** X21. [setActiveApiKey] stores the list [getUserApiKeys] answers with
    exactly the keys of the given identifier active. While the cache is
    trusted, [getActiveApiKey] then answers the key of the first entry with
    that identifier; for an identifier no entry has, no key is active any
    more and [getActiveApiKey] answers the last key of the list. *)
Theorem X21_the_chosen_key_is_the_active_key
    (now now' : nat) (keyId : string) (st : State) :
  now' < now + API_KEYS_CACHE_DURATION ->
  let keys := fst (getUserApiKeys now st) in
  let st' := setActiveApiKey now keyId st in
  storedKeys st' = map (fun k => set_active (id k =? keyId)%string k) keys /\
  (forall k, In k (storedKeys st') -> active k = true <-> id k = keyId) /\
  (forall e, find (fun k => (id k =? keyId)%string) keys = Some e ->
             fst (getActiveApiKey now' st') = Some (key e)) /\
  (forall first rest,
     keys = first :: rest ->
     find (fun k => (id k =? keyId)%string) keys = None ->
     fst (getActiveApiKey now' st') = Some (key (last keys first))).
Proof.
  intros Hnew keys st'.
  assert (Hst' : st' = saveUserApiKeys now
                         (map (fun k => set_active (id k =? keyId)%string k) keys)
                         (snd (getUserApiKeys now st))).
  { subst st' keys. unfold setActiveApiKey.
    now destruct (getUserApiKeys now st) as [ks st1]. }
  assert (Hstored : storedKeys st' =
                    map (fun k => set_active (id k =? keyId)%string k) keys)
    by (rewrite Hst'; reflexivity).
  split; [exact Hstored|]. split.
  - intros k Hin. rewrite Hstored in Hin. apply in_map_iff in Hin.
    destruct Hin as (k0 & <- & _). simpl. apply String.eqb_eq.
  - assert (Hactive : forall first rest,
              keys = first :: rest ->
              getActiveApiKey now' st' =
              (Some (key (match find active (map (fun k => set_active (id k =? keyId)%string k) keys) with
                          | Some activeKey => activeKey
                          | None => last (map (fun k => set_active (id k =? keyId)%string k) keys)
                                         (set_active (id first =? keyId)%string first)
                          end)), st')).
    { intros first rest Hkeys. rewrite Hkeys. cbn [map].
      apply getActiveApiKey_fresh.
      - rewrite Hst', Hkeys. reflexivity.
      - rewrite Hst'. exact Hnew. }
    split.
    + intros e Hfind. destruct keys as [|first rest] eqn:Hkeys; [discriminate|].
      rewrite (Hactive first rest eq_refl), find_chosen, Hfind. reflexivity.
    + intros first rest Hkeys Hfind.
      rewrite (Hactive first rest Hkeys), find_chosen, Hfind. cbn [option_map fst].
      now rewrite (last_map (fun k => set_active (id k =? keyId)%string k)).
Qed.

End KeyChoice.

(** * The client: adding and removing a key *)

Section KeyChanges.
Import KeyStore.

Lemma getUserApiKeys_again (now : nat) (st : State) :
  getUserApiKeys now (snd (getUserApiKeys now st)) =
  (fst (getUserApiKeys now st), snd (getUserApiKeys now st)).
Proof.
  destruct (getUserApiKeys_cached now st) as [Hc Hnew].
  now apply getUserApiKeys_fresh.
Qed.

(** X22. [addApiKey] adds a key exactly when the trimmed input starts with
    "AIza", no key of the list has that value and the test of the key
    succeeds. The stored list is then the new key, active, in front of the
    earlier keys, all of them switched off; [getActiveApiKey] answers the
    new key while the cache is trusted; the key is also in the legacy entry
    [gemini_api_key] and the input is empty. In every other case
    [getUserApiKeys] answers the list it answered before. *)
Theorem X22_a_key_is_added_only_if_new_and_working
    (now tested now' : nat) (isValid : bool) (st : State) :
  now' < tested + API_KEYS_CACHE_DURATION ->
  let k := Str.trim (gemini_key_input st) in
  let keys := fst (getUserApiKeys now st) in
  let added := fst (addApiKey now tested isValid st) in
  let st' := snd (addApiKey now tested isValid st) in
  (added = KeyAdded <->
   Str.starts_with "AIza" k = true /\
   existsb (fun e => (key e =? k)%string) keys = false /\
   isValid = true) /\
  (added = KeyAdded ->
   storedKeys st' =
     {| id := Client.status_text tested; key := k; addedAt := tested; active := true;
        status := "working"; preconfigured := false; embedded := false |}
     :: map (set_active false) keys /\
   fst (getActiveApiKey now' st') = Some k /\
   gemini_api_key st' = Some k /\
   gemini_key_input st' = "") /\
  (added <> KeyAdded -> fst (getUserApiKeys now st') = keys).
Proof.
  intros Hnew k keys added st'. subst keys added st'. unfold addApiKey. fold k.
  destruct (String.eqb_spec k "") as [Hempty|Hne]; cbn [orb].
  { rewrite Hempty. simpl. split; [|split].
    - split; [discriminate | intros (H & _); discriminate].
    - discriminate.
    - reflexivity. }
  destruct (Str.starts_with "AIza" k) eqn:Hstarts; cbn [negb].
  2:{ simpl. split; [|split].
      - split; [discriminate | intros (H & _); discriminate].
      - discriminate.
      - reflexivity. }
  pose proof (getUserApiKeys_again now st) as Hagain.
  pose proof (getUserApiKeys_cached now st) as [Hcached Hfresh].
  destruct (getUserApiKeys now st) as [keys st1] eqn:Hget.
  cbn [fst snd] in *.
  destruct (existsb (fun e => (key e =? k)%string) keys) eqn:Hexists.
  { simpl. split; [|split].
    - split; [discriminate | intros (_ & H & _); discriminate].
    - discriminate.
    - intros _. unfold getUserApiKeys. simpl. rewrite Hcached.
      now destruct (Nat.ltb_spec now (apiKeysCacheTime st1 + API_KEYS_CACHE_DURATION)); [|lia]. }
  destruct isValid; cbn [negb].
  2:{ simpl. split; [|split].
      - split; [discriminate | intros (_ & _ & H); discriminate].
      - discriminate.
      - intros _. now rewrite Hagain. }
  cbn [fst snd]. split; [|split].
  - split; auto.
  - intros _. split; [reflexivity|]. split; [|split; reflexivity].
    unfold getActiveApiKey, getUserApiKeys. simpl.
    destruct (Nat.ltb_spec now' (tested + API_KEYS_CACHE_DURATION)); [|lia]. reflexivity.
  - intros H. now contradiction H.
Qed.

(** The list [removeApiKey] saves. *)
Let remaining (keyId : string) (keys : list Entry) : list Entry :=
  match filter (fun k => negb (id k =? keyId)%string) keys with
  | first :: rest =>
      if existsb (fun k => (id k =? keyId)%string && active k) keys
      then set_active true first :: rest
      else filter (fun k => negb (id k =? keyId)%string) keys
  | [] => []
  end.

Lemma removeApiKey_state (now : nat) (keyId : string) (st : State) :
  let st' := removeApiKey now keyId true st in
  gemini_api_keys_global st' = Some (remaining keyId (fst (getUserApiKeys now st))) /\
  cachedApiKeys st' = Some (remaining keyId (fst (getUserApiKeys now st))) /\
  apiKeysCacheTime st' = now /\
  PRE_CONFIGURED_API_KEYS st' = PRE_CONFIGURED_API_KEYS st.
Proof.
  change (removeApiKey now keyId true st)
    with (let (keys, st1) := getUserApiKeys now st in
          let (activeKey, st3) :=
            getActiveApiKey now (saveUserApiKeys now (remaining keyId keys) st1) in
          if truthy activeKey then set_gemini_api_key activeKey st3
          else set_gemini_api_key None st3).
  destruct (getUserApiKeys_frame now st) as (Hpre & _).
  destruct (getUserApiKeys now st) as [keys st1]. cbn [fst snd] in *.
  set (st2 := saveUserApiKeys now (remaining keyId keys) st1).
  assert (Hget : getUserApiKeys now st2 = (remaining keyId keys, st2)).
  { apply getUserApiKeys_fresh; [reflexivity|].
    unfold API_KEYS_CACHE_DURATION. simpl. lia. }
  unfold getActiveApiKey. rewrite Hget.
  destruct (remaining keyId keys) as [|first rest] eqn:Hrem.
  - destruct (truthy (gemini_api_key st2)) eqn:Hlegacy.
    + rewrite Hlegacy. now repeat split.
    + destruct (negb (DEFAULT_BUILTIN_API_KEY st2 =? "")%string) eqn:Hb.
      * destruct (use_builtin_key st2) as [v|].
        -- assert (Hcase : forall (A : Type) (x y : A),
                      match v with "false" => x | _ => y end = x \/
                      match v with "false" => x | _ => y end = y).
           { intros A x y.
             destruct v as [|[[] [] [] [] [] [] [] []] v]; auto.
             repeat (destruct v as [|[[] [] [] [] [] [] [] []] v]; auto). }
           destruct (Hcase _ (@None string, st2) (Some (DEFAULT_BUILTIN_API_KEY st2), st2))
             as [-> | ->].
           ++ simpl. now repeat split.
           ++ cbn [truthy]. rewrite Hb. now repeat split.
        -- cbn [truthy]. simpl DEFAULT_BUILTIN_API_KEY in *. rewrite Hb. now repeat split.
      * simpl. now repeat split.
  - cbn [truthy].
    destruct (negb _); now repeat split.
Qed.

Lemma remaining_ids (keyId : string) (keys : list Entry) (e : Entry) :
  In e (remaining keyId keys) -> id e <> keyId.
Proof.
  unfold remaining.
  assert (Hfilter : forall x, In x (filter (fun k => negb (id k =? keyId)%string) keys) ->
                              id x <> keyId).
  { intros x Hx. apply filter_In in Hx. destruct Hx as [_ Hx].
    now destruct (String.eqb_spec (id x) keyId). }
  destruct (filter _ keys) as [|first rest]; [intros []|].
  destruct (existsb _ keys); [|apply Hfilter].
  intros [<-|Hin].
  - apply (Hfilter first). now left.
  - apply Hfilter. now right.
Qed.

Lemma importEmbedded_more (now : nat) (valid : list string) :
  forall (index : nat) (stored keys : list Entry) (existing : list string),
    exists more,
      fst (importEmbedded now existing index valid stored keys) = keys ++ more.
Proof.
  induction valid as [|k valid IH]; intros index stored keys existing.
  - exists []. simpl. now rewrite app_nil_r.
  - cbn [importEmbedded].
    destruct (negb (existsb (String.eqb k) existing)).
    + destruct (IH (S index) stored
                   (keys ++ [{| id := "embedded_" ++ Client.status_text index; key := k;
                                addedAt := now; active := index =? 0;
                                status := "working"; preconfigured := true;
                                embedded := true |}]) existing) as (more & ->).
      eexists. now rewrite <- app_assoc.
    + destruct (find _ stored) as [e|].
      * destruct (IH (S index) (mark_embedded k stored)
                     (keys ++ [set_embedded true e]) existing) as (more & ->).
        eexists. now rewrite <- app_assoc.
      * apply IH.
Qed.

(** When the first embedded key is not in the stored list, the list
    [getUserApiKeys] builds starts with it, as the active key. *)
Lemma loadUserApiKeys_first (now : nat) (st : State) (k0 : string) (rest : list string) :
  validEmbeddedKeys st = k0 :: rest ->
  ~ In k0 (map key (storedKeys st)) ->
  exists first others,
    fst (loadUserApiKeys now st) = first :: others /\
    key first = k0 /\ active first = true.
Proof.
  intros Hvalid Hmissing. unfold loadUserApiKeys.
  assert (Hpre : (0 <? List.length (PRE_CONFIGURED_API_KEYS st)) = true).
  { unfold validEmbeddedKeys in Hvalid.
    destruct (PRE_CONFIGURED_API_KEYS st); [discriminate | reflexivity]. }
  rewrite Hpre, Hvalid. cbn [List.length Nat.ltb Nat.leb andb importEmbedded].
  assert (Hnot : existsb (String.eqb k0) (map key (storedKeys st)) = false).
  { destruct (existsb _ _) eqn:H; [|reflexivity].
    apply existsb_exists in H. destruct H as (x & Hx & Heq).
    apply String.eqb_eq in Heq. subst x. contradiction. }
  rewrite Hnot. cbn [negb app Nat.eqb].
  match goal with
  | |- context [importEmbedded now ?ex ?i ?v ?s ?ks] =>
      destruct (@importEmbedded_more now v i s ks ex) as (more & Hmore);
      destruct (importEmbedded now ex i v s ks) as [imported marked]
  end.
  cbn [fst] in Hmore. subst imported.
  destruct (keepStored_more marked
              ([{| id := "embedded_" ++ Client.status_text 0; key := k0; addedAt := now;
                   active := true; status := "working"; preconfigured := true;
                   embedded := true |}] ++ more)) as ((more' & ->) & _).
  unfold ensureActive. cbn [app existsb active negb andb orb List.length Nat.ltb Nat.leb
                            Nat.eqb fst].
  eexists _, _. split; [reflexivity|]. now split.
Qed.

(** X23. [removeApiKey], once confirmed. For the five seconds the cache is
    trusted no key [getUserApiKeys] answers has the removed identifier. Once
    the cache is stale every embedded key is in the answer again, so an
    embedded key is never removed for longer (the embedded keys pairwise
    distinct, as the module takes them). And if the first embedded key is
    the one storage lacks, it comes back active: [getActiveApiKey] answers
    it, whichever key was active when the cache ran out. *)
Theorem X23_a_removed_embedded_key_comes_back
    (now now' : nat) (keyId : string) (st : State) :
  validEmbeddedKeys st <> [] ->
  NoDup (validEmbeddedKeys st) ->
  now + API_KEYS_CACHE_DURATION <= now' ->
  let st' := removeApiKey now keyId true st in
  (forall soon e,
     soon < now + API_KEYS_CACHE_DURATION ->
     In e (fst (getUserApiKeys soon st')) -> id e <> keyId) /\
  (forall k, In k (validEmbeddedKeys st) ->
             In k (map key (fst (getUserApiKeys now' st')))) /\
  (forall k0 rest,
     validEmbeddedKeys st = k0 :: rest ->
     ~ In k0 (map key (storedKeys st')) ->
     fst (getActiveApiKey now' st') = Some k0).
Proof.
  intros Hvalid _ Hlater st'.
  destruct (removeApiKey_state now keyId st) as (Hstored & Hcache & Htime & Hpre).
  fold st' in Hstored, Hcache, Htime, Hpre.
  assert (Hsame : validEmbeddedKeys st' = validEmbeddedKeys st)
    by (unfold validEmbeddedKeys; now rewrite Hpre).
  assert (Hstale : stale now' st') by (right; rewrite Htime; exact Hlater).
  split; [|split].
  - intros soon e Hsoon Hin.
    rewrite (@getUserApiKeys_fresh soon st' _ Hcache) in Hin by now rewrite Htime.
    now apply remaining_ids in Hin.
  - intros k Hk. rewrite (getUserApiKeys_stale Hstale).
    destruct (@loadUserApiKeys_embedded now' st') as ((others & ->) & _);
      [now rewrite Hsame|].
    rewrite Hsame. apply in_or_app. now left.
  - intros k0 rest Hfirst Hmissing.
    unfold getActiveApiKey. rewrite (getUserApiKeys_stale Hstale).
    destruct (@loadUserApiKeys_first now' st' k0 rest) as (first & others & Hload & Hk & Ha);
      [now rewrite Hsame | exact Hmissing |].
    destruct (loadUserApiKeys now' st') as [keys st2]. cbn [fst] in Hload. subst keys.
    cbn [find]. rewrite Ha. cbn [fst]. now rewrite Hk.
Qed.

End KeyChanges.

(** * The list of API keys on concrete browsers *)

Section KeyInstances.
Import KeyStore.

Lemma two_embedded_distinct : NoDup (validEmbeddedKeys two_embedded).
Proof.
  repeat constructor; simpl; intuition discriminate.
Qed.

Lemma X20_the_own_key_stays_behind_the_embedded_keys :
  In "AIzaKEY-own-0000000" (map key (fst (getUserApiKeys 1000 with_own_key))) /\
  existsb active (fst (getUserApiKeys 1000 with_own_key)) = true.
Proof.
  destruct (@X20_embedded_keys_are_always_offered 1000 with_own_key)
    as (_ & _ & Hkept & Hactive & _).
  - left. reflexivity.
  - discriminate.
  - exact two_embedded_distinct.
  - split; [|exact Hactive].
    apply (Hkept own_key); [left|]; reflexivity.
Defined.

Lemma X21_the_second_embedded_key_is_chosen :
  fst (getActiveApiKey 2000 (setActiveApiKey 1000 "embedded_1" two_embedded)) =
  Some "AIzaKEY-two-0000000".
Proof.
  destruct (@X21_the_chosen_key_is_the_active_key 1000 2000 "embedded_1" two_embedded)
    as (_ & _ & Hfound & _).
  - unfold API_KEYS_CACHE_DURATION. lia.
  - exact (Hfound _ eq_refl).
Defined.

Lemma X22_a_working_key_is_added_and_used :
  fst (addApiKey 1000 1500 true (set_gemini_key_input " AIzaKEY-own-0000000 " two_embedded)) =
    KeyAdded /\
  fst (getActiveApiKey 2000
         (snd (addApiKey 1000 1500 true
                 (set_gemini_key_input " AIzaKEY-own-0000000 " two_embedded)))) =
    Some "AIzaKEY-own-0000000".
Proof.
  destruct (@X22_a_key_is_added_only_if_new_and_working 1000 1500 2000 true
              (set_gemini_key_input " AIzaKEY-own-0000000 " two_embedded))
    as (Hiff & Hadded & _).
  - unfold API_KEYS_CACHE_DURATION. lia.
  - assert (Hok : fst (addApiKey 1000 1500 true
                         (set_gemini_key_input " AIzaKEY-own-0000000 " two_embedded)) = KeyAdded).
    { apply Hiff. repeat split; reflexivity. }
    split; [exact Hok|]. apply (Hadded Hok).
Defined.

Lemma X23_the_first_embedded_key_comes_back_active :
  fst (getActiveApiKey 5000 (removeApiKey 0 "embedded_0" true two_embedded)) =
  Some "AIzaKEY-one-0000000".
Proof.
  destruct (@X23_a_removed_embedded_key_comes_back 0 5000 "embedded_0" two_embedded)
    as (_ & _ & Hback).
  - discriminate.
  - exact two_embedded_distinct.
  - unfold API_KEYS_CACHE_DURATION. lia.
  - apply (Hback "AIzaKEY-one-0000000" ["AIzaKEY-two-0000000"]); [reflexivity|].
    simpl. intuition discriminate.
Defined.

End KeyInstances.
